(** * Render orchestration of facebook360_dep: cache checker, dispatch and retry

    A shallow embedding of the orchestration layer in
    [scripts/render/network.py], [scripts/render/pipeline.py],
    [scripts/render/worker.py] and [scripts/render/config.py], and proofs of
    the properties the specification states about it.

    Python values are embedded as they are used by the scripts: [str] as
    [string] (ASCII text), [int] as [Z], [dict] as an insertion-ordered
    association list, [set] of file names as [gset string], exceptions as the
    [Raise] branch of [result]. *)

From Stdlib Require Import ZArith QArith Lqa Ascii String List Lia.
From stdpp Require Import gmap strings list list_numbers.

Close Scope Q_scope.

Set Warnings "-register-all,-clear-no-such-hyp".

Local Open Scope Z_scope.

(** ** Fragments of the Python runtime the scripts rely on *)

Module Py.

Inductive exn : Type :=
| KeyError (key : string)
| IndexError
| ValueError
| TypeError
| StopIteration
| OSError
| UnboundLocalError
| CommandFailed
| Exception (message : string).

Inductive result (A : Type) : Type :=
| Ret (a : A)
| Raise (e : exn).

Arguments Ret {A} a.
Arguments Raise {A} e.

#[global] Instance result_ret : MRet result := @Ret.

#[global] Instance result_bind : MBind result :=
  λ A B f m, match m with Ret a => f a | Raise e => Raise e end.

#[global] Instance result_fmap : FMap result :=
  λ A B f m, match m with Ret a => Ret (f a) | Raise e => Raise e end.

Definition returns {A} (m : result A) : bool :=
  match m with Ret _ => true | Raise _ => false end.

(** [try: ... except Exception: handler] *)
Definition try_except {A} (body : result A) (handler : exn → result A) : result A :=
  match body with Ret a => Ret a | Raise e => handler e end.

(** *** [str(int)] and [int(str)] *)

Definition digit_of_Z (d : Z) : ascii := ascii_of_N (48 + Z.to_N d).

Definition is_digit (c : ascii) : bool :=
  ((48 <=? N_of_ascii c) && (N_of_ascii c <=? 57))%N.

Definition digit_val (c : ascii) : Z := Z.of_N (N_of_ascii c) - 48.

(** Decimal digits of a non-negative number, most significant first, pushed in
    front of [acc]. One digit is produced per unit of fuel, and one more. *)
Fixpoint str_digits (fuel : nat) (n : Z) (acc : string) : string :=
  let acc' := String (digit_of_Z (n mod 10)) acc in
  match fuel with
  | O => acc'
  | S fuel' => if n <? 10 then acc' else str_digits fuel' (n / 10) acc'
  end.

(** [str(n)] for an [int]: a number has at most [log2 n + 1] decimal digits. *)
Definition str (n : Z) : string :=
  if n <? 0 then String "-" (str_digits (Z.to_nat (Z.log2 (- n))) (- n) "")
  else str_digits (Z.to_nat (Z.log2 n)) n "".

(** Characters [str.strip] and [int] treat as blank. *)
Definition is_space (c : ascii) : bool :=
  let n := N_of_ascii c in
  ((9 <=? n) && (n <=? 13) || (28 <=? n) && (n <=? 32))%N.

Fixpoint lstrip (s : string) : string :=
  match s with
  | EmptyString => EmptyString
  | String c s' => if is_space c then lstrip s' else s
  end.

Fixpoint rstrip (s : string) : string :=
  match s with
  | EmptyString => EmptyString
  | String c s' =>
      match rstrip s' with
      | EmptyString => if is_space c then EmptyString else String c EmptyString
      | t => String c t
      end
  end.

(** Digits of an integer literal: a non-empty run of ASCII digits in which
    single underscores may separate digits. *)
Fixpoint int_digits (s : string) (acc : Z) (after_digit : bool) : option Z :=
  match s with
  | EmptyString => if after_digit then Some acc else None
  | String c s' =>
      if is_digit c then int_digits s' (10 * acc + digit_val c) true
      else if Ascii.eqb c "_" && after_digit then
        match s' with
        | String c' _ => if is_digit c' then int_digits s' acc false else None
        | EmptyString => None
        end
      else None
  end.

(** [int(s)] for a [str] in base ten; [ValueError] on anything else. *)
Definition int (s : string) : result Z :=
  let t := rstrip (lstrip s) in
  let parsed :=
    match t with
    | String c t' =>
        if Ascii.eqb c "-" then Z.opp <$> int_digits t' 0 false
        else if Ascii.eqb c "+" then int_digits t' 0 false
        else int_digits t 0 false
    | EmptyString => None
    end in
  match parsed with
  | Some z => Ret z
  | None => Raise ValueError
  end.

(** *** [str.rjust], [str.startswith], string membership *)

Fixpoint pad (k : nat) (fill : ascii) (s : string) : string :=
  match k with
  | O => s
  | S k' => String fill (pad k' fill s)
  end.

Definition rjust (width : nat) (fill : ascii) (s : string) : string :=
  pad (width - String.length s)%nat fill s.

Fixpoint startswith (s prefix : string) : bool :=
  match prefix, s with
  | EmptyString, _ => true
  | String p prefix', String c s' => Ascii.eqb c p && startswith s' prefix'
  | String _ _, EmptyString => false
  end.

Fixpoint all_chars (p : ascii → bool) (s : string) : bool :=
  match s with
  | EmptyString => true
  | String c s' => p c && all_chars p s'
  end.

(** Removes [prefix] from the front of [s] when it is there. *)
Fixpoint strip_prefix (prefix s : string) : option string :=
  match prefix, s with
  | EmptyString, _ => Some s
  | String p prefix', String c s' =>
      if Ascii.eqb c p then strip_prefix prefix' s' else None
  | String _ _, EmptyString => None
  end.

(** Cuts [s] at the first occurrence of [sep]: the text before it and the
    text after it. [None] when [sep] does not occur in [s]. *)
Fixpoint split_once (sep s : string) : option (string * string) :=
  match strip_prefix sep s with
  | Some rest => Some (EmptyString, rest)
  | None =>
      match s with
      | EmptyString => None
      | String c s' =>
          match split_once sep s' with
          | Some (before, after) => Some (String c before, after)
          | None => None
          end
      end
  end.

(** [sub in s] *)
Definition contains (s sub : string) : bool :=
  match split_once sub s with Some _ => true | None => false end.

(** [s.split(sep)] for a one-character separator. *)
Fixpoint split_char (sep : ascii) (s : string) : list string :=
  match s with
  | EmptyString => [EmptyString]
  | String c s' =>
      if Ascii.eqb c sep then EmptyString :: split_char sep s'
      else match split_char sep s' with
           | h :: t => String c h :: t
           | [] => [String c EmptyString]
           end
  end.

(** *** [os.path] on POSIX *)

(** Cuts [s] after its last ["/"]: the directory part, slash included, and
    the base name. *)
Fixpoint rsplit_slash (s : string) : string * string :=
  match s with
  | EmptyString => (EmptyString, EmptyString)
  | String c s' =>
      let '(dir, base) := rsplit_slash s' in
      match dir with
      | EmptyString =>
          if Ascii.eqb c "/" then (String c EmptyString, base)
          else (EmptyString, String c base)
      | _ => (String c dir, base)
      end
  end.

Definition basename (p : string) : string := snd (rsplit_slash p).

(** Cuts [s] at its last ["."]: the text before the dot, and the dot with the
    text after it. *)
Fixpoint rsplit_dot (s : string) : option (string * string) :=
  match s with
  | EmptyString => None
  | String c s' =>
      match rsplit_dot s' with
      | Some (root, ext) => Some (String c root, ext)
      | None => if Ascii.eqb c "." then Some (EmptyString, s) else None
      end
  end.

(** [os.path.splitext]: the extension starts at the last dot of the base
    name, unless only dots precede it. *)
Definition splitext (p : string) : string * string :=
  let '(dir, base) := rsplit_slash p in
  match rsplit_dot base with
  | Some (root, ext) =>
      if all_chars (Ascii.eqb ".") root then (p, EmptyString)
      else (dir +:+ root, ext)
  | None => (p, EmptyString)
  end.

(** [s.endswith("/")] *)
Fixpoint endswith_slash (s : string) : bool :=
  match s with
  | EmptyString => false
  | String c EmptyString => Ascii.eqb c "/"
  | String _ s' => endswith_slash s'
  end.

(** [os.path.join(a, b)] *)
Definition path_join (a b : string) : string :=
  if startswith b "/" then b
  else if String.eqb a "" || endswith_slash a then a +:+ b
  else a +:+ "/" +:+ b.

(** *** Dynamically typed values and [dict] *)

Inductive value : Type :=
| VNone
| VBool (b : bool)
| VInt (z : Z)
| VStr (s : string)
| VList (l : list value)
| VDict (items : list (string * value)).

(** A [dict] with [str] keys, in insertion order. *)
Definition dict : Type := list (string * value).

Fixpoint dict_get (d : dict) (k : string) : option value :=
  match d with
  | [] => None
  | (k', v) :: d' => if String.eqb k' k then Some v else dict_get d' k
  end.

(** [d[k]] *)
Definition getitem (d : dict) (k : string) : result value :=
  match dict_get d k with
  | Some v => Ret v
  | None => Raise (KeyError k)
  end.

(** [d[k] = v]: an existing key keeps its place, a new key goes last. *)
Fixpoint setitem (d : dict) (k : string) (v : value) : dict :=
  match d with
  | [] => [(k, v)]
  | (k', v') :: d' =>
      if String.eqb k' k then (k', v) :: d' else (k', v') :: setitem d' k v
  end.

(** [d.update(other)] *)
Definition update (d other : dict) : dict :=
  fold_left (λ acc kv, setitem acc kv.1 kv.2) other d.

(** [l[i]]: a negative index counts from the end. *)
Definition index {A} (l : list A) (i : Z) : result A :=
  let j := if i <? 0 then Z.of_nat (length l) + i else i in
  if j <? 0 then Raise IndexError
  else from_option Ret (Raise IndexError) (l !! Z.to_nat j).

(** Truth value of an object in a condition. *)
Definition truthy (v : value) : bool :=
  match v with
  | VNone => false
  | VBool b => b
  | VInt z => negb (z =? 0)
  | VStr s => negb (String.eqb s "")
  | VList l => match l with [] => false | _ => true end
  | VDict items => match items with [] => false | _ => true end
  end.

(** [isinstance(v, list)], with the list. *)
Definition as_list (v : value) : option (list value) :=
  match v with
  | VList l => Some l
  | _ => None
  end.

(** A value used as a number. *)
Definition as_int (v : value) : result Z :=
  match v with
  | VInt z => Ret z
  | VBool b => Ret (if b then 1 else 0)
  | _ => Raise TypeError
  end.

(** [v == s] for a [str] literal [s]. *)
Definition eq_str (v : value) (s : string) : bool :=
  match v with
  | VStr s' => String.eqb s' s
  | _ => false
  end.

(** A value used where the scripts call a [str] method on it. *)
Definition as_str (v : value) : result string :=
  match v with
  | VStr s => Ret s
  | _ => Raise TypeError
  end.

(** [f"{v}"] for the scalars a job message carries; containers are outside
    the embedded fragment. *)
Definition format (v : value) : result string :=
  match v with
  | VNone => Ret "None"
  | VBool true => Ret "True"
  | VBool false => Ret "False"
  | VInt z => Ret (str z)
  | VStr s => Ret s
  | VList _ | VDict _ => Raise TypeError
  end.

(** *** [json.dumps] and [json.loads]

    The codec for the values above: [null], booleans, integers, strings,
    arrays and objects, with the default separators and [ensure_ascii].
    Numbers with a fraction or an exponent, and escapes of characters beyond
    one byte, are outside this fragment: [json_loads] rejects them. *)

Definition dquote : ascii := ascii_of_N 34.
Definition backslash : ascii := ascii_of_N 92.

Definition hex_digit (n : N) : ascii :=
  if (n <? 10)%N then ascii_of_N (48 + n) else ascii_of_N (87 + n).

Definition json_escape_char (c : ascii) : string :=
  let n := N_of_ascii c in
  if Ascii.eqb c dquote then String backslash (String dquote EmptyString)
  else if Ascii.eqb c backslash then String backslash (String backslash EmptyString)
  else if (n =? 10)%N then String backslash "n"
  else if (n =? 13)%N then String backslash "r"
  else if (n =? 9)%N then String backslash "t"
  else if (n =? 8)%N then String backslash "b"
  else if (n =? 12)%N then String backslash "f"
  else if (n <? 32)%N || (126 <? n)%N then
    String backslash
      (String "u" (String "0" (String "0"
         (String (hex_digit (n / 16)) (String (hex_digit (n mod 16)) EmptyString)))))
  else String c EmptyString.

Fixpoint json_escape (s : string) : string :=
  match s with
  | EmptyString => EmptyString
  | String c s' => json_escape_char c +:+ json_escape s'
  end.

Definition json_quote (s : string) : string :=
  String dquote (json_escape s +:+ String dquote EmptyString).

Fixpoint json_dumps (v : value) : string :=
  match v with
  | VNone => "null"
  | VBool true => "true"
  | VBool false => "false"
  | VInt z => str z
  | VStr s => json_quote s
  | VList l => "[" +:+ String.concat ", " (map json_dumps l) +:+ "]"
  | VDict items =>
      "{" +:+
      String.concat ", "
        (map (λ kv, let '(k, x) := kv in json_quote k +:+ ": " +:+ json_dumps x)
           items)
      +:+ "}"
  end.

Definition json_space (c : ascii) : bool :=
  let n := N_of_ascii c in
  (n =? 32)%N || (n =? 9)%N || (n =? 10)%N || (n =? 13)%N.

Fixpoint skip_ws (s : string) : string :=
  match s with
  | EmptyString => EmptyString
  | String c s' => if json_space c then skip_ws s' else s
  end.

Definition hex_val (c : ascii) : option N :=
  let n := N_of_ascii c in
  if (48 <=? n)%N && (n <=? 57)%N then Some (n - 48)%N
  else if (97 <=? n)%N && (n <=? 102)%N then Some (n - 87)%N
  else if (65 <=? n)%N && (n <=? 70)%N then Some (n - 55)%N
  else None.

(** The character a one-letter escape stands for. *)
Definition json_unescape (c : ascii) : option ascii :=
  if Ascii.eqb c dquote then Some dquote
  else if Ascii.eqb c backslash then Some backslash
  else if Ascii.eqb c "/" then Some "/"%char
  else if Ascii.eqb c "n" then Some (ascii_of_N 10)
  else if Ascii.eqb c "r" then Some (ascii_of_N 13)
  else if Ascii.eqb c "t" then Some (ascii_of_N 9)
  else if Ascii.eqb c "b" then Some (ascii_of_N 8)
  else if Ascii.eqb c "f" then Some (ascii_of_N 12)
  else None.

(** The text of a string after its opening quote, and what follows its
    closing quote. *)
Fixpoint parse_string_body (s : string) : option (string * string) :=
  match s with
  | EmptyString => None
  | String c s' =>
      if Ascii.eqb c dquote then Some (EmptyString, s')
      else if Ascii.eqb c backslash then
        match s' with
        | String "u" (String h1 (String h2 (String h3 (String h4 s'')))) =>
            match hex_val h1, hex_val h2, hex_val h3, hex_val h4 with
            | Some 0%N, Some 0%N, Some a, Some b =>
                match parse_string_body s'' with
                | Some (t, rest) => Some (String (ascii_of_N (16 * a + b)) t, rest)
                | None => None
                end
            | _, _, _, _ => None
            end
        | String e s'' =>
            match json_unescape e, parse_string_body s'' with
            | Some ch, Some (t, rest) => Some (String ch t, rest)
            | _, _ => None
            end
        | EmptyString => None
        end
      else if (N_of_ascii c <? 32)%N then None
      else
        match parse_string_body s' with
        | Some (t, rest) => Some (String c t, rest)
        | None => None
        end
  end.

(** A run of digits continuing the number [acc], and what follows it. *)
Fixpoint take_digits (s : string) (acc : Z) : Z * string :=
  match s with
  | String c s' =>
      if is_digit c then take_digits s' (10 * acc + digit_val c) else (acc, s)
  | EmptyString => (acc, s)
  end.

(** An integer literal without its sign: [0], or a run of digits that does
    not start with [0]; a fraction or an exponent after it is refused. *)
Definition parse_natural (s : string) : option (Z * string) :=
  match s with
  | String c s' =>
      if is_digit c then
        let '(n, rest) :=
          if Ascii.eqb c "0" then (0, s') else take_digits s 0 in
        match rest with
        | String d _ =>
            if Ascii.eqb d "." || Ascii.eqb d "e" || Ascii.eqb d "E" then None
            else Some (n, rest)
        | EmptyString => Some (n, rest)
        end
      else None
  | EmptyString => None
  end.

Fixpoint parse_value (fuel : nat) (s : string) : option (value * string) :=
  match fuel with
  | O => None
  | S fuel' =>
      match skip_ws s with
      | EmptyString => None
      | String c rest as t =>
          if Ascii.eqb c dquote then
            match parse_string_body rest with
            | Some (text, rest') => Some (VStr text, rest')
            | None => None
            end
          else if Ascii.eqb c "[" then
            match skip_ws rest with
            | String "]" rest' => Some (VList [], rest')
            | _ =>
                match parse_items fuel' rest with
                | Some (l, rest') => Some (VList l, rest')
                | None => None
                end
            end
          else if Ascii.eqb c "{" then
            match skip_ws rest with
            | String "}" rest' => Some (VDict [], rest')
            | _ =>
                match parse_members fuel' rest [] with
                | Some (items, rest') => Some (VDict items, rest')
                | None => None
                end
            end
          else if Ascii.eqb c "-" then
            match parse_natural rest with
            | Some (n, rest') => Some (VInt (- n), rest')
            | None => None
            end
          else
            match strip_prefix "null" t, strip_prefix "true" t,
                  strip_prefix "false" t with
            | Some rest', _, _ => Some (VNone, rest')
            | _, Some rest', _ => Some (VBool true, rest')
            | _, _, Some rest' => Some (VBool false, rest')
            | None, None, None =>
                match parse_natural t with
                | Some (n, rest') => Some (VInt n, rest')
                | None => None
                end
            end
      end
  end
with parse_items (fuel : nat) (s : string) : option (list value * string) :=
  match fuel with
  | O => None
  | S fuel' =>
      match parse_value fuel' s with
      | Some (x, rest) =>
          match skip_ws rest with
          | String "," rest' =>
              match parse_items fuel' rest' with
              | Some (l, rest'') => Some (x :: l, rest'')
              | None => None
              end
          | String "]" rest' => Some ([x], rest')
          | _ => None
          end
      | None => None
      end
  end
with parse_members (fuel : nat) (s : string) (acc : list (string * value))
    : option (list (string * value) * string) :=
  match fuel with
  | O => None
  | S fuel' =>
      match skip_ws s with
      | String c rest =>
          if Ascii.eqb c dquote then
            match parse_string_body rest with
            | Some (key, rest') =>
                match skip_ws rest' with
                | String ":" rest'' =>
                    match parse_value fuel' rest'' with
                    | Some (x, rest3) =>
                        let acc := setitem acc key x in
                        match skip_ws rest3 with
                        | String "," rest4 => parse_members fuel' rest4 acc
                        | String "}" rest4 => Some (acc, rest4)
                        | _ => None
                        end
                    | None => None
                    end
                | _ => None
                end
            | None => None
            end
          else None
      | EmptyString => None
      end
  end.

(** [json.loads(body)] *)
Definition json_loads (body : string) : result value :=
  match parse_value (2 * String.length body + 2) body with
  | Some (v, rest) =>
      match skip_ws rest with
      | EmptyString => Ret v
      | _ => Raise ValueError
      end
  | None => Raise ValueError
  end.

End Py.

Export Py.

(** ** [scripts/render/config.py] and the image-type table of
    [scripts/util/system_util.py] *)

Module Config.

Definition WIDTHS : list Z := [2048; 1024; 512; 256; 200; 128; 100; 80; 60; 50].

Definition RESPONSE_QUEUE_NAME : string := "facebook360_dep_response".
Definition QUEUE_NAME : string := "facebook360_dep".

Definition DOCKER_ROOT : string := "/app/facebook360_dep".
Definition DOCKER_INPUT_ROOT : string := DOCKER_ROOT +:+ "/" +:+ "project".
Definition DOCKER_OUTPUT_ROOT : string := DOCKER_INPUT_ROOT +:+ "/" +:+ "video".

(** Seconds without a consumer after which the Controller gives up. *)
Definition NO_WORKER_TIMEOUT : Z := 180.

Definition type_to_levels_type : list (string * string) :=
  [ ("background_disp", "background_disp_levels");
    ("background_color", "background_color_levels");
    ("color", "color_levels");
    ("disparity", "disparity_levels");
    ("disparity_time_filtered", "disparity_time_filtered_levels");
    ("foreground_masks", "foreground_masks_levels") ].

Definition type_to_upsample_type : list (string * string) :=
  [ ("disparity", "disparity_upsample");
    ("background_disp", "background_disp_upsample") ].

Definition image_type_paths : list (string * string) :=
  [ ("background_color", "background/color");
    ("background_color_levels", "background/color_levels");
    ("background_disp", "background/disparity");
    ("background_disp_levels", "background/disparity_levels");
    ("background_disp_upsample", "background/disparity_upsample");
    ("bin", "bin");
    ("color", "video/color");
    ("color_levels", "video/color_levels");
    ("confidence", "confidence");
    ("cost", "cost");
    ("disparity", "disparity");
    ("disparity_upsample", "disparity_upsample");
    ("disparity_levels", "disparity_levels");
    ("disparity_time_filtered", "disparity_time_filtered");
    ("disparity_time_filtered_levels", "disparity_time_filtered_levels");
    ("exports", "exports");
    ("exports_cubecolor", "exports/cubecolor");
    ("exports_cubedisp", "exports/cubedisp");
    ("exports_eqrcolor", "exports/eqrcolor");
    ("exports_eqrdisp", "exports/eqrdisp");
    ("exports_lr180", "exports/lr180");
    ("exports_tb3dof", "exports/tb3dof");
    ("exports_tbstereo", "exports/tbstereo");
    ("foreground_masks", "video/foreground_masks");
    ("foreground_masks_levels", "video/foreground_masks_levels");
    ("fused", "fused");
    ("mismatches", "mismatches");
    ("video_bin", "video/bin");
    ("video_disp", "video/disparity");
    ("video_disp_levels", "video/disparity_levels");
    ("video_fused", "video/fused") ].

(** Lookup in one of the constant [str] to [str] tables above. *)
Fixpoint table_get (t : list (string * string)) (k : string) : result string :=
  match t with
  | [] => Raise (KeyError k)
  | (k', v) :: t' => if String.eqb k' k then Ret v else table_get t' k
  end.

End Config.

(** ** [scripts/render/network.py] *)

Module Network.

Import Config.

(** *** Storage back ends and side effects

    The scripts reach the file system, the object store and the external
    binaries through [os.walk], [run_command], [tarfile] and the like. Their
    answers are taken from a [storage] record; what the scripts ask them to
    do is recorded as a list of [event]s. *)

Record storage : Type := {
  (** [next(os.walk(src))[1]]: the sub-directories of [src]; [None] when
      [os.walk] yields nothing because [src] is not a directory. *)
  os_walk_dirs : string → option (list string);
  (** [get_sample_file(src)] *)
  get_sample_file : string → result (option string);
  (** [listdir(src, run_silently=True, recursive=True)] *)
  listdir : string → result (gset string);
  (** whether [run_command(cmd)] returns rather than raises *)
  run_command_ok : string → bool;
  (** whether opening and extracting the archive succeeds *)
  tarfile_ok : string → bool;
  (** [os.path.exists(path)] *)
  os_path_exists : string → bool
}.

Inductive event : Type :=
| RunCommand (cmd : string)
| TarExtractAll (tar_fn dst : string)
| Rmtree (path : string).

(** A computation with side effects: the events it caused, in order, and its
    result or the exception that stopped it. *)
Definition io (A : Type) : Type := list event * result A.

#[global] Instance io_ret : MRet io := λ A a, ([], Ret a).

#[global] Instance io_bind : MBind io :=
  λ A B f m,
    match m.2 with
    | Ret a => (m.1 ++ (f a).1, (f a).2)
    | Raise e => (m.1, Raise e)
    end.

Definition lift {A} (r : result A) : io A := ([], r).

Definition emit (e : event) : io unit := ([e], Ret tt).

Definition run_command (st : storage) (cmd : string) : io unit :=
  ([RunCommand cmd],
   if run_command_ok st cmd then Ret tt else Raise CommandFailed).

Definition tar_extractall (st : storage) (tar_fn dst : string) : io unit :=
  if tarfile_ok st tar_fn then ([TarExtractAll tar_fn dst], Ret tt)
  else ([], Raise OSError).

(** *** [class Address] *)

Record Address : Type := {
  address : string;
  ip : option string;
  ip_path : string;
  path : string;
  protocol : option string
}.

(** [Address.__init__]: both tuple assignments need exactly two parts. *)
Definition Address_init (addr : string) : result Address :=
  match split_once "://" addr with
  | Some (proto, rest) =>
      if contains rest "://" then Raise ValueError
      else
        match split_once "/" rest with
        | Some (host, p) =>
            Ret {| address := addr; ip := Some host; ip_path := rest;
                   path := p; protocol := Some proto |}
        | None => Raise ValueError
        end
  | None =>
      Ret {| address := addr; ip := None; ip_path := addr;
             path := addr; protocol := None |}
  end.

Definition is_s3 (a : Address) : bool :=
  match protocol a with
  | Some p => String.eqb p "s3"
  | None => false
  end.

(** *** Image types *)

Definition inputs : list string :=
  [ "background_color"; "background_color_levels"; "background_disp";
    "background_disp_levels"; "background_disp_upsample"; "color";
    "color_levels"; "foreground_masks"; "foreground_masks_levels" ].

Definition outputs : list string :=
  [ "bin"; "confidence"; "cost"; "disparity"; "disparity_upsample";
    "disparity_levels"; "disparity_time_filtered";
    "disparity_time_filtered_levels"; "fused"; "mismatches"; "exports";
    "exports_cubecolor"; "exports_cubedisp"; "exports_eqrcolor";
    "exports_eqrdisp"; "exports_lr180"; "exports_tb3dof"; "exports_tbstereo" ].

Definition _get_image_root_type (image_type : string) : result string :=
  if existsb (String.eqb image_type) outputs then Ret "output"
  else if existsb (String.eqb image_type) inputs then Ret "input"
  else Raise (KeyError image_type).

(** *** Frame names *)

Definition get_frame_name (frame : Z) : string := rjust 6 "0" (str frame).

(** [int(x)] for a value of a message or a chunk. *)
Definition int_of (v : value) : result Z :=
  match v with
  | VStr s => int s
  | VInt z => Ret z
  | VBool b => Ret (if b then 1 else 0)
  | _ => Raise TypeError
  end.

Definition get_frame_range (first last : value) : result (list string) :=
  a ← int_of first;
  b ← int_of last;
  Ret (get_frame_name <$> seqZ a (b + 1 - a)).

(** *** Paths of an image type *)

(** A pyramid level is [None] (full size) or a number. *)
Definition is_None (v : value) : bool :=
  match v with VNone => true | _ => false end.

(** [image_type_dir] itself, or [os.path.join(image_type_dir, f"level_{level}")] *)
Definition level_dir (image_type_dir : string) (level : value) : result string :=
  if is_None level then Ret image_type_dir
  else
    n ← format level;
    Ret (path_join image_type_dir ("level_" +:+ n)).

Definition leveled_type (image_type : string) (level : value) : result string :=
  if is_None level then Ret image_type
  else table_get type_to_levels_type image_type.

Definition local_image_type_path (msg : dict) (image_type : string)
    (level : value) : result string :=
  image_type ← leveled_type image_type level;
  image_root_type ← _get_image_root_type image_type;
  let image_root :=
    if String.eqb image_root_type "input" then DOCKER_INPUT_ROOT
    else DOCKER_OUTPUT_ROOT in
  rel ← table_get image_type_paths image_type;
  level_dir (path_join image_root rel) level.

Definition remote_image_type_path (msg : dict) (image_type : string)
    (level : value) : result string :=
  image_type ← leveled_type image_type level;
  image_root_type ← _get_image_root_type image_type;
  image_root ←
    (if String.eqb image_root_type "input" then getitem msg "input_root"
     else getitem msg "output_root") ≫= as_str;
  rel ← table_get image_type_paths image_type;
  level_dir (path_join image_root rel) level.

(** *** Expected file names *)

Definition get_frame_fns (st : storage) (msg : dict) (frames : list string)
    (uncompressed : bool) (src : option string) : result (list string) :=
  frame_fns ←
    (if uncompressed then
       app ← getitem msg "app" ≫= as_str;
       if startswith app "SimpleMeshRenderer" then
         img_ext ← getitem msg "file_type" ≫= format;
         Ret ((λ frame, frame +:+ "." +:+ img_ext) <$> frames)
       else
         src ← from_option Ret (Raise TypeError) src;
         cam_dirs ← from_option Ret (Raise StopIteration) (os_walk_dirs st src);
         img_exts ←
           (if startswith app "ConvertToBinary" || startswith app "DerpCLI" then
              formats ← getitem msg "output_formats" ≫= as_str;
              Ret ((λ ft, "." +:+ ft) <$> split_char "," formats)
            else
              cam ← from_option Ret (Raise StopIteration) (head cam_dirs);
              sample_file ← get_sample_file st (path_join src cam);
              match sample_file with
              | Some f => Ret [(splitext f).2]
              | None => Raise TypeError
              end);
         Ret (img_ext ← img_exts;
              frame ← frames;
              cam_dir ← cam_dirs;
              [path_join cam_dir (frame +:+ img_ext)])
     else Ret ((λ frame, frame +:+ ".tar") <$> frames));
  (* [list(set(frame_fns))]: duplicates go, the order is the set's *)
  Ret (elements (list_to_set (C := gset string) frame_fns)).

(** *** Downloads *)

Definition filter_cmd (filters : list string) : string :=
  "--exclude '*' " +:+
  String.concat " " ((λ f, "--include '" +:+ f +:+ "'") <$> filters).

Definition download (st : storage) (src dst : string) (filters : list string)
    : io bool :=
  remote ← lift (Address_init src);
  if is_s3 remote then
    let download_cmd :=
      if contains (basename (path remote)) "." then
        "aws s3 cp " +:+ address remote +:+ " " +:+ dst
      else
        "aws s3 cp " +:+ address remote +:+ " " +:+ dst +:+ " --recursive "
        +:+ filter_cmd filters in
    run_command st download_cmd;;
    mret true
  else mret false.

(** [_netop_helper]: [completed &= netop(...)] over every file name. *)
Fixpoint _netop_helper (netop : string → string → io bool) (src dst : string)
    (frame_fns : list string) (completed : bool) : io bool :=
  match frame_fns with
  | [] => mret completed
  | frame_fn :: rest =>
      ok ← netop (path_join src frame_fn) (path_join dst frame_fn);
      _netop_helper netop src dst rest (completed && ok)
  end.

Fixpoint extract_frames (st : storage) (dst : string) (frame_tar_fns : list string)
    : io unit :=
  match frame_tar_fns with
  | [] => mret tt
  | frame_tar_fn :: rest =>
      tar_extractall st (path_join dst frame_tar_fn) dst;;
      extract_frames st dst rest
  end.

Definition download_image_type (st : storage) (msg : dict) (image_type : string)
    (frames : list string) (level : value) : io bool :=
  src ← lift (remote_image_type_path msg image_type level);
  remote ← lift (Address_init src);
  (if is_s3 remote then
     src ← lift (remote_image_type_path msg image_type level);
     dst ← lift (local_image_type_path msg image_type level);
     frame_tar_fns ← lift (get_frame_fns st msg frames false None);
     downloaded_frames ←
       _netop_helper (λ s d, download st s d []) src dst frame_tar_fns true;
     if (downloaded_frames : bool) then extract_frames st dst frame_tar_fns
     else (mret tt : io unit)
   else (mret tt : io unit));;
  mret false.

(** The loop of [download_image_types]: [ran_download |= ...]. *)
Fixpoint download_each (st : storage) (msg : dict)
    (image_type_to_level : list (string * value)) (frames : list string)
    (ran_download : bool) : io bool :=
  match image_type_to_level with
  | [] => mret ran_download
  | (image_type, level) :: rest =>
      ran ← download_image_type st msg image_type frames level;
      download_each st msg rest frames (ran_download || ran)
  end.

Definition download_image_types (st : storage) (msg : dict)
    (image_type_to_level : list (string * value))
    (frames : option (list string)) : io bool :=
  frames ←
    match frames with
    | Some fr => mret fr
    | None =>
        lift (first ← getitem msg "first";
              last ← getitem msg "last";
              get_frame_range first last)
    end;
  download_each st msg image_type_to_level frames false.

End Network.

(** ** The broker, as the scripts drive it through [pika] *)

Module Pika.

(** Calls made on a channel, in the order they are made. *)
Inductive channel_op : Type :=
| queue_declare (queue : string)
| queue_purge (queue : string)
| basic_publish (routing_key body : string) (persistent : bool)
| basic_ack (delivery_tag : Z)
| basic_reject (delivery_tag : Z).

(** What one passive [queue_declare] round of the Controller's wait loop
    reads, with the two readings of [time.time()] of that iteration: the one
    that starts the timer and the one that is compared with it. *)
Record tick : Type := {
  message_count : Z;
  consumer_count : Z;
  time_started : Q;
  time_checked : Q
}.

End Pika.

(** ** [scripts/render/pipeline.py] *)

Module Pipeline.

Import Config Network Pika.

(** A frame chunk: [{"first": ..., "last": ...}], and for temporal filtering
    also [{"filter_first": ..., "filter_last": ...}]. *)
Record frame_chunk : Type := {
  first : string;
  last : string;
  filter_span : option (string * string)
}.

Definition chunk_items (c : frame_chunk) : dict :=
  [("first", VStr (first c)); ("last", VStr (last c))] ++
  match filter_span c with
  | Some (filter_first, filter_last) =>
      [("filter_first", VStr filter_first); ("filter_last", VStr filter_last)]
  | None => []
  end.

Definition chunk_frames (c : frame_chunk) : result (list string) :=
  get_frame_range (VStr (first c)) (VStr (last c)).

(** [os.path.splitext(os.path.basename(frames_fn))[0]] *)
Definition frame_of_fn (frames_fn : string) : string :=
  (splitext (basename frames_fn)).1.

(** [None] stands for the [return None] of the [except] branch. *)
Definition _get_missing_chunks_level (st : storage) (params : dict)
    (level : value) (frame_chunks : list frame_chunk)
    : result (option (list string)) :=
  dst_image_type ← getitem params "dst_image_type" ≫= as_str;
  dst_dir ← remote_image_type_path params dst_image_type level;
  chunk0 ← index frame_chunks 0;
  chunkN ← index frame_chunks (-1);
  dst_frames ← get_frame_range (VStr (first chunk0)) (VStr (last chunkN));
  remote ← Address_init dst_dir;
  let uncompressed := negb (is_s3 remote) in
  try_except
    (expected_frame_fns ←
       get_frame_fns st params dst_frames uncompressed (Some dst_dir);
     actual_frame_fns ← listdir st dst_dir;
     let missing_frames_fns :=
       list_to_set (C := gset string) expected_frame_fns ∖ actual_frame_fns in
     Ret (Some (frame_of_fn <$> elements missing_frames_fns)))
    (λ _, Ret None).

(** The loop over [params["dst_level"]]: the union of the levels' missing
    frames, or [None] as soon as one level could not be checked. *)
Fixpoint missing_frames_of_levels (st : storage) (params : dict)
    (levels : list value) (frame_chunks : list frame_chunk)
    (missing_frames : gset string) : result (option (gset string)) :=
  match levels with
  | [] => Ret (Some missing_frames)
  | dst_level :: rest =>
      new_missing_chunks ←
        _get_missing_chunks_level st params dst_level frame_chunks;
      match new_missing_chunks with
      | None => Ret None
      | Some new =>
          missing_frames_of_levels st params rest frame_chunks
            (missing_frames ∪ list_to_set new)
      end
  end.

(** Whether some frame of the chunk is in [missing_frames]. *)
Definition has_missing_frame (missing_frames : gset string) (c : frame_chunk)
    : result bool :=
  frames ← chunk_frames c;
  Ret (existsb (λ frame, bool_decide (frame ∈ missing_frames)) frames).

(** The final loop of [_get_missing_chunks]. *)
Fixpoint missing_frame_chunks (missing_frames : gset string)
    (frame_chunks : list frame_chunk) : result (list frame_chunk) :=
  match frame_chunks with
  | [] => Ret []
  | frame_chunk :: rest =>
      missing ← has_missing_frame missing_frames frame_chunk;
      others ← missing_frame_chunks missing_frames rest;
      Ret (if (missing : bool) then frame_chunk :: others else others)
  end.

(** The missing-frame set of the cache check, [None] when a level could not
    be checked. *)
Definition missing_frames_of (st : storage) (params : dict)
    (frame_chunks : list frame_chunk) : result (option (gset string)) :=
  dst_level ← getitem params "dst_level";
  match as_list dst_level with
  | Some levels =>
      missing_frames_of_levels st params levels frame_chunks ∅
  | None =>
      missing_frames ←
        _get_missing_chunks_level st params dst_level frame_chunks;
      Ret (option_map (list_to_set (C := gset string)) missing_frames)
  end.

Definition _get_missing_chunks (st : storage) (params : dict)
    (frame_chunks : list frame_chunk) : result (list frame_chunk) :=
  force_recompute ← getitem params "force_recompute";
  if truthy force_recompute then Ret frame_chunks
  else
    getitem params "app";;
    missing ← missing_frames_of st params frame_chunks;
    match missing with
    | None => Ret frame_chunks
    | Some missing_frames =>
        if bool_decide (size missing_frames = 0%nat) then Ret []
        else missing_frame_chunks missing_frames frame_chunks
    end.

(** *** The wait loop *)

Inductive wait_state : Type :=
| Done
| Waiting (queue_size : Z) (no_worker_period : option Q).

Definition no_workers_error : exn :=
  Exception "No workers for extended time! Check worker logs for errors...".

(** The [while queue_size != len(frame_chunks)] loop over the broker's
    successive answers. Returns how many iterations ran and how the loop
    stood then: finished, stopped by the exception, or out of answers. *)
Fixpoint wait_loop (dispatched : Z) (queue_size : Z)
    (no_worker_period : option Q) (ticks : list tick)
    : nat * result wait_state :=
  if queue_size =? dispatched then (O, Ret Done)
  else
    match ticks with
    | [] => (O, Ret (Waiting queue_size no_worker_period))
    | t :: rest =>
        let queue_size := message_count t in
        let num_workers := consumer_count t in
        let no_worker_period :=
          if negb (num_workers =? 0) then None else no_worker_period in
        let step (no_worker_period : option Q) :=
          let '(n, r) := wait_loop dispatched queue_size no_worker_period rest in
          (S n, r) in
        if num_workers =? 0 then
          let no_worker_period :=
            match no_worker_period with
            | None => time_started t
            | Some since => since
            end in
          if Qlt_le_dec (inject_Z NO_WORKER_TIMEOUT)
               (time_checked t - no_worker_period)
          then (1%nat, Raise no_workers_error)
          else step (Some no_worker_period)
        else step no_worker_period
    end.

Section run_halted_queue.

(** [json.dumps], whatever it makes of a message *)
Variable dumps : value → string.

(** The [for frame_chunk in frame_chunks] loop that publishes; [params] is
    updated in place from one chunk to the next. *)
Fixpoint publish_chunks (params : dict) (frame_chunks : list frame_chunk)
    : list channel_op :=
  match frame_chunks with
  | [] => []
  | frame_chunk :: rest =>
      let params := update params (chunk_items frame_chunk) in
      basic_publish QUEUE_NAME (dumps (VDict params)) true
      :: publish_chunks params rest
  end.

Definition purge_queue (queue_name : string) : list channel_op :=
  [queue_declare queue_name; queue_purge queue_name].

(** What one call of [run_halted_queue] did: the channel calls up to the
    declaration that reads the first [queue_size], how many iterations of
    the wait loop ran (each reads one [tick] with its two passive
    declarations), and how the call stood then. The progress bar is left
    out. *)
Record run : Type := {
  ops : list channel_op;
  iterations : nat;
  outcome : result wait_state
}.

(** [initial_count] is the response queue's message count read before the
    loop, [ticks] what the loop reads afterwards. *)
Definition run_halted_queue (st : storage) (initial_count : Z)
    (ticks : list tick) (params : dict) (frame_chunks : list frame_chunk)
    : run :=
  let setup :=
    [queue_declare QUEUE_NAME; queue_declare RESPONSE_QUEUE_NAME]
    ++ purge_queue QUEUE_NAME ++ purge_queue RESPONSE_QUEUE_NAME in
  match _get_missing_chunks st params frame_chunks with
  | Raise e => {| ops := setup; iterations := O; outcome := Raise e |}
  | Ret frame_chunks =>
      if (length frame_chunks =? 0)%nat then
        {| ops := setup; iterations := O; outcome := Ret Done |}
      else
        let published := publish_chunks params frame_chunks in
        let '(n, r) :=
          wait_loop (Z.of_nat (length frame_chunks)) initial_count None ticks in
        {| ops := setup ++ published ++ [queue_declare RESPONSE_QUEUE_NAME];
           iterations := n;
           outcome := r |}
  end.

End run_halted_queue.

(** *** [class Pipeline] and the depth-estimation stage *)

Record Pipeline : Type := {
  base_params : dict;
  frame_chunks : list frame_chunk;
  background_frame : option (list frame_chunk);
  master_ip : string;
  force_recompute : bool
}.

(** One call [self.run_halted_queue(params, frame_chunks)]. *)
Definition dispatch : Type := dict * list frame_chunk.

(** [os.path.join(base_params["input_root"],
    image_type_paths[config.type_to_levels_type[image_type]])] *)
Definition levels_path (params : dict) (image_type : string) : result value :=
  input_root ← getitem params "input_root" ≫= as_str;
  levels_type ← table_get type_to_levels_type image_type;
  rel ← table_get image_type_paths levels_type;
  Ret (VStr (path_join input_root rel)).

Definition post_resize_params_of (base : dict) : result dict :=
  disparity_type ← getitem base "disparity_type";
  if eq_str disparity_type "disparity" then
    color ← levels_path base "color";
    foreground_masks ← levels_path base "foreground_masks";
    background_disp ← levels_path base "background_disp";
    Ret (setitem (setitem (setitem base "color" color)
                    "foreground_masks" foreground_masks)
           "background_disp" background_disp)
  else if eq_str disparity_type "background_disp" then
    color ← levels_path base "color";
    Ret (setitem base "color" color)
  else Ret base.

(** The first level whose width the resolution reaches, if there is one. *)
Fixpoint first_level_within (resolution : Z) (level : Z) (widths : list Z)
    : option Z :=
  match widths with
  | [] => None
  | width :: rest =>
      if width <=? resolution then Some level
      else first_level_within resolution (level + 1) rest
  end.

Definition filter_range (post : dict) (c : frame_chunk) : result frame_chunk :=
  run_first ← getitem post "first" ≫= int_of;
  chunk_first ← int (first c);
  radius ← getitem post "time_radius" ≫= as_int;
  run_last ← getitem post "last" ≫= int_of;
  chunk_last ← int (last c);
  radius' ← getitem post "time_radius" ≫= as_int;
  Ret {| first := first c;
         last := last c;
         filter_span :=
           Some (get_frame_name (Z.max run_first (chunk_first - radius)),
                 get_frame_name (Z.min run_last (chunk_last + radius'))) |}.

Fixpoint filter_ranges_of (post : dict) (chunks : list frame_chunk)
    : result (list frame_chunk) :=
  match chunks with
  | [] => Ret []
  | c :: rest =>
      r ← filter_range post c;
      rs ← filter_ranges_of post rest;
      Ret (r :: rs)
  end.

(** [range(start, stop - 1, -1)]: from [start] down to [stop], both included. *)
Definition range_down (start stop : Z) : list Z :=
  reverse (seqZ stop (start - stop + 1)).

(** The optional batch of the coarsest levels: its dispatch, if any, and the
    level the per-level loop then starts from. *)
Definition coarsest_batch_dispatch (self : Pipeline) (post : dict)
    (start_level end_level : Z) : result (list dispatch * Z) :=
  coarsest_batch ←
    int_of (default (VInt 0) (dict_get (base_params self) "coarsest_batch_levels"));
  if 0 <? coarsest_batch then
    let batch_start := start_level in
    let batch_end := Z.max end_level (start_level - coarsest_batch + 1) in
    if batch_end <=? batch_start then
      let batched_params := setitem post "output_formats" (VStr "pfm") in
      disparity_type ← getitem batched_params "disparity_type";
      let batched_params :=
        update batched_params
          [ ("app", VStr ("DerpCLI: Levels " +:+ str batch_start +:+ "-"
                          +:+ str batch_end));
            ("level_start", VInt batch_start);
            ("level_end", VInt batch_end);
            ("image_type", disparity_type);
            ("dst_level",
             VList (VInt <$> seqZ batch_end (batch_start + 1 - batch_end)));
            ("dst_image_type", disparity_type) ] in
      Ret ([(batched_params, frame_chunks self)], batch_end - 1)
    else Ret ([], start_level)
  else Ret ([], start_level).

(** The body of [for level in range(start_level, end_level - 1, -1)]: the
    depth job of the level and, with temporal filtering, its filter and
    transfer jobs. *)
Definition level_dispatches (self : Pipeline) (post : dict)
    (filter_ranges : list frame_chunk) (end_level level : Z)
    : result (list dispatch) :=
  let depth_params :=
    if negb (level =? end_level) then setitem post "output_formats" (VStr "pfm")
    else post in
  disparity_type ← getitem depth_params "disparity_type";
  let depth_params :=
    update depth_params
      [ ("app", VStr ("DerpCLI: Level " +:+ str level));
        ("level_start", VInt level);
        ("level_end", VInt level);
        ("image_type", disparity_type);
        ("dst_level", VInt level);
        ("dst_image_type", disparity_type) ] in
  do_temporal_filter ← getitem post "do_temporal_filter";
  if truthy do_temporal_filter then
    do_temporal_masking ← getitem post "do_temporal_masking";
    let filter_params :=
      update post
        [ ("app", VStr "TemporalBilateralFilter");
          ("level", VInt level);
          ("use_foreground_masks", do_temporal_masking);
          ("dst_level", VInt level);
          ("dst_image_type", VStr "disparity_time_filtered") ] in
    let transfer_params :=
      update post
        [ ("app", VStr "Transfer");
          ("src_level", VInt level);
          ("src_image_type", VStr "disparity_time_filtered");
          ("dst_level", VInt level);
          ("dst_image_type", VStr "disparity");
          ("force_recompute", VBool true) ] in
    Ret [ (depth_params, frame_chunks self);
          (filter_params, filter_ranges);
          (transfer_params, frame_chunks self) ]
  else Ret [ (depth_params, frame_chunks self) ].

Fixpoint levels_dispatches (self : Pipeline) (post : dict)
    (filter_ranges : list frame_chunk) (end_level : Z) (levels : list Z)
    : result (list dispatch) :=
  match levels with
  | [] => Ret []
  | level :: rest =>
      ds ← level_dispatches self post filter_ranges end_level level;
      ds' ← levels_dispatches self post filter_ranges end_level rest;
      Ret (ds ++ ds')
  end.

(** One copy of the block "optionally batch the coarsest levels, then
    continue the remaining levels normally" (lines 364-432, and again lines
    434-502): its dispatches and the value it leaves in [start_level]. *)
Definition level_pass (self : Pipeline) (post : dict)
    (filter_ranges : list frame_chunk) (start_level end_level : Z)
    : result (list dispatch * Z) :=
  '(batch, start_level) ←
    coarsest_batch_dispatch self post start_level end_level;
  ds ← levels_dispatches self post filter_ranges end_level
          (range_down start_level end_level);
  Ret (batch ++ ds, start_level).

(** The upsample and transfer dispatches that end the stage. *)
Definition final_dispatches (self : Pipeline) (post : dict) (end_level : Z)
    : result (list dispatch) :=
  resolution ← getitem post "resolution" ≫= as_int;
  width ← index WIDTHS end_level;
  disparity_type ← getitem post "disparity_type";
  if width <? resolution then
    let dst_level := if 0 <? end_level then VInt (end_level - 1) else VNone in
    upsample_type ← table_get type_to_upsample_type "disparity";
    let upsample_params :=
      update (base_params self)
        [ ("app", VStr "UpsampleDisparity");
          ("level", VInt end_level);
          ("image_type", disparity_type);
          ("dst_level", dst_level);
          ("dst_image_type", VStr upsample_type) ] in
    chunks ←
      (if eq_str disparity_type "background_disp" then
         from_option Ret (Raise TypeError) (background_frame self)
       else if eq_str disparity_type "disparity" then Ret (frame_chunks self)
       else Raise (Exception "Invalid disparity type"));
    let transfer_params :=
      update post
        [ ("app", VStr "Transfer");
          ("src_level", VNone);
          ("src_image_type", VStr upsample_type);
          ("dst_level", VNone);
          ("dst_image_type", disparity_type) ] in
    Ret [ (upsample_params, chunks); (transfer_params, chunks) ]
  else
    let transfer_params :=
      update post
        [ ("app", VStr "Transfer");
          ("src_level", VInt end_level);
          ("src_image_type", disparity_type);
          ("dst_level", VNone);
          ("dst_image_type", disparity_type) ] in
    Ret [ (transfer_params, frame_chunks self) ].

(** The start of [depth_estimation], before any dispatch: the parameters
    after resizing, the ranges for temporal filtering, [start_level] and
    [end_level]. *)
Definition depth_plan (self : Pipeline)
    : result (dict * list frame_chunk * Z * Z) :=
  post ← post_resize_params_of (base_params self);
  level_start ← getitem post "level_start" ≫= as_int;
  let start_level :=
    if negb (level_start =? -1) then level_start
    else Z.of_nat (length WIDTHS) - 1 in
  level_end ← getitem post "level_end" ≫= as_int;
  end_level ←
    (if negb (level_end =? -1) then Ret (Some level_end)
     else
       resolution ← getitem post "resolution" ≫= as_int;
       Ret (first_level_within resolution 0 WIDTHS));
  filter_ranges ← filter_ranges_of post (frame_chunks self);
  end_level ← from_option Ret (Raise UnboundLocalError) end_level;
  Ret (post, filter_ranges, start_level, end_level).

(** The three parts of one run of [depth_estimation]: the dispatches of the
    first copy of the level block, of the second copy, and of the final
    step, in a run in which every [run_halted_queue] returns. *)
Definition depth_estimation_parts (self : Pipeline)
    : result (list dispatch * list dispatch * list dispatch) :=
  '(post, filter_ranges, start_level, end_level) ← depth_plan self;
  '(pass1, start_level) ←
    level_pass self post filter_ranges start_level end_level;
  '(pass2, start_level) ←
    level_pass self post filter_ranges start_level end_level;
  final ← final_dispatches self post end_level;
  Ret (pass1, pass2, final).

(** The [run_halted_queue] calls of one run of [depth_estimation], in order. *)
Definition depth_estimation (self : Pipeline) : result (list dispatch) :=
  '(pass1, pass2, final) ← depth_estimation_parts self;
  Ret (pass1 ++ pass2 ++ final).

End Pipeline.

(** ** [scripts/render/worker.py] *)

Module Worker.

Import Config Network Pika.

(** [_clean_worker]: the second test also looks at [DOCKER_INPUT_ROOT], which
    is gone once the first branch has removed it. *)
Definition _clean_worker (st : storage) (ran_download ran_upload : bool)
    : io unit :=
  if ran_download && os_path_exists st DOCKER_INPUT_ROOT then
    emit (Rmtree DOCKER_INPUT_ROOT)
  else if ran_upload && os_path_exists st DOCKER_INPUT_ROOT then
    if os_path_exists st DOCKER_OUTPUT_ROOT then emit (Rmtree DOCKER_OUTPUT_ROOT)
    else lift (Raise OSError)
  else mret tt.

Section handle_message.

(** [json.loads(body.decode("utf-8"))] and [json.dumps], whatever they make
    of a body and of a message *)
Variable loads : string → result value.
Variable dumps : value → string.

(** What running the handler registered under a name does with a message:
    it returns or it raises. The handlers read [msg] and write only to their
    own [copy(msg)]. *)
Variable run_callback : string → value → result unit.

(** The keys of [app_name_to_callback], in order. *)
Definition app_names : list string :=
  [ "GenerateForegroundMasks"; "DerpCLI"; "TemporalBilateralFilter";
    "Transfer"; "UpsampleDisparity"; "UpsampleLayer"; "ConvertToBinary";
    "SimpleMeshRenderer"; "Resize" ].

(** [msg["app"]] *)
Definition msg_app (msg : value) : result string :=
  match msg with
  | VDict items => getitem items "app" ≫= as_str
  | _ => Raise TypeError
  end.

(** The [for app_name in app_name_to_callback] loop. *)
Fixpoint run_first_match (names : list string) (msg : value) : result unit :=
  match names with
  | [] => Ret tt
  | app_name :: rest =>
      app ← msg_app msg;
      if startswith app app_name then run_callback app_name msg
      else run_first_match rest msg
  end.

Definition success (is_open : bool) (delivery_tag : Z) : list channel_op :=
  if is_open then
    [ basic_ack delivery_tag;
      queue_declare RESPONSE_QUEUE_NAME;
      basic_publish RESPONSE_QUEUE_NAME "Completed!" false ]
  else [].

Definition failure (is_open : bool) (delivery_tag : Z) (msg : value)
    : list channel_op :=
  if is_open then
    [ basic_reject delivery_tag;
      queue_declare QUEUE_NAME;
      basic_publish QUEUE_NAME (dumps msg) true ]
  else [].

(** [handle_message]: the channel calls of the callback it schedules on the
    connection, where [is_open] is [channel.is_open] when that callback runs.
    Parsing the body happens before the [try]. *)
Definition handle_message (is_open : bool) (delivery_tag : Z) (body : string)
    : result (list channel_op) :=
  msg ← loads body;
  match run_first_match app_names msg with
  | Ret _ => Ret (success is_open delivery_tag)
  | Raise _ => Ret (failure is_open delivery_tag msg)
  end.

End handle_message.

End Worker.

(** * The notions the properties are stated with *)

Module Vocabulary.

Import Config Network Pika Pipeline Worker.

(** ** Frame names *)

(** A zero-padded 6-digit frame name. *)
Definition is_frame_name (s : string) : Prop :=
  String.length s = 6%nat ∧ all_chars is_digit s = true.

Ltac digit_cases d :=
  let H := fresh in
  assert (H : d = 0 ∨ d = 1 ∨ d = 2 ∨ d = 3 ∨ d = 4 ∨ d = 5 ∨ d = 6 ∨ d = 7
              ∨ d = 8 ∨ d = 9) by lia;
  repeat (destruct H as [H | H]); subst d.

(** ** The cache check *)

(** The part of [_get_missing_chunks_level] before its [try]: the destination
    directory, the frame names of the requested range and whether the
    destination holds one file per camera rather than one archive per frame. *)
Definition level_target (params : dict) (level : value)
    (frame_chunks : list frame_chunk) : result (string * list string * bool) :=
  dst_image_type ← getitem params "dst_image_type" ≫= as_str;
  dst_dir ← remote_image_type_path params dst_image_type level;
  chunk0 ← index frame_chunks 0;
  chunkN ← index frame_chunks (-1);
  dst_frames ← get_frame_range (VStr (first chunk0)) (VStr (last chunkN));
  remote ← Address_init dst_dir;
  Ret (dst_dir, dst_frames, negb (is_s3 remote)).

(** The expected file names of the requested range at a level. *)
Definition expected_at (st : storage) (params : dict) (level : value)
    (frame_chunks : list frame_chunk) : result (list string) :=
  '(dst_dir, dst_frames, uncompressed) ← level_target params level frame_chunks;
  get_frame_fns st params dst_frames uncompressed (Some dst_dir).

(** The listing of the destination of a level. *)
Definition listing_at (st : storage) (params : dict) (level : value)
    (frame_chunks : list frame_chunk) : result (gset string) :=
  '(dst_dir, _, _) ← level_target params level frame_chunks;
  listdir st dst_dir.

(** The levels a stage asks for: the elements of [dst_level] when it is a
    list, [dst_level] itself otherwise. *)
Definition requested_levels (dst_level : value) : list value :=
  match as_list dst_level with
  | Some levels => levels
  | None => [dst_level]
  end.

(** *** [_get_missing_chunks] *)

(** The channel calls [run_halted_queue] makes before the cache check. *)
Definition setup_ops : list channel_op :=
  [ queue_declare QUEUE_NAME; queue_declare RESPONSE_QUEUE_NAME;
    queue_declare QUEUE_NAME; queue_purge QUEUE_NAME;
    queue_declare RESPONSE_QUEUE_NAME; queue_purge RESPONSE_QUEUE_NAME ].

Definition is_publish (op : channel_op) : bool :=
  match op with
  | basic_publish _ _ _ => true
  | _ => false
  end.

(** ** The wait loop *)

(** The timeout as a clock difference. *)
Definition timeout : Q := inject_Z NO_WORKER_TIMEOUT.





(** ** The failure path *)

(** The messages among channel calls that were published at the work queue. *)
Definition republished (ops : list channel_op) : list string :=
  omap (λ op, match op with
              | basic_publish key body _ =>
                  if String.eqb key QUEUE_NAME then Some body else None
              | _ => None
              end) ops.

(** ** The depth-estimation stage *)

(** [int(self.base_params.get("coarsest_batch_levels", 0))] *)
Definition coarsest_batch_levels (self : Pipeline) : result Z :=
  int_of (default (VInt 0) (dict_get (base_params self) "coarsest_batch_levels")).

(** ** File names *)

(** A character that is neither a path separator nor a dot. *)
Definition plain_char (c : ascii) : bool :=
  negb (Ascii.eqb c "/") && negb (Ascii.eqb c ".").

(** A name without path separators and dots. *)
Definition plain (s : string) : bool := all_chars plain_char s.

(** An extension as [os.path.splitext] cuts it: empty, or a dot and a plain
    name. *)
Definition plain_ext (e : string) : bool :=
  match e with
  | EmptyString => true
  | String c e' => Ascii.eqb c "." && plain e'
  end.

Definition no_slash (s : string) : bool :=
  all_chars (λ c, negb (Ascii.eqb c "/")) s.

Definition no_dot (s : string) : bool :=
  all_chars (λ c, negb (Ascii.eqb c ".")) s.

(** *** How the files of a frame are named *)

(** The three ways [get_frame_fns] names the files of a frame: one archive,
    one export file with a given extension, or one file per camera directory
    and extension. *)
Inductive naming : Type :=
| Archive
| Export (img_ext : string)
| PerCamera (img_exts cam_dirs : list string).

(** The part of [get_frame_fns] that does not depend on the frames. *)
Definition naming_of (st : storage) (msg : dict) (uncompressed : bool)
    (src : option string) : result naming :=
  if uncompressed then
    app ← getitem msg "app" ≫= as_str;
    if startswith app "SimpleMeshRenderer" then
      img_ext ← getitem msg "file_type" ≫= format;
      Ret (Export img_ext)
    else
      src ← from_option Ret (Raise TypeError) src;
      cam_dirs ← from_option Ret (Raise StopIteration) (os_walk_dirs st src);
      img_exts ←
        (if startswith app "ConvertToBinary" || startswith app "DerpCLI" then
           formats ← getitem msg "output_formats" ≫= as_str;
           Ret ((λ ft, "." +:+ ft) <$> split_char "," formats)
         else
           cam ← from_option Ret (Raise StopIteration) (head cam_dirs);
           sample_file ← get_sample_file st (path_join src cam);
           match sample_file with
           | Some f => Ret [(splitext f).2]
           | None => Raise TypeError
           end);
      Ret (PerCamera img_exts cam_dirs)
  else Ret Archive.

(** The file names of one frame. *)
Definition frame_fns_of (n : naming) (frame : string) : list string :=
  match n with
  | Archive => [frame +:+ ".tar"]
  | Export img_ext => [frame +:+ "." +:+ img_ext]
  | PerCamera img_exts cam_dirs =>
      img_ext ← img_exts;
      cam_dir ← cam_dirs;
      [path_join cam_dir (frame +:+ img_ext)]
  end.

(** Format names are plain words: no dot and no path separator in
    [file_type] and [output_formats]. *)
Definition plain_formats (msg : dict) : bool :=
  match dict_get msg "file_type" with
  | Some v => match format v with Ret s => plain s | Raise _ => true end
  | None => true
  end
  && match dict_get msg "output_formats" with
     | Some (VStr s) => plain s
     | _ => true
     end.

Definition plain_naming (n : naming) : Prop :=
  match n with
  | Archive => True
  | Export img_ext => plain img_ext = true
  | PerCamera img_exts _ => Forall (λ e, plain_ext e = true) img_exts
  end.

(** ** Chunks *)

#[global] Instance frame_chunk_eq_dec : EqDecision frame_chunk.
Proof. solve_decision. Defined.


(** Frame [k] lies in the inclusive range of the chunk. *)
Definition in_range (c : frame_chunk) (k : Z) : Prop :=
  ∃ a b, int (first c) = Ret a ∧ int (last c) = Ret b ∧ a ≤ k ≤ b.

(** The endpoints of the chunk are frame numbers. *)
Definition well_formed (c : frame_chunk) : Prop :=
  ∃ a b, int (first c) = Ret a ∧ int (last c) = Ret b ∧ 0 ≤ a.

(** No frame lies in two chunks of the list. *)
Definition pairwise_disjoint (chunks : list frame_chunk) : Prop :=
  ∀ i j ci cj k,
    i ≠ j → chunks !! i = Some ci → chunks !! j = Some cj →
    in_range ci k → in_range cj k → False.


End Vocabulary.

(** ** Concrete runs *)

Module Scenario.

Import Config Network Pika Pipeline Worker Vocabulary.

Definition chunk (first last : string) : frame_chunk :=
  {| first := first; last := last; filter_span := None |}.

(** Five frames in three chunks. *)
Definition chunks : list frame_chunk :=
  [ chunk "000000" "000001"; chunk "000002" "000003"; chunk "000004" "000004" ].

Definition frames (numbers : list Z) : list string := get_frame_name <$> numbers.

(** The files of some frames for the cameras [cam0] and [cam1]. *)
Definition frame_files (numbers : list Z) : gset string :=
  list_to_set
    (frame ← frames numbers;
     cam ← ["cam0"; "cam1"];
     [cam +:+ "/" +:+ frame +:+ ".pfm"]).

(** A depth-estimation stage writing [pfm] files below [/data/out]. *)
Definition depth_params (force_recompute : bool) (dst_level : value) : dict :=
  [ ("app", VStr "DerpCLI: Level 3");
    ("force_recompute", VBool force_recompute);
    ("dst_level", dst_level);
    ("dst_image_type", VStr "disparity");
    ("input_root", VStr "/data");
    ("output_root", VStr "/data/out");
    ("output_formats", VStr "pfm") ].

(** A local destination with two camera directories; [present] gives the
    listing of each directory. *)
Definition local_store (present : string → gset string) : storage :=
  {| os_walk_dirs := λ _, Some ["cam0"; "cam1"];
     get_sample_file := λ _, Ret (Some "cam0/000000.pfm");
     listdir := λ dir, Ret (present dir);
     run_command_ok := λ _, true;
     tarfile_ok := λ _, true;
     os_path_exists := λ _, true |}.

(** A destination that does not exist: [os.walk] yields nothing. *)
Definition absent_store : storage :=
  {| os_walk_dirs := λ _, None;
     get_sample_file := λ _, Ret None;
     listdir := λ _, Ret ∅;
     run_command_ok := λ _, true;
     tarfile_ok := λ _, true;
     os_path_exists := λ _, false |}.

Definition level_3 : string := "/data/out/disparity_levels/level_3".
Definition level_2 : string := "/data/out/disparity_levels/level_2".

(** Level 3 is complete, level 2 lacks frame 2. *)
Definition two_levels (dir : string) : gset string :=
  if String.eqb dir level_2 then frame_files [0; 1; 3; 4]
  else frame_files [0; 1; 2; 3; 4].

(** A worker of the object store. *)
Definition s3_params : dict :=
  [ ("app", VStr "Transfer");
    ("input_root", VStr "s3://bucket/in");
    ("output_root", VStr "s3://bucket/out");
    ("first", VStr "000000");
    ("last", VStr "000001") ].

(** A handler table in which the binary behind [Transfer] fails. *)
Definition failing_transfer (app_name : string) (msg : value) : result unit :=
  if String.eqb app_name "Transfer" then Raise CommandFailed else Ret tt.

Definition transfer_msg : value := VDict s3_params.



(** Samples of the response queue and of the consumers of the work queue,
    both clock readings of the iteration at [second]. *)
Definition sample (done consumers : Z) (second : Z) : tick :=
  {| message_count := done;
     consumer_count := consumers;
     time_started := inject_Z second;
     time_checked := inject_Z second |}.

(** One sample with a worker consuming, before the workers go away. *)
Definition busy_then : list tick := [sample 0 1 99].

(** One completion out of three, no consumer, a sample a minute. *)
Definition idle_run : list tick := sample 1 0 <$> [100; 160; 220; 280; 340].

(** A run of the depth stage over levels 5 to 0 with temporal filtering. *)
Definition depth_base (extra : dict) : dict :=
  [ ("disparity_type", VStr "disparity");
    ("input_root", VStr "/data");
    ("output_root", VStr "/data/out");
    ("level_start", VInt 5);
    ("level_end", VInt 0);
    ("resolution", VInt 2048);
    ("first", VStr "000000");
    ("last", VStr "000004");
    ("time_radius", VInt 1);
    ("do_temporal_filter", VBool true);
    ("do_temporal_masking", VBool false);
    ("force_recompute", VBool false) ] ++ extra.

Definition pipeline_of (base : dict) : Pipeline :=
  {| base_params := base;
     frame_chunks := chunks;
     background_frame := None;
     master_ip := "127.0.0.1";
     force_recompute := false |}.

Definition plain_pipeline : Pipeline := pipeline_of (depth_base []).


(** The [app] of each dispatch. *)
Definition job_names (ds : list dispatch) : list string :=
  omap (λ d : dispatch,
          match dict_get d.1 "app" with
          | Some (VStr name) => Some name
          | _ => None
          end) ds.

End Scenario.

(** ** [scripts/render/render.py] *)

Module Render.

Import Config Network Pika Pipeline.

(** [range(start, stop, step)] *)
Definition range (start stop step : Z) : result (list Z) :=
  if step =? 0 then Raise ValueError
  else
    let count :=
      if 0 <? step then (stop - start + step - 1) / step
      else (start - stop - step - 1) / (- step) in
    Ret ((λ i, start + i * step) <$> seqZ 0 count).

(** The comprehension of [main] that cuts the run into chunks, over the
    frames [range] gave it:
    [{"first": get_frame_name(frame),
      "last": get_frame_name(min(int(FLAGS.last), frame + FLAGS.chunk_size - 1))}] *)
Fixpoint chunks_from (flag_last : string) (chunk_size : Z) (frames : list Z)
    : result (list frame_chunk) :=
  match frames with
  | [] => Ret []
  | frame :: rest =>
      run_last ← int flag_last;
      let c := {| first := get_frame_name frame;
                  last := get_frame_name (Z.min run_last (frame + chunk_size - 1));
                  filter_span := None |} in
      cs ← chunks_from flag_last chunk_size rest;
      Ret (c :: cs)
  end.

(** [frame_chunks] of [main], from [FLAGS.first], [FLAGS.last] and
    [FLAGS.chunk_size]. *)
Definition frame_chunks_of (flag_first flag_last : string) (chunk_size : Z)
    : result (list frame_chunk) :=
  run_first ← int flag_first;
  run_last ← int flag_last;
  frames ← range run_first (run_last + 1) chunk_size;
  chunks_from flag_last chunk_size frames.

End Render.

(** ** [fusion] of [scripts/render/pipeline.py] *)

Module Stages.

Import Config Network Pika Pipeline.

(** [fusion]: the call it makes, one chunk from the first frame of the first
    chunk to the last frame of the last. *)
Definition fusion (self : Pipeline) : result dispatch :=
  let fusion_params :=
    update (base_params self)
      [ ("app", VStr "ConvertToBinary: Striping");
        ("run_conversion", VBool false);
        ("dst_level", VNone);
        ("dst_image_type", VStr "fused") ] in
  chunk0 ← index (frame_chunks self) 0;
  chunkN ← index (frame_chunks self) (-1);
  Ret (fusion_params,
       [ {| first := first chunk0; last := last chunkN; filter_span := None |} ]).

End Stages.

(** ** [listdir] of [scripts/render/network.py] *)

Module Listing.

Import Config Network.

Definition newline : ascii := ascii_of_N 10.

(** [raw_line.split(" ")[-1]] *)
Definition last_word (raw_line : string) : string :=
  default "" (list.last (split_char " " raw_line)).

(** The command of the object-store branch. *)
Definition listdir_cmd (src : string) (recursive : bool) : string :=
  let src := if negb (endswith_slash src) then src +:+ "/" else src in
  let cmd := "aws s3 ls " +:+ src in
  if recursive then cmd +:+ "--recursive" else cmd.

Section listdir.

(** [run_command(cmd, run_silently)]: what the command printed, or the
    exception of a failed command *)
Variable run_command : string → result string.

(** what [os.walk] and [os.listdir] give the local branch *)
Variable local_listing : string → bool → result (gset string).

Definition listdir (src : string) (recursive : bool) : result (gset string) :=
  remote ← Address_init src;
  if is_s3 remote then
    match run_command (listdir_cmd src recursive) with
    | Raise _ => Ret ∅
    | Ret raw_output =>
        let raw_lines := split_char newline raw_output in
        let files : gset string := list_to_set (last_word <$> raw_lines) in
        Ret (filter (λ f, f ≠ "") files)
    end
  else local_listing src recursive.

End listdir.

End Listing.

(** ** More notions the properties are stated with *)

Module Notions.

Import Config Network Pika Pipeline Worker Vocabulary.
Import Listing.

(** *** Handlers *)

(** No handler name starts with another one. *)
Definition prefix_free (names : list string) : bool :=
  forallb (λ n1, forallb (λ n2, implb (startswith n1 n2) (String.eqb n1 n2)) names)
    names.

(** The jobs the four handlers of the depth stage are for. *)
Definition depth_handlers : list string :=
  ["DerpCLI"; "TemporalBilateralFilter"; "Transfer"; "UpsampleDisparity"].

Definition handled (d : dispatch) : Prop :=
  ∃ app name,
    dict_get d.1 "app" = Some (VStr app)
    ∧ name ∈ depth_handlers
    ∧ startswith app name = true.

(** *** Chunks of a run *)

(** The chunk that starts at frame [a + i * size] of a run ending at [b]. *)
Definition nth_chunk (a b size i : Z) : frame_chunk :=
  {| first := get_frame_name (a + i * size);
     last := get_frame_name (Z.min b (a + i * size + size - 1));
     filter_span := None |}.

(** *** Listings *)

Definition visible (c : ascii) : bool :=
  negb (Ascii.eqb c " ") && negb (Ascii.eqb c newline).

(** *** File names and transfers *)

(** A file name: no path separator and no colon. *)
Definition file_name (fn : string) : bool :=
  all_chars (λ c, negb (Ascii.eqb c "/") && negb (Ascii.eqb c ":")) fn.

(** What [os.path.join] appends to a directory for a file name. *)
Definition joined (a fn : string) : string :=
  if String.eqb a "" || endswith_slash a then fn else "/" +:+ fn.

End Notions.

(** ** More concrete runs *)

Module Cases.

Import Config Network Pika Pipeline Worker Vocabulary Scenario Render Stages
  Notions.

(** The chunks of the scenario and one whose [last] precedes its [first]. *)
Definition chunks_with_reversed : list frame_chunk :=
  chunks ++ [chunk "000009" "000007"].

(** A stage whose destination image type has no directory. *)
Definition unknown_type_params : dict :=
  setitem (depth_params false (VInt 3)) "dst_image_type" (VStr "nonsense").

(** A depth stage that chooses its levels itself, for 300 pixels. *)
Definition auto_pipeline : Pipeline :=
  pipeline_of
    (setitem (setitem (setitem (depth_base []) "level_start" (VInt (-1)))
                "level_end" (VInt (-1)))
       "resolution" (VInt 300)).

(** A message for an application the worker has no handler for. *)
Definition unknown_msg : value := VDict [("app", VStr "Calibration")].

(** A message without [app]. *)
Definition anonymous_msg : value := VDict [("first", VStr "000000")].

(** What [aws s3 ls] prints for two archives: date, time, size and name on
    each line. *)
Definition ls_output : string :=
  "2020-01-01 10:00:00 1024 000000.tar"
  +:+ String Listing.newline "2020-01-01 10:00:01 2048 000001.tar".

Definition listing_ok (cmd : string) : result string := Ret ls_output.

Definition listing_fails (cmd : string) : result string := Raise CommandFailed.

Definition no_local_listing (src : string) (recursive : bool)
    : result (gset string) := Raise OSError.

(** A depth stage writing to the object store. *)
Definition s3_depth_params : dict :=
  setitem (depth_params false (VInt 3)) "output_root" (VStr "s3://bucket/out").

(** The object store while its listing command fails. *)
Definition s3_store_down : storage :=
  {| os_walk_dirs := λ _, None;
     get_sample_file := λ _, Ret None;
     listdir := λ src, Listing.listdir listing_fails no_local_listing src true;
     run_command_ok := λ _, true;
     tarfile_ok := λ _, true;
     os_path_exists := λ _, false |}.

Definition s3_level_3 : string := "s3://bucket/out/disparity_levels/level_3".

Definition s3_color : string := "s3://bucket/in/video/color".

Definition local_color : string := "/app/facebook360_dep/project/video/color".

End Cases.

(** * Properties *)

(** ** Frame names and frame ranges *)

Module FrameNames.

Import Config Network Pika Pipeline Worker Vocabulary.

Lemma append_cons c s t : String c s +:+ t = String c (s +:+ t).
Proof. reflexivity. Qed.

Lemma digit_of_Z_is_digit d : 0 ≤ d < 10 → is_digit (digit_of_Z d) = true.
Proof. intros Hd. digit_cases d; reflexivity. Qed.

Lemma digit_val_of_Z d : 0 ≤ d < 10 → digit_val (digit_of_Z d) = d.
Proof. intros Hd. digit_cases d; reflexivity. Qed.

Lemma is_digit_range c :
  is_digit c = true ↔ (48 ≤ N_of_ascii c ≤ 57)%N.
Proof.
  unfold is_digit. rewrite andb_true_iff, !N.leb_le. tauto.
Qed.

Lemma is_digit_not_space c : is_digit c = true → is_space c = false.
Proof.
  rewrite is_digit_range. intros H. unfold is_space.
  apply orb_false_iff. split; apply andb_false_iff.
  - right. apply N.leb_gt. lia.
  - right. apply N.leb_gt. lia.
Qed.

Lemma is_digit_neq c c' : is_digit c = true → is_digit c' = false → Ascii.eqb c c' = false.
Proof.
  intros H H'. destruct (Ascii.eqb c c') eqn:E; [|done].
  apply Ascii.eqb_eq in E. congruence.
Qed.

(** *** [str] of a non-negative number *)

Lemma str_digits_all_digits fuel n acc :
  0 ≤ n → all_chars is_digit acc = true →
  all_chars is_digit (str_digits fuel n acc) = true.
Proof.
  revert n acc. induction fuel as [|fuel IH]; intros n acc Hn Hacc; simpl.
  - rewrite digit_of_Z_is_digit by (apply Z.mod_pos_bound; lia). done.
  - destruct (n <? 10) eqn:E.
    + simpl. rewrite digit_of_Z_is_digit by (apply Z.mod_pos_bound; lia). done.
    + apply IH.
      * apply Z.div_pos; lia.
      * simpl. rewrite digit_of_Z_is_digit by (apply Z.mod_pos_bound; lia). done.
Qed.

Lemma str_digits_length fuel n acc k :
  0 ≤ n < 10 ^ Z.of_nat k → (1 ≤ k)%nat →
  (String.length acc < String.length (str_digits fuel n acc)
   ≤ k + String.length acc)%nat.
Proof.
  revert n acc k. induction fuel as [|fuel IH]; intros n acc k Hn Hk; simpl.
  - lia.
  - destruct (n <? 10) eqn:E; simpl; [lia|].
    apply Z.ltb_ge in E.
    destruct k as [|[|k]]; [lia| simpl in Hn; lia |].
    specialize (IH (n / 10) (String (digit_of_Z (n mod 10)) acc) (S k)).
    simpl in IH.
    assert (0 ≤ n / 10 < 10 ^ Z.of_nat (S k)).
    { split; [apply Z.div_pos; lia|].
      apply Z.div_lt_upper_bound; [lia|].
      replace (Z.of_nat (S (S k))) with (Z.succ (Z.of_nat (S k))) in Hn by lia.
      rewrite Z.pow_succ_r in Hn by lia. lia. }
    specialize (IH H ltac:(lia)). lia.
Qed.

Lemma int_digits_str_digits fuel n rest b :
  0 ≤ n < 10 ^ (Z.of_nat fuel + 1) →
  int_digits (str_digits fuel n rest) 0 b = int_digits rest n true.
Proof.
  revert n rest b. induction fuel as [|fuel IH]; intros n rest b Hn.
  - simpl in *. rewrite digit_of_Z_is_digit by (apply Z.mod_pos_bound; lia).
    rewrite digit_val_of_Z by (apply Z.mod_pos_bound; lia).
    rewrite Z.mod_small by lia. done.
  - cbn [str_digits]. destruct (n <? 10) eqn:E.
    + apply Z.ltb_lt in E. simpl.
      rewrite digit_of_Z_is_digit by (apply Z.mod_pos_bound; lia).
      rewrite digit_val_of_Z by (apply Z.mod_pos_bound; lia).
      rewrite Z.mod_small by lia. done.
    + apply Z.ltb_ge in E. rewrite IH.
      * simpl. rewrite digit_of_Z_is_digit by (apply Z.mod_pos_bound; lia).
        rewrite digit_val_of_Z by (apply Z.mod_pos_bound; lia).
        f_equal. pose proof (Z.div_mod n 10). lia.
      * split; [apply Z.div_pos; lia|].
        apply Z.div_lt_upper_bound; [lia|].
        replace (Z.of_nat (S fuel) + 1) with (Z.succ (Z.of_nat fuel + 1)) in Hn by lia.
        rewrite Z.pow_succ_r in Hn by lia. lia.
Qed.

Lemma log2_fuel n : 0 ≤ n → 0 ≤ n < 10 ^ (Z.of_nat (Z.to_nat (Z.log2 n)) + 1).
Proof.
  intros Hn. split; [done|].
  rewrite Z2Nat.id by apply Z.log2_nonneg.
  destruct (decide (n = 0)) as [->|Hne]; [done|].
  pose proof (Z.log2_spec n ltac:(lia)) as [_ Hlt].
  eapply Z.lt_le_trans; [exact Hlt|].
  replace (Z.succ (Z.log2 n)) with (Z.log2 n + 1) by lia.
  apply Z.pow_le_mono_l. pose proof (Z.log2_nonneg n). lia.
Qed.

Lemma str_nonneg n : 0 ≤ n → str n = str_digits (Z.to_nat (Z.log2 n)) n "".
Proof. intros Hn. unfold str. destruct (n <? 0) eqn:E; [lia|done]. Qed.

Lemma int_digits_pad k s b :
  int_digits (pad (S k) "0" s) 0 b = int_digits s 0 true.
Proof. induction k as [|k IH]; [done|]. exact IH. Qed.

Lemma pad_length k c s : String.length (pad k c s) = (k + String.length s)%nat.
Proof. induction k as [|k IH]; simpl; [done|]. by rewrite IH. Qed.

Lemma pad_all_digits k s :
  all_chars is_digit s = true → all_chars is_digit (pad k "0" s) = true.
Proof. intros Hs. induction k as [|k IH]; simpl; [done|]. exact IH. Qed.

Lemma lstrip_digits s : all_chars is_digit s = true → lstrip s = s.
Proof.
  destruct s as [|c s]; [done|]. simpl. intros [Hc _]%andb_true_iff.
  by rewrite is_digit_not_space.
Qed.

Lemma rstrip_digits s : all_chars is_digit s = true → rstrip s = s.
Proof.
  induction s as [|c s IH]; [done|]. simpl. intros [Hc Hs]%andb_true_iff.
  rewrite IH by done. destruct s; [|done].
  by rewrite is_digit_not_space.
Qed.

(** [int] of a non-empty run of digits is the number they spell. *)
Lemma int_digits_only s :
  all_chars is_digit s = true →
  int s = from_option Ret (Raise ValueError) (int_digits s 0 false).
Proof.
  intros Hs. unfold int. rewrite lstrip_digits, rstrip_digits by done.
  destruct s as [|c s]; [done|].
  simpl in Hs. apply andb_true_iff in Hs as [Hc Hs].
  rewrite !(is_digit_neq c) by done.
  by destruct (int_digits (String c s) 0 false).
Qed.

Lemma get_frame_name_digits n :
  0 ≤ n → all_chars is_digit (get_frame_name n) = true.
Proof.
  intros Hn. unfold get_frame_name, rjust. apply pad_all_digits.
  rewrite str_nonneg by done. by apply str_digits_all_digits.
Qed.

Lemma get_frame_name_length n :
  0 ≤ n < 1000000 → String.length (get_frame_name n) = 6%nat.
Proof.
  intros Hn. unfold get_frame_name, rjust. rewrite pad_length.
  rewrite str_nonneg by lia.
  pose proof (str_digits_length (Z.to_nat (Z.log2 n)) n "" 6 ltac:(simpl; lia)
                ltac:(lia)) as H.
  simpl in H. lia.
Qed.

(** Beyond six digits nothing is padded: the name is [str] itself. *)
Lemma get_frame_name_long n :
  (6 ≤ String.length (str n))%nat → get_frame_name n = str n.
Proof.
  intros H. unfold get_frame_name, rjust.
  by replace (6 - String.length (str n))%nat with 0%nat by lia.
Qed.

Lemma int_get_frame_name n : 0 ≤ n → int (get_frame_name n) = Ret n.
Proof.
  intros Hn. rewrite int_digits_only by by apply get_frame_name_digits.
  unfold get_frame_name, rjust. rewrite str_nonneg by done.
  destruct (6 - _)%nat as [|k].
  - simpl pad. by rewrite int_digits_str_digits by by apply log2_fuel.
  - rewrite int_digits_pad. by rewrite int_digits_str_digits by by apply log2_fuel.
Qed.

Lemma get_frame_name_inj n m :
  0 ≤ n → 0 ≤ m → get_frame_name n = get_frame_name m → n = m.
Proof.
  intros Hn Hm E. apply (f_equal int) in E.
  rewrite !int_get_frame_name in E by done. congruence.
Qed.

Lemma get_frame_name_is_frame_name n :
  0 ≤ n < 1000000 → is_frame_name (get_frame_name n).
Proof.
  intros Hn. split; [by apply get_frame_name_length|].
  apply get_frame_name_digits. lia.
Qed.

(** C7. For every chunk with [first ≤ last] (both six-digit frame
    identifiers, so frame numbers from 0 to 999999), [get_frame_range(first,
    last)] returns exactly [last - first + 1] consecutive frame names, both
    endpoints included, each the zero-padded six-digit name that
    [get_frame_name] produces for its frame number. *)
Theorem get_frame_range_names (first last : string) (a b : Z) :
  int first = Ret a → int last = Ret b →
  0 ≤ a → a ≤ b → b < 1000000 →
  ∃ names,
    get_frame_range (VStr first) (VStr last) = Ret names
    ∧ Z.of_nat (length names) = b - a + 1
    ∧ (∀ i, 0 ≤ i ≤ b - a →
         names !! Z.to_nat i = Some (get_frame_name (a + i)))
    ∧ (∀ name, name ∈ names →
         is_frame_name name ∧ ∃ k, a ≤ k ≤ b ∧ int name = Ret k).
Proof.
  intros Ha Hb H0 Hab Hmax.
  exists (get_frame_name <$> seqZ a (b + 1 - a)).
  split; [|split; [|split]].
  - unfold get_frame_range. simpl. by rewrite Ha, Hb.
  - rewrite length_fmap, length_seqZ. lia.
  - intros i Hi. rewrite list_lookup_fmap, lookup_seqZ_lt by lia.
    simpl. do 2 f_equal. lia.
  - intros name [k [-> Hk]]%list_elem_of_fmap.
    apply elem_of_seqZ in Hk. split.
    + apply get_frame_name_is_frame_name. lia.
    + exists k. split; [lia|]. apply int_get_frame_name. lia.
Qed.

Lemma get_frame_range_names_witness :
  ∃ names,
    get_frame_range (VStr "000003") (VStr "000006") = Ret names
    ∧ Z.of_nat (length names) = 6 - 3 + 1
    ∧ (∀ i, 0 ≤ i ≤ 6 - 3 →
         names !! Z.to_nat i = Some (get_frame_name (3 + i)))
    ∧ (∀ name, name ∈ names →
         is_frame_name name ∧ ∃ k, 3 ≤ k ≤ 6 ∧ int name = Ret k).
Proof.
  apply (get_frame_range_names "000003" "000006" 3 6);
    [reflexivity | reflexivity | lia | lia | lia].
Defined.

End FrameNames.

(** ** The cache check of a stage *)

Module CacheChecker.

Import Config Network Pika Pipeline Worker Vocabulary FrameNames.

Lemma level_check_unfold st params level chunks :
  _get_missing_chunks_level st params level chunks
  = '(dst_dir, dst_frames, uncompressed) ← level_target params level chunks;
    try_except
      (expected ← get_frame_fns st params dst_frames uncompressed (Some dst_dir);
       actual ← listdir st dst_dir;
       Ret (Some (frame_of_fn <$> elements (list_to_set expected ∖ actual))))
      (λ _, Ret None).
Proof.
  unfold level_target, _get_missing_chunks_level.
  destruct (getitem params "dst_image_type" ≫= as_str) as [t|]; simpl; [|done].
  destruct (remote_image_type_path params t level) as [d|]; simpl; [|done].
  destruct (index chunks 0) as [c0|]; simpl; [|done].
  destruct (index chunks (-1)) as [cN|]; simpl; [|done].
  destruct (get_frame_range _ _) as [fr|]; simpl; [|done].
  destruct (Address_init d) as [r|]; simpl; done.
Qed.

Lemma level_check_raise st params level chunks e :
  level_target params level chunks = Raise e →
  _get_missing_chunks_level st params level chunks = Raise e.
Proof. intros H. by rewrite level_check_unfold, H. Qed.

Lemma level_check_some st params level chunks expected actual :
  expected_at st params level chunks = Ret expected →
  listing_at st params level chunks = Ret actual →
  _get_missing_chunks_level st params level chunks
  = Ret (Some (frame_of_fn <$> elements (list_to_set expected ∖ actual))).
Proof.
  unfold expected_at, listing_at. rewrite level_check_unfold.
  destruct (level_target params level chunks) as [[[d fr] u]|]; simpl; [|done].
  by intros -> ->.
Qed.

Lemma level_check_none st params level chunks target :
  level_target params level chunks = Ret target →
  returns (expected_at st params level chunks) = false
  ∨ returns (listing_at st params level chunks) = false →
  _get_missing_chunks_level st params level chunks = Ret None.
Proof.
  unfold expected_at, listing_at. rewrite level_check_unfold.
  intros ->. destruct target as [[d fr] u]. simpl.
  destruct (get_frame_fns _ _ _ _ _); simpl; [|done].
  destruct (listdir _ _); simpl; [|done].
  by intros [|].
Qed.

(** A level's check returns a list exactly when the names could be built and
    the destination listed. *)
Lemma level_check_inv st params level chunks missing :
  _get_missing_chunks_level st params level chunks = Ret (Some missing) →
  ∃ expected actual,
    expected_at st params level chunks = Ret expected
    ∧ listing_at st params level chunks = Ret actual
    ∧ missing = frame_of_fn <$> elements (list_to_set expected ∖ actual).
Proof.
  unfold expected_at, listing_at. rewrite level_check_unfold.
  destruct (level_target params level chunks) as [[[d fr] u]|]; simpl; [|done].
  destruct (get_frame_fns _ _ _ _ _) as [expected|]; simpl; [|done].
  destruct (listdir _ _) as [actual|]; simpl; [|done].
  intros [= <-]. by exists expected, actual.
Qed.

(** *** The loop over the requested levels *)

Lemma missing_frames_of_levels_some st params chunks levels acc :
  (∀ lvl, lvl ∈ levels →
     ∃ ms, _get_missing_chunks_level st params lvl chunks = Ret (Some ms)) →
  ∃ mf,
    missing_frames_of_levels st params levels chunks acc = Ret (Some mf)
    ∧ ∀ frame,
        frame ∈ mf ↔
        frame ∈ acc
        ∨ ∃ lvl ms,
            lvl ∈ levels
            ∧ _get_missing_chunks_level st params lvl chunks = Ret (Some ms)
            ∧ frame ∈ ms.
Proof.
  revert acc. induction levels as [|lvl levels IH]; intros acc Hall; simpl.
  - exists acc. split; [done|]. intros frame. split; [by left|].
    intros [?|(? & ? & []%elem_of_nil & _)]; done.
  - destruct (Hall lvl) as [ms Hms]; [by left|]. rewrite Hms. simpl.
    destruct (IH (acc ∪ list_to_set ms)) as (mf & Hmf & Hiff).
    { intros lvl' Hin. apply Hall. by right. }
    exists mf. split; [done|]. intros frame. rewrite Hiff.
    rewrite elem_of_union, elem_of_list_to_set. split.
    + intros [[?|?]|(lvl' & ms' & ? & ? & ?)].
      * by left.
      * right. exists lvl, ms. split; [by left|done].
      * right. exists lvl', ms'. split; [by right|done].
    + intros [?|(lvl' & ms' & [->|?]%elem_of_cons & Hc & ?)].
      * by left; left.
      * left; right. rewrite Hms in Hc. by injection Hc as ->.
      * right. by exists lvl', ms'.
Qed.

Lemma missing_frames_of_levels_none st params chunks levels acc i lvl :
  levels !! i = Some lvl →
  _get_missing_chunks_level st params lvl chunks = Ret None →
  (∀ j lvl', (j < i)%nat → levels !! j = Some lvl' →
     returns (_get_missing_chunks_level st params lvl' chunks) = true) →
  missing_frames_of_levels st params levels chunks acc = Ret None.
Proof.
  revert acc i. induction levels as [|l levels IH]; intros acc i Hi Hnone Hbefore.
  - done.
  - destruct i as [|i]; simpl in *.
    + injection Hi as ->. by rewrite Hnone.
    + pose proof (Hbefore 0%nat l ltac:(lia) eq_refl) as H0.
      destruct (_get_missing_chunks_level st params l chunks) as [[ms|]|];
        simpl in *; [|done..].
      apply (IH _ i); [done..|].
      intros j lvl' Hj Hl. apply (Hbefore (S j)); [lia|done].
Qed.

(** *** The final loop over the chunks *)

Lemma has_missing_frame_spec mf c a b :
  int (first c) = Ret a → int (last c) = Ret b →
  ∃ r, has_missing_frame mf c = Ret r
       ∧ (r = true ↔ ∃ k, a ≤ k ≤ b ∧ get_frame_name k ∈ mf).
Proof.
  intros Ha Hb. unfold has_missing_frame, chunk_frames, get_frame_range. simpl.
  rewrite Ha, Hb. simpl. eexists. split; [done|].
  rewrite existsb_exists. split.
  - intros (frame & Hin & Hmem). apply list_elem_of_In in Hin.
    apply list_elem_of_fmap in Hin as (k & -> & Hk). apply elem_of_seqZ in Hk.
    apply bool_decide_eq_true in Hmem. exists k. split; [lia|done].
  - intros (k & Hk & Hmem). exists (get_frame_name k). split.
    + apply list_elem_of_In, list_elem_of_fmap. exists k. split; [done|].
      apply elem_of_seqZ. lia.
    + by apply bool_decide_eq_true.
Qed.

Lemma missing_frame_chunks_spec mf chunks :
  (∀ c, c ∈ chunks → ∃ a b, int (first c) = Ret a ∧ int (last c) = Ret b) →
  ∃ result,
    missing_frame_chunks mf chunks = Ret result
    ∧ ∀ c, c ∈ result ↔
        c ∈ chunks
        ∧ ∃ a b k, int (first c) = Ret a ∧ int (last c) = Ret b
                   ∧ a ≤ k ≤ b ∧ get_frame_name k ∈ mf.
Proof.
  induction chunks as [|c0 chunks IH]; intros Hwf; simpl.
  - exists []. split; [done|]. intros c. split; [by intros ?%elem_of_nil|].
    by intros [?%elem_of_nil _].
  - destruct (Hwf c0) as (a & b & Ha & Hb); [by left|].
    destruct (has_missing_frame_spec mf c0 a b Ha Hb) as (r & -> & Hr). simpl.
    destruct IH as (result & -> & Hres).
    { intros c Hc. apply Hwf. by right. }
    simpl. eexists. split; [done|]. intros c.
    destruct r.
    + rewrite !elem_of_cons, Hres. split.
      * intros [->|[? ?]]; [|by auto].
        split; [by left|]. destruct Hr as [Hr _].
        destruct (Hr eq_refl) as (k & ? & ?). by exists a, b, k.
      * intros [[->|?] ?]; [by left|by right].
    + rewrite elem_of_cons, Hres. split.
      { intros [Hin Hex]. split; [by right|done]. }
      intros [[->|Hin] Hex]; [exfalso|done].
      destruct Hex as (a' & b' & k & Ha' & Hb' & Hk & Hmem).
      rewrite Ha in Ha'. rewrite Hb in Hb'.
      injection Ha' as <-. injection Hb' as <-.
      destruct Hr as [_ Hr]. discriminate Hr. by exists k.
Qed.


Lemma missing_frames_of_levels_eq st params chunks dl :
  getitem params "dst_level" = Ret dl →
  missing_frames_of st params chunks
  = match as_list dl with
    | Some levels => missing_frames_of_levels st params levels chunks ∅
    | None =>
        option_map (list_to_set (C := gset string))
          <$> _get_missing_chunks_level st params dl chunks
    end.
Proof.
  intros Hdl. unfold missing_frames_of. rewrite Hdl. simpl.
  destruct (as_list dl); [done|].
  by destruct (_get_missing_chunks_level st params dl chunks).
Qed.

(** C5. For a stage whose [dst_level] is a list of levels, the missing-frame
    set of the cache check is the union over the requested levels of each
    level's missing frames: a frame is in it exactly when some requested level
    reports it missing, whatever the other levels report. *)
Theorem missing_frames_union_of_levels st params chunks levels :
  getitem params "dst_level" = Ret (VList levels) →
  (∀ lvl, lvl ∈ levels →
     ∃ ms, _get_missing_chunks_level st params lvl chunks = Ret (Some ms)) →
  ∃ missing_frames,
    missing_frames_of st params chunks = Ret (Some missing_frames)
    ∧ ∀ frame,
        frame ∈ missing_frames ↔
        ∃ lvl ms,
          lvl ∈ levels
          ∧ _get_missing_chunks_level st params lvl chunks = Ret (Some ms)
          ∧ frame ∈ ms.
Proof.
  intros Hdl Hall. rewrite (missing_frames_of_levels_eq _ _ _ _ Hdl). simpl.
  destruct (missing_frames_of_levels_some st params chunks levels ∅ Hall)
    as (mf & Hmf & Hiff).
  exists mf. split; [done|]. intros frame. rewrite Hiff. split; [|by right].
  by intros [?%not_elem_of_empty|?].
Qed.

(** C6. Once the missing-frame set is computed, a chunk is in the returned
    list exactly when it is one of the given chunks and at least one frame of
    its inclusive range [first..last] is in the set: chunks are returned
    whole. *)
Theorem missing_chunks_iff_missing_frame st params chunks fr missing_frames :
  getitem params "force_recompute" = Ret fr → truthy fr = false →
  is_Some (dict_get params "app") →
  missing_frames_of st params chunks = Ret (Some missing_frames) →
  (∀ c, c ∈ chunks → ∃ a b, int (first c) = Ret a ∧ int (last c) = Ret b) →
  ∃ result,
    _get_missing_chunks st params chunks = Ret result
    ∧ ∀ c, c ∈ result ↔
        c ∈ chunks
        ∧ ∃ a b k, int (first c) = Ret a ∧ int (last c) = Ret b
                   ∧ a ≤ k ≤ b ∧ get_frame_name k ∈ missing_frames.
Proof.
  intros Hfr Hfalse [app Happ] Hmf Hwf.
  unfold _get_missing_chunks. rewrite Hfr. simpl. rewrite Hfalse.
  unfold getitem at 1. rewrite Happ. simpl. rewrite Hmf. simpl.
  case_bool_decide as Hsize.
  - exists []. split; [done|]. intros c. split; [by intros ?%elem_of_nil|].
    intros (_ & a & b & k & _ & _ & _ & Hin).
    apply size_empty_inv in Hsize. apply Hsize in Hin. by apply elem_of_empty in Hin.
  - by apply missing_frame_chunks_spec.
Qed.

(** C4. When building the expected names or listing the destination raises
    at a requested level, the whole requested chunk list is reported missing. *)
Theorem listing_failure_reports_all_chunks st params chunks fr dl i lvl target :
  getitem params "force_recompute" = Ret fr →
  is_Some (dict_get params "app") →
  getitem params "dst_level" = Ret dl →
  requested_levels dl !! i = Some lvl →
  (∀ j lvl', (j < i)%nat → requested_levels dl !! j = Some lvl' →
     returns (_get_missing_chunks_level st params lvl' chunks) = true) →
  level_target params lvl chunks = Ret target →
  returns (expected_at st params lvl chunks) = false
  ∨ returns (listing_at st params lvl chunks) = false →
  _get_missing_chunks st params chunks = Ret chunks.
Proof.
  intros Hfr [app Happ] Hdl Hi Hbefore Htarget Hfail.
  pose proof (level_check_none st params lvl chunks target Htarget Hfail) as Hnone.
  unfold _get_missing_chunks. rewrite Hfr. simpl.
  destruct (truthy fr); [done|].
  unfold getitem at 1. rewrite Happ. simpl.
  rewrite (missing_frames_of_levels_eq _ _ _ _ Hdl).
  unfold requested_levels in *.
  destruct (as_list dl) as [levels|].
  - by rewrite (missing_frames_of_levels_none st params chunks levels ∅ i lvl).
  - destruct i as [|i]; [|done]. injection Hi as ->. by rewrite Hnone.
Qed.

Lemma complete_level_nothing_missing st params lvl chunks expected actual :
  expected_at st params lvl chunks = Ret expected →
  listing_at st params lvl chunks = Ret actual →
  (∀ fn, fn ∈ expected → fn ∈ actual) →
  _get_missing_chunks_level st params lvl chunks = Ret (Some []).
Proof.
  intros He Ha Hsub. rewrite (level_check_some _ _ _ _ _ _ He Ha).
  replace (list_to_set expected ∖ actual) with (∅ : gset string); [done|].
  symmetry. apply elem_of_equiv_empty_L. intros fn.
  rewrite elem_of_difference, elem_of_list_to_set. intros [? ?]. auto.
Qed.

(** C3. With [force_recompute] false and a destination whose listing holds
    every expected file name of the requested range at every requested
    level, the missing-chunk computation returns the empty list and
    [run_halted_queue] returns at once: it publishes nothing and its wait
    loop runs no iteration, whatever the broker would have answered. *)
Theorem complete_destination_dispatches_nothing json_dumps st initial_count
    ticks params chunks fr dl :
  getitem params "force_recompute" = Ret fr → truthy fr = false →
  is_Some (dict_get params "app") →
  getitem params "dst_level" = Ret dl →
  (∀ lvl, lvl ∈ requested_levels dl →
     ∃ expected actual,
       expected_at st params lvl chunks = Ret expected
       ∧ listing_at st params lvl chunks = Ret actual
       ∧ ∀ fn, fn ∈ expected → fn ∈ actual) →
  _get_missing_chunks st params chunks = Ret []
  ∧ run_halted_queue json_dumps st initial_count ticks params chunks
    = {| ops := setup_ops; iterations := 0; outcome := Ret Done |}
  ∧ existsb is_publish
      (ops (run_halted_queue json_dumps st initial_count ticks params chunks))
    = false.
Proof.
  intros Hfr Hfalse [app Happ] Hdl Hall.
  assert (Hlevels : ∀ lvl, lvl ∈ requested_levels dl →
            _get_missing_chunks_level st params lvl chunks = Ret (Some [])).
  { intros lvl Hin. destruct (Hall lvl Hin) as (e & a & He & Ha & Hsub).
    by eapply complete_level_nothing_missing. }
  assert (Hmissing : _get_missing_chunks st params chunks = Ret []).
  { unfold _get_missing_chunks. rewrite Hfr. simpl. rewrite Hfalse.
    unfold getitem at 1. rewrite Happ. simpl.
    rewrite (missing_frames_of_levels_eq _ _ _ _ Hdl).
    unfold requested_levels in Hlevels.
    destruct (as_list dl) as [levels|].
    - destruct (missing_frames_of_levels_some st params chunks levels ∅)
        as (mf & -> & Hiff).
      { intros lvl Hin. exists []. by apply Hlevels. }
      simpl. replace mf with (∅ : gset string); [done|].
      symmetry. apply elem_of_equiv_empty_L. intros frame. rewrite Hiff.
      intros [?%not_elem_of_empty|(lvl & ms & Hin & Hc & Hf)]; [done|].
      rewrite (Hlevels lvl Hin) in Hc. injection Hc as <-.
      by apply elem_of_nil in Hf.
    - rewrite (Hlevels dl) by by left. done. }
  split; [done|].
  unfold run_halted_queue. rewrite Hmissing. simpl. done.
Qed.

End CacheChecker.

(** ** The no-worker timeout of the wait loop *)

Module Liveness.

Import Config Network Pika Pipeline Worker Vocabulary CacheChecker.

Lemma wait_loop_cons dispatched qs nwp t rest :
  qs ≠ dispatched →
  wait_loop dispatched qs nwp (t :: rest)
  = if consumer_count t =? 0 then
      let since := default (time_started t) nwp in
      if Qlt_le_dec timeout (time_checked t - since)
      then (1%nat, Raise no_workers_error)
      else
        let '(n, r) := wait_loop dispatched (message_count t) (Some since) rest in
        (S n, r)
    else
      let '(n, r) := wait_loop dispatched (message_count t) None rest in
      (S n, r).
Proof.
  intros Hne. cbn [wait_loop].
  destruct (qs =? dispatched) eqn:E; [apply Z.eqb_eq in E; done|].
  destruct (consumer_count t =? 0); simpl; [|done].
  by destruct nwp.
Qed.


Lemma wait_loop_app dispatched qs nwp pre rest n qs' nwp' :
  wait_loop dispatched qs nwp pre = (n, Ret (Waiting qs' nwp')) →
  wait_loop dispatched qs nwp (pre ++ rest)
  = let '(m, r) := wait_loop dispatched qs' nwp' rest in ((n + m)%nat, r).
Proof.
  revert qs nwp n. induction pre as [|t pre IH]; intros qs nwp n.
  - simpl. destruct (qs =? dispatched) eqn:E; [done|].
    intros ?; simplify_eq. by destruct (wait_loop _ _ _ rest).
  - destruct (decide (qs = dispatched)) as [->|Hne].
    { simpl. by rewrite Z.eqb_refl. }
    rewrite <- app_comm_cons, !wait_loop_cons by done.
    destruct (consumer_count t =? 0).
    + simpl. destruct (Qlt_le_dec _ _); [done|].
      destruct (wait_loop dispatched (message_count t) _ pre) as [n' r'] eqn:E.
      intros ?; simplify_eq. rewrite (IH _ _ _ E).
      by destruct (wait_loop _ _ _ rest).
    + destruct (wait_loop dispatched (message_count t) _ pre) as [n' r'] eqn:E.
      intros ?; simplify_eq. rewrite (IH _ _ _ E).
      by destruct (wait_loop _ _ _ rest).
Qed.

Lemma waiting_outstanding dispatched qs nwp ticks n qs' nwp' :
  wait_loop dispatched qs nwp ticks = (n, Ret (Waiting qs' nwp')) →
  qs' ≠ dispatched.
Proof.
  revert qs nwp n. induction ticks as [|t ticks IH]; intros qs nwp n.
  - simpl. destruct (qs =? dispatched) eqn:E; [done|].
    intros ?; simplify_eq. by apply Z.eqb_neq.
  - destruct (decide (qs = dispatched)) as [->|Hne].
    { simpl. by rewrite Z.eqb_refl. }
    rewrite wait_loop_cons by done.
    destruct (consumer_count t =? 0).
    + simpl. destruct (Qlt_le_dec _ _); [done|].
      destruct (wait_loop dispatched (message_count t) _ ticks) as [n' r'] eqn:E.
      intros ?; simplify_eq. by eapply IH.
    + destruct (wait_loop dispatched (message_count t) _ ticks) as [n' r'] eqn:E.
      intros ?; simplify_eq. by eapply IH.
Qed.






End Liveness.

(** ** The download flag *)

Module Downloads.

Import Config Network Pika Pipeline Worker Vocabulary.

Lemma io_bind_result {A B} (m : io A) (f : A → io B) :
  (m ≫= f).2 = match m.2 with Ret a => (f a).2 | Raise e => Raise e end.
Proof. unfold mbind, io_bind. by destruct m.2. Qed.

Lemma download_image_type_result st msg image_type frames level :
  (download_image_type st msg image_type frames level).2 = Ret false
  ∨ ∃ e, (download_image_type st msg image_type frames level).2 = Raise e.
Proof.
  unfold download_image_type. rewrite !io_bind_result.
  destruct (lift _).2; [|by eauto].
  rewrite !io_bind_result.
  destruct (lift _).2; [|by eauto].
  rewrite !io_bind_result.
  match goal with |- context [match ?m with _ => _ end] => destruct m end;
    [by left|by eauto].
Qed.

Lemma download_each_result st msg image_type_to_level frames :
  (download_each st msg image_type_to_level frames false).2 = Ret false
  ∨ ∃ e, (download_each st msg image_type_to_level frames false).2 = Raise e.
Proof.
  induction image_type_to_level as [|[image_type level] rest IH]; simpl.
  - by left.
  - rewrite io_bind_result.
    destruct (download_image_type_result st msg image_type frames level)
      as [->|[e ->]]; [|by eauto].
    exact IH.
Qed.

Lemma download_image_types_result st msg image_type_to_level frames :
  (download_image_types st msg image_type_to_level frames).2 = Ret false
  ∨ ∃ e, (download_image_types st msg image_type_to_level frames).2 = Raise e.
Proof.
  unfold download_image_types. rewrite io_bind_result.
  match goal with |- context [match ?m with _ => _ end] => destruct m end;
    [|by eauto].
  apply download_each_result.
Qed.

Lemma io_bind_lift {A B} (r : result A) (f : A → io B) :
  lift r ≫= f = match r with Ret a => f a | Raise e => ([], Raise e) end.
Proof. unfold mbind, io_bind, lift. simpl. destruct r; [by destruct (f a)|done]. Qed.

Lemma io_bind_ret {A B} (m : io A) (f : A → io B) a :
  m.2 = Ret a → m ≫= f = (m.1 ++ (f a).1, (f a).2).
Proof. unfold mbind, io_bind. by intros ->. Qed.

Lemma download_image_type_s3 st msg image_type frames level src remote dst fns :
  remote_image_type_path msg image_type level = Ret src →
  Address_init src = Ret remote →
  is_s3 remote = true →
  local_image_type_path msg image_type level = Ret dst →
  get_frame_fns st msg frames false None = Ret fns →
  (_netop_helper (λ s d, download st s d []) src dst fns true).2 = Ret true →
  (extract_frames st dst fns).2 = Ret tt →
  download_image_type st msg image_type frames level
  = ((_netop_helper (λ s d, download st s d []) src dst fns true).1
     ++ (extract_frames st dst fns).1,
     Ret false).
Proof.
  intros Hsrc Hremote Hs3 Hdst Hfns Hdown Hextract.
  unfold download_image_type.
  rewrite Hsrc, io_bind_lift, Hremote, io_bind_lift, Hs3.
  rewrite io_bind_lift, Hdst, io_bind_lift, Hfns, io_bind_lift.
  rewrite (io_bind_ret _ _ _ Hdown).
  unfold mbind at 1, io_bind at 1. simpl. rewrite Hextract. simpl.
  by rewrite app_nil_r.
Qed.

Lemma download_image_type_elsewhere st msg image_type frames level src remote :
  remote_image_type_path msg image_type level = Ret src →
  Address_init src = Ret remote →
  is_s3 remote = false →
  download_image_type st msg image_type frames level = ([], Ret false).
Proof.
  intros Hsrc Hremote Hs3. unfold download_image_type.
  by rewrite Hsrc, io_bind_lift, Hremote, io_bind_lift, Hs3.
Qed.

(** C9. [download_image_type] never returns [True]: a call that is not stopped
    by an exception returns [False]. On the object-store branch, when every
    archive is fetched and unpacked, it returns [False] after those
    downloads and extractions; elsewhere it returns [False] at once. So does
    [download_image_types], whose flag is the disjunction of such calls, and
    [_clean_worker] called with that flag never removes the input scratch
    directory. *)
Theorem download_flag_is_always_false st msg :
  (∀ image_type frames level,
     (download_image_type st msg image_type frames level).2 = Ret false
     ∨ ∃ e, (download_image_type st msg image_type frames level).2 = Raise e)
  ∧ (∀ image_type frames level src remote dst fns,
       remote_image_type_path msg image_type level = Ret src →
       Address_init src = Ret remote →
       is_s3 remote = true →
       local_image_type_path msg image_type level = Ret dst →
       get_frame_fns st msg frames false None = Ret fns →
       (_netop_helper (λ s d, download st s d []) src dst fns true).2
       = Ret true →
       (extract_frames st dst fns).2 = Ret tt →
       download_image_type st msg image_type frames level
       = ((_netop_helper (λ s d, download st s d []) src dst fns true).1
          ++ (extract_frames st dst fns).1,
          Ret false))
  ∧ (∀ image_type frames level src remote,
       remote_image_type_path msg image_type level = Ret src →
       Address_init src = Ret remote →
       is_s3 remote = false →
       download_image_type st msg image_type frames level = ([], Ret false))
  ∧ (∀ image_type_to_level frames,
       (download_image_types st msg image_type_to_level frames).2 = Ret false
       ∨ ∃ e, (download_image_types st msg image_type_to_level frames).2
              = Raise e)
  ∧ (∀ ran_upload,
       Rmtree DOCKER_INPUT_ROOT ∉ (_clean_worker st false ran_upload).1).
Proof.
  split; [|split; [|split; [|split]]].
  - apply download_image_type_result.
  - apply download_image_type_s3.
  - apply download_image_type_elsewhere.
  - apply download_image_types_result.
  - intros ran_upload. unfold _clean_worker. simpl.
    destruct (ran_upload && os_path_exists st DOCKER_INPUT_ROOT).
    + destruct (os_path_exists st DOCKER_OUTPUT_ROOT); simpl.
      * intros [= ]%list_elem_of_singleton.
      * apply not_elem_of_nil.
    + apply not_elem_of_nil.
Qed.

End Downloads.

(** ** The failure path of the worker *)

Module Retry.

Import Config Network Pika Pipeline Worker Vocabulary.


End Retry.

(** ** The two level passes of depth estimation *)

Module DepthEstimation.

Import Config Network Pika Pipeline Worker Vocabulary.



End DepthEstimation.

(** ** The file names a stage expects *)

Module FileNames.

Import Config Network Pika Pipeline Worker Vocabulary FrameNames CacheChecker.

Lemma plain_split s : plain s = no_slash s && no_dot s.
Proof.
  induction s as [|c s IH]; [done|]. unfold plain, no_slash, no_dot in *.
  simpl. rewrite IH. unfold plain_char.
  destruct (Ascii.eqb c "/"), (Ascii.eqb c "."); simpl; try done;
    by rewrite ?andb_false_r.
Qed.

Lemma plain_no_slash s : plain s = true → no_slash s = true.
Proof. rewrite plain_split. by intros [? ?]%andb_true_iff. Qed.

Lemma plain_no_dot s : plain s = true → no_dot s = true.
Proof. rewrite plain_split. by intros [? ?]%andb_true_iff. Qed.

Lemma all_chars_app p s t :
  all_chars p (s +:+ t) = all_chars p s && all_chars p t.
Proof.
  induction s as [|c s IH]; [done|].
  rewrite append_cons. simpl. rewrite IH. by rewrite andb_assoc.
Qed.

Lemma append_nil_r s : s +:+ "" = s.
Proof. induction s as [|c s IH]; [done|]. by rewrite append_cons, IH. Qed.

Lemma append_assoc s t u : (s +:+ t) +:+ u = s +:+ t +:+ u.
Proof. induction s as [|c s IH]; [done|]. by rewrite !append_cons, IH. Qed.

Lemma is_digit_plain_char c : is_digit c = true → plain_char c = true.
Proof.
  intros H. unfold plain_char.
  by rewrite !(is_digit_neq c) by done.
Qed.

Lemma digits_plain s : all_chars is_digit s = true → plain s = true.
Proof.
  induction s as [|c s IH]; [done|]. simpl.
  intros [Hc Hs]%andb_true_iff. unfold plain in *. simpl.
  by rewrite is_digit_plain_char, IH.
Qed.

(** *** [os.path.basename] and [os.path.splitext] on such names *)

Lemma rsplit_slash_no_slash s : no_slash s = true → rsplit_slash s = ("", s).
Proof.
  induction s as [|c s IH]; [done|]. unfold no_slash in *. simpl.
  intros [Hc Hs]%andb_true_iff. rewrite IH by done.
  by apply negb_true_iff in Hc as ->.
Qed.

Lemma rsplit_slash_prefix p b :
  p = "" ∨ endswith_slash p = true → no_slash b = true →
  rsplit_slash (p +:+ b) = (p, b).
Proof.
  intros Hp Hb. induction p as [|c p IH].
  - by apply rsplit_slash_no_slash.
  - destruct Hp as [Hp|Hp]; [done|]. rewrite append_cons. simpl.
    destruct p as [|c' p].
    + simpl in *. rewrite rsplit_slash_no_slash by done. by rewrite Hp.
    + rewrite IH by (by right). done.
Qed.

Lemma endswith_slash_app a : endswith_slash (a +:+ "/") = true.
Proof.
  induction a as [|c a IH]; [done|]. rewrite append_cons.
  simpl. destruct (a +:+ "/") eqn:E; [by destruct a|done].
Qed.

Lemma startswith_slash_no_slash x : no_slash x = true → startswith x "/" = false.
Proof.
  destruct x as [|c x]; [done|]. unfold no_slash. simpl.
  intros [Hc _]%andb_true_iff. apply negb_true_iff in Hc.
  by rewrite Hc.
Qed.

Lemma basename_path_join a x :
  no_slash x = true → basename (path_join a x) = x.
Proof.
  intros Hx. unfold basename, path_join.
  rewrite startswith_slash_no_slash by done.
  destruct (String.eqb a "" || endswith_slash a) eqn:E.
  - rewrite rsplit_slash_prefix; [done| |done].
    apply orb_true_iff in E as [E|E]; [left; by apply String.eqb_eq|by right].
  - rewrite <- append_assoc. rewrite rsplit_slash_prefix; [done| |done].
    right. apply endswith_slash_app.
Qed.

Lemma basename_no_slash x : no_slash x = true → basename x = x.
Proof. intros Hx. unfold basename. by rewrite rsplit_slash_no_slash. Qed.

Lemma rsplit_dot_no_dot s : no_dot s = true → rsplit_dot s = None.
Proof.
  induction s as [|c s IH]; [done|]. unfold no_dot in *. simpl.
  intros [Hc Hs]%andb_true_iff. rewrite IH by done.
  by apply negb_true_iff in Hc as ->.
Qed.

Lemma rsplit_dot_ext r e :
  no_dot e = true → rsplit_dot (r +:+ String "." e) = Some (r, String "." e).
Proof.
  intros He. induction r as [|c r IH].
  - simpl. by rewrite rsplit_dot_no_dot.
  - rewrite append_cons. simpl. by rewrite IH.
Qed.

Lemma not_all_dots frame :
  frame ≠ "" → plain frame = true → all_chars (Ascii.eqb ".") frame = false.
Proof.
  destruct frame as [|c frame]; [done|]. intros _ Hf.
  unfold plain in Hf. cbn [all_chars] in *.
  apply andb_true_iff in Hf as [Hc _].
  destruct (Ascii.eqb "." c) eqn:E; [|done].
  apply Ascii.eqb_eq in E as <-. done.
Qed.

Lemma splitext_plain frame ext :
  frame ≠ "" → plain frame = true → plain_ext ext = true →
  splitext (frame +:+ ext) = (frame, ext).
Proof.
  intros Hne Hf He. unfold splitext.
  assert (Hns : no_slash (frame +:+ ext) = true).
  { unfold no_slash. rewrite all_chars_app. apply andb_true_iff. split.
    - by apply plain_no_slash.
    - destruct ext as [|c e]; [done|]. simpl in *.
      apply andb_true_iff in He as [Hc He]. apply Ascii.eqb_eq in Hc as ->.
      by apply plain_no_slash. }
  rewrite rsplit_slash_no_slash by done.
  destruct ext as [|c e].
  - rewrite append_nil_r. rewrite rsplit_dot_no_dot; [done|by apply plain_no_dot].
  - simpl in He. apply andb_true_iff in He as [Hc He].
    apply Ascii.eqb_eq in Hc as ->.
    rewrite rsplit_dot_ext by by apply plain_no_dot.
    by rewrite not_all_dots.
Qed.

Lemma frame_of_fn_path_join cam frame ext :
  frame ≠ "" → plain frame = true → plain_ext ext = true →
  frame_of_fn (path_join cam (frame +:+ ext)) = frame.
Proof.
  intros Hne Hf He. unfold frame_of_fn.
  rewrite basename_path_join.
  - by rewrite splitext_plain.
  - unfold no_slash. rewrite all_chars_app. apply andb_true_iff. split.
    + by apply plain_no_slash.
    + destruct ext as [|c e]; [done|]. simpl in *.
      apply andb_true_iff in He as [Hc He]. apply Ascii.eqb_eq in Hc as ->.
      by apply plain_no_slash.
Qed.

Lemma frame_of_fn_plain frame ext :
  frame ≠ "" → plain frame = true → plain_ext ext = true →
  frame_of_fn (frame +:+ ext) = frame.
Proof.
  intros Hne Hf He.
  rewrite <- (frame_of_fn_path_join "" frame ext) at 2 by done.
  unfold path_join. simpl.
  destruct (startswith (frame +:+ ext) "/"); done.
Qed.

(** The extension [os.path.splitext] cuts is always of that form. *)

Lemma rsplit_slash_base f : no_slash (rsplit_slash f).2 = true.
Proof.
  induction f as [|c f IH]; [done|]. simpl.
  destruct (rsplit_slash f) as [dir base]. simpl in IH.
  destruct dir as [|c' dir]; [|done].
  destruct (Ascii.eqb c "/") eqn:E; [done|].
  unfold no_slash in *. simpl. by rewrite E, IH.
Qed.

Lemma rsplit_dot_None s : rsplit_dot s = None → no_dot s = true.
Proof.
  induction s as [|c s IH]; [done|]. simpl.
  destruct (rsplit_dot s) as [[r e]|]; [done|].
  destruct (Ascii.eqb c ".") eqn:E; [done|]. intros _.
  unfold no_dot in *. simpl. by rewrite E, IH.
Qed.

Lemma rsplit_dot_Some b r e :
  rsplit_dot b = Some (r, e) →
  ∃ e', e = String "." e' ∧ no_dot e' = true ∧ b = r +:+ e.
Proof.
  revert r e. induction b as [|c b IH]; [done|]. intros r e. simpl.
  destruct (rsplit_dot b) as [[r' e']|] eqn:Eb.
  - intros [= <- <-]. destruct (IH r' e' eq_refl) as (e0 & -> & Hnd & ->).
    exists e0. by rewrite append_cons.
  - destruct (Ascii.eqb c ".") eqn:E; [|done]. intros [= <- <-].
    apply Ascii.eqb_eq in E as ->. exists b.
    split; [done|]. split; [by apply rsplit_dot_None|done].
Qed.

Lemma splitext_ext_plain f : plain_ext (splitext f).2 = true.
Proof.
  unfold splitext. pose proof (rsplit_slash_base f) as Hbase.
  destruct (rsplit_slash f) as [dir base]. simpl in Hbase.
  destruct (rsplit_dot base) as [[root ext]|] eqn:E; [|done].
  destruct (all_chars _ root); [done|]. simpl.
  destruct (rsplit_dot_Some _ _ _ E) as (e' & -> & Hnd & ->).
  simpl. rewrite plain_split, Hnd, andb_true_r.
  unfold no_slash in Hbase. rewrite all_chars_app in Hbase.
  apply andb_true_iff in Hbase as [_ Hbase]. simpl in Hbase.
  exact Hbase.
Qed.

Lemma split_char_plain sep s :
  plain s = true → Forall (λ ft, plain ft = true) (split_char sep s).
Proof.
  induction s as [|c s IH]; [by repeat constructor|].
  unfold plain in *. simpl. intros [Hc Hs]%andb_true_iff.
  specialize (IH Hs).
  destruct (Ascii.eqb c sep); [by constructor|].
  destruct (split_char sep s) as [|h t]; [by repeat constructor; simpl; rewrite Hc|].
  apply Forall_cons in IH as [Hh Ht]. constructor; [|done].
  simpl. by rewrite Hc, Hh.
Qed.

Lemma get_frame_fns_elem st msg frames u src l :
  get_frame_fns st msg frames u src = Ret l →
  ∃ n, naming_of st msg u src = Ret n
       ∧ ∀ fn, fn ∈ l ↔ ∃ frame, frame ∈ frames ∧ fn ∈ frame_fns_of n frame.
Proof.
  unfold get_frame_fns, naming_of. destruct u; simpl.
  - destruct (getitem msg "app" ≫= as_str) as [app|]; simpl; [|done].
    destruct (startswith app "SimpleMeshRenderer").
    + destruct (getitem msg "file_type" ≫= format) as [e|]; simpl; [|done].
      intros [= <-]. eexists. split; [done|]. intros fn.
      rewrite elem_of_elements, elem_of_list_to_set, list_elem_of_fmap.
      simpl. setoid_rewrite list_elem_of_singleton. naive_solver.
    + destruct src as [src|]; simpl; [|done].
      destruct (os_walk_dirs st src) as [cams|]; simpl; [|done].
      assert (Hmem : ∀ (exts : list string) fn,
                fn ∈ elements
                       (list_to_set (C := gset string)
                          (img_ext ← exts; frame ← frames; cam_dir ← cams;
                           [path_join cam_dir (frame +:+ img_ext)]))
                ↔ ∃ frame, frame ∈ frames
                           ∧ fn ∈ frame_fns_of (PerCamera exts cams) frame).
      { intros exts fn. rewrite elem_of_elements, elem_of_list_to_set. simpl.
        rewrite list_elem_of_bind. setoid_rewrite list_elem_of_bind.
        setoid_rewrite list_elem_of_bind.
        setoid_rewrite list_elem_of_singleton. naive_solver. }
      destruct (startswith app "ConvertToBinary" || startswith app "DerpCLI").
      * destruct (getitem msg "output_formats" ≫= as_str) as [formats|];
          simpl; [|done].
        intros [= <-]. eexists. split; [done|].
        apply (Hmem ((λ ft, "." +:+ ft) <$> split_char "," formats)).
      * destruct (head cams) as [cam|]; simpl; [|done].
        destruct (get_sample_file st _) as [[f|]|]; simpl; try done.
        intros [= <-]. eexists. split; [done|].
        apply (Hmem [(splitext f).2]).
  - intros [= <-]. eexists. split; [done|]. intros fn.
    rewrite elem_of_elements, elem_of_list_to_set, list_elem_of_fmap.
    simpl. setoid_rewrite list_elem_of_singleton. naive_solver.
Qed.

Lemma get_frame_fns_returns st msg frames u src n :
  naming_of st msg u src = Ret n →
  ∃ l, get_frame_fns st msg frames u src = Ret l.
Proof.
  unfold get_frame_fns, naming_of. destruct u; simpl; [|by eauto].
  destruct (getitem msg "app" ≫= as_str) as [app|]; simpl; [|done].
  destruct (startswith app "SimpleMeshRenderer").
  - destruct (getitem msg "file_type" ≫= format) as [e|]; simpl; [|done].
    by eauto.
  - destruct src as [src|]; simpl; [|done].
    destruct (os_walk_dirs st src) as [cams|]; simpl; [|done].
    destruct (startswith app "ConvertToBinary" || startswith app "DerpCLI").
    + destruct (getitem msg "output_formats" ≫= as_str) as [formats|];
        simpl; [|done].
      by eauto.
    + destruct (head cams) as [cam|]; simpl; [|done].
      destruct (get_sample_file st _) as [[f|]|]; simpl; try done.
      by eauto.
Qed.


Lemma naming_plain st msg u src n :
  plain_formats msg = true → naming_of st msg u src = Ret n → plain_naming n.
Proof.
  unfold plain_formats, naming_of. intros [Hft Hof]%andb_true_iff.
  destruct u; [|by intros [= <-]]. simpl.
  destruct (getitem msg "app" ≫= as_str) as [app|]; simpl; [|done].
  destruct (startswith app "SimpleMeshRenderer").
  - unfold getitem. destruct (dict_get msg "file_type") as [v|]; simpl; [|done].
    destruct (format v) as [e|]; simpl; [|done]. by intros [= <-].
  - destruct src as [src|]; simpl; [|done].
    destruct (os_walk_dirs st src) as [cams|]; simpl; [|done].
    destruct (startswith app "ConvertToBinary" || startswith app "DerpCLI").
    + unfold getitem.
      destruct (dict_get msg "output_formats") as [v|]; simpl; [|done].
      destruct v as [| | |formats| |]; simpl; try done.
      intros [= <-]. simpl. apply Forall_fmap.
      eapply Forall_impl; [by apply split_char_plain|].
      intros ft Hp. simpl. done.
    + destruct (head cams) as [cam|]; simpl; [|done].
      destruct (get_sample_file st _) as [[f|]|]; simpl; try done.
      intros [= <-]. simpl. constructor; [|done]. apply splitext_ext_plain.
Qed.

Lemma frame_of_fn_naming n frame fn :
  plain_naming n → frame ≠ "" → plain frame = true →
  fn ∈ frame_fns_of n frame → frame_of_fn fn = frame.
Proof.
  intros Hn Hne Hp. destruct n as [|e|exts cams]; simpl.
  - intros ->%list_elem_of_singleton. by apply frame_of_fn_plain.
  - intros ->%list_elem_of_singleton. by apply frame_of_fn_plain.
  - intros (ext & Hin & Hext)%list_elem_of_bind.
    apply list_elem_of_bind in Hin as (cam & ->%list_elem_of_singleton & _).
    apply frame_of_fn_path_join; [done..|].
    simpl in Hn. rewrite Forall_forall in Hn. by apply Hn.
Qed.

End FileNames.

(** ** Adding the files of a chunk *)

Module Monotonicity.

Import Config Network Pika Pipeline Worker Vocabulary FrameNames CacheChecker FileNames.

Lemma get_frame_name_nonempty k : 0 ≤ k → get_frame_name k ≠ "".
Proof.
  intros Hk E. pose proof (int_get_frame_name k Hk) as H.
  rewrite E in H. done.
Qed.

Lemma get_frame_name_plain k : 0 ≤ k → plain (get_frame_name k) = true.
Proof. intros Hk. by apply digits_plain, get_frame_name_digits. Qed.



Lemma index_elem {A} (l : list A) i x : index l i = Ret x → x ∈ l.
Proof.
  unfold index. destruct (_ <? 0); [done|].
  destruct (l !! _) as [y|] eqn:E; [|done]. intros [= <-].
  by eapply list_elem_of_lookup_2.
Qed.

(** The frames of the requested range are names of frame numbers. *)
Lemma level_target_frames params lvl chunks d fr u :
  level_target params lvl chunks = Ret (d, fr, u) →
  (∀ c, c ∈ chunks → well_formed c) →
  ∀ f, f ∈ fr → ∃ k, 0 ≤ k ∧ f = get_frame_name k.
Proof.
  unfold level_target.
  destruct (getitem params "dst_image_type" ≫= as_str) as [t|]; simpl; [|done].
  destruct (remote_image_type_path params t lvl) as [d'|]; simpl; [|done].
  destruct (index chunks 0) as [c0|] eqn:E0; simpl; [|done].
  destruct (index chunks (-1)) as [cN|]; simpl; [|done].
  unfold get_frame_range. simpl.
  destruct (int (first c0)) as [a|] eqn:Ea; simpl; [|done].
  destruct (int (last cN)) as [b|]; simpl; [|done].
  destruct (Address_init d') as [r|]; simpl; [|done].
  intros [= <- <- <-] Hwf f (k & -> & Hk)%list_elem_of_fmap.
  apply elem_of_seqZ in Hk.
  destruct (Hwf c0 (index_elem _ _ _ E0)) as (a' & b' & Ha' & _ & H0).
  rewrite Ea in Ha'. injection Ha' as <-. exists k. split; [lia|done].
Qed.

Lemma level_target_ext st params lvl chunks :
  expected_at st params lvl chunks
  = '(d, fr, u) ← level_target params lvl chunks;
    get_frame_fns st params fr u (Some d).
Proof. done. Qed.











End Monotonicity.

(** ** The properties on concrete runs *)

Module Runs.

Import Config Network Pika Pipeline Worker Vocabulary Scenario.
Import FrameNames CacheChecker Liveness Downloads Retry DepthEstimation FileNames Monotonicity.

Lemma subset_check (l : list string) (X : gset string) :
  forallb (λ fn, bool_decide (fn ∈ X)) l = true → ∀ fn, fn ∈ l → fn ∈ X.
Proof.
  rewrite forallb_forall. intros H fn Hin.
  apply list_elem_of_In in Hin. specialize (H fn Hin).
  by apply bool_decide_eq_true in H.
Qed.

Lemma complete_destination_dispatches_nothing_witness :
  _get_missing_chunks (local_store (λ _, frame_files [0; 1; 2; 3; 4]))
    (depth_params false (VInt 3)) chunks = Ret []
  ∧ run_halted_queue json_dumps (local_store (λ _, frame_files [0; 1; 2; 3; 4]))
      0 [] (depth_params false (VInt 3)) chunks
    = {| ops := setup_ops; iterations := 0; outcome := Ret Done |}
  ∧ existsb is_publish
      (ops (run_halted_queue json_dumps
              (local_store (λ _, frame_files [0; 1; 2; 3; 4])) 0 []
              (depth_params false (VInt 3)) chunks))
    = false.
Proof.
  apply (complete_destination_dispatches_nothing json_dumps
           (local_store (λ _, frame_files [0; 1; 2; 3; 4])) 0 []
           (depth_params false (VInt 3)) chunks (VBool false) (VInt 3)).
  - reflexivity.
  - reflexivity.
  - by eexists.
  - reflexivity.
  - intros lvl ->%list_elem_of_singleton.
    eexists _, (frame_files [0; 1; 2; 3; 4]).
    split; [vm_compute; reflexivity|]. split; [reflexivity|].
    apply subset_check. vm_compute. reflexivity.
Defined.


Lemma listing_failure_reports_all_chunks_witness :
  _get_missing_chunks absent_store (depth_params false (VInt 3)) chunks
  = Ret chunks.
Proof.
  apply (listing_failure_reports_all_chunks absent_store
           (depth_params false (VInt 3)) chunks (VBool false) (VInt 3)
           0%nat (VInt 3) (level_3, frames [0; 1; 2; 3; 4], true)).
  - reflexivity.
  - by eexists.
  - reflexivity.
  - reflexivity.
  - intros j lvl' Hj. lia.
  - vm_compute. reflexivity.
  - left. vm_compute. reflexivity.
Defined.

Lemma missing_frames_union_of_levels_witness :
  ∃ missing_frames,
    missing_frames_of (local_store two_levels)
      (depth_params false (VList [VInt 3; VInt 2])) chunks
    = Ret (Some missing_frames)
    ∧ ∀ frame,
        frame ∈ missing_frames
        ↔ ∃ lvl ms,
            lvl ∈ [VInt 3; VInt 2]
            ∧ _get_missing_chunks_level (local_store two_levels)
                (depth_params false (VList [VInt 3; VInt 2])) lvl chunks
              = Ret (Some ms)
            ∧ frame ∈ ms.
Proof.
  apply (missing_frames_union_of_levels (local_store two_levels)
           (depth_params false (VList [VInt 3; VInt 2])) chunks
           [VInt 3; VInt 2]).
  - reflexivity.
  - intros lvl Hlvl.
    apply elem_of_cons in Hlvl as [-> | Hlvl];
      [| apply list_elem_of_singleton in Hlvl as ->];
      eexists; vm_compute; reflexivity.
Defined.

Lemma chunks_are_frame_numbers (c : frame_chunk) :
  c ∈ chunks → ∃ a b, int (first c) = Ret a ∧ int (last c) = Ret b ∧ 0 ≤ a.
Proof.
  unfold chunks. rewrite !elem_of_cons, elem_of_nil.
  intros [-> | [-> | [-> | []]]]; eexists _, _;
    (split; [vm_compute; reflexivity|]);
    (split; [vm_compute; reflexivity|]); lia.
Qed.

Lemma missing_chunks_iff_missing_frame_witness :
  ∃ result,
    _get_missing_chunks (local_store two_levels)
      (depth_params false (VInt 2)) chunks = Ret result
    ∧ ∀ c,
        c ∈ result
        ↔ c ∈ chunks
          ∧ ∃ a b k,
              int (first c) = Ret a ∧ int (last c) = Ret b ∧ a ≤ k ≤ b
              ∧ get_frame_name k ∈ ({[ "000002" ]} : gset string).
Proof.
  apply (missing_chunks_iff_missing_frame (local_store two_levels)
           (depth_params false (VInt 2)) chunks (VBool false)
           {[ "000002" ]}).
  - reflexivity.
  - reflexivity.
  - by eexists.
  - vm_compute. reflexivity.
  - intros c Hc. destruct (chunks_are_frame_numbers c Hc) as (a & b & ? & ? & _).
    by exists a, b.
Defined.










(** On the object store the archives of the frames are fetched and unpacked,
    and the flag is still [False]. *)
Example s3_download_returns_false :
  download_image_type absent_store s3_params "color" ["000000"] VNone
  = ([ RunCommand
         ("aws s3 cp s3://bucket/in/video/color/000000.tar "
          +:+ "/app/facebook360_dep/project/video/color/000000.tar");
       TarExtractAll "/app/facebook360_dep/project/video/color/000000.tar"
         "/app/facebook360_dep/project/video/color" ],
     Ret false).
Proof. vm_compute. reflexivity. Qed.

End Runs.

(** ** Further properties of the scripts

    Auxiliary facts on strings and dictionaries come first. *)

Module Texts.


Lemma startswith_nil s : startswith s "" = true.
Proof. by destruct s. Qed.

Lemma length_append s t :
  String.length (s +:+ t) = (String.length s + String.length t)%nat.
Proof. induction s as [|c s IH]; simpl; [done|]. by rewrite IH. Qed.

End Texts.

Module Dicts.


Lemma dict_get_setitem d k v k' :
  dict_get (setitem d k v) k' = if String.eqb k k' then Some v else dict_get d k'.
Proof.
  induction d as [|[k0 v0] d IH]; simpl.
  - done.
  - destruct (String.eqb k0 k) eqn:E; simpl.
    + apply String.eqb_eq in E as ->. by destruct (String.eqb k k').
    + destruct (String.eqb k0 k') eqn:E'; [|done].
      apply String.eqb_eq in E' as ->.
      by rewrite String.eqb_sym, E.
Qed.

Lemma dict_get_update d other k :
  dict_get (update d other) k
  = match dict_get (reverse other) k with
    | Some v => Some v
    | None => dict_get d k
    end.
Proof.
  unfold update. revert d. induction other as [|[k0 v0] other IH]; intros d.
  - done.
  - simpl. rewrite IH, reverse_cons.
    rewrite dict_get_setitem.
    assert (Happ : ∀ l, dict_get (l ++ [(k0, v0)]) k
                        = match dict_get l k with
                          | Some v => Some v
                          | None => if String.eqb k0 k then Some v0 else None
                          end).
    { induction l as [|[k1 v1] l IHl]; simpl; [done|].
      rewrite IHl. destruct (String.eqb k1 k); reflexivity. }
    rewrite Happ.
    destruct (dict_get (reverse other) k); [done|].
    by destruct (String.eqb k0 k).
Qed.

Lemma getitem_setitem d k v k' :
  getitem (setitem d k v) k' = if String.eqb k k' then Ret v else getitem d k'.
Proof. unfold getitem. rewrite dict_get_setitem. by destruct (String.eqb k k'). Qed.

End Dicts.

(** ** Addresses *)

Module Addresses.

Import Config Network Pika Pipeline Worker Vocabulary Notions FrameNames
  FileNames.

Lemma strip_prefix_Some p s r : strip_prefix p s = Some r → s = p +:+ r.
Proof.
  revert s. induction p as [|c p IH]; intros s; simpl.
  - by intros [= ->].
  - destruct s as [|d s]; [done|].
    destruct (Ascii.eqb d c) eqn:E; [|done].
    apply Ascii.eqb_eq in E as ->. intros H. by rewrite (IH _ H).
Qed.

Lemma split_once_Some sep s b a :
  split_once sep s = Some (b, a) → s = b +:+ sep +:+ a.
Proof.
  revert b. induction s as [|c s IH]; intros b.
  - simpl. destruct (strip_prefix sep "") eqn:E; [|done].
    intros [= <- <-]. by apply strip_prefix_Some in E.
  - cbn [split_once]. destruct (strip_prefix sep (String c s)) eqn:E.
    + intros [= <- <-]. by apply strip_prefix_Some in E.
    + destruct (split_once sep s) as [[b' a']|] eqn:E'; [|done].
      intros [= <- <-]. by rewrite (IH _ eq_refl).
Qed.

(** The text before the first ["/"] holds none. *)
Lemma split_once_slash_before s b a :
  split_once "/" s = Some (b, a) → no_slash b = true.
Proof.
  revert b. induction s as [|c s IH]; intros b; [done|].
  cbn [split_once strip_prefix].
  destruct (Ascii.eqb c "/") eqn:E.
  - by intros [= <- <-].
  - destruct (split_once "/" s) as [[b' a']|] eqn:E'; [|done].
    intros [= <- <-]. unfold no_slash. cbn [all_chars]. rewrite E. simpl.
    by apply IH.
Qed.

(** X1. [Address] cuts an address into parts that put it together again: a
    local path is its own [path] and has neither protocol nor host; with a
    protocol, the address is [protocol://ip/path], [ip_path] is [ip/path] and
    the host holds no slash. The only exception [Address] raises is the
    [ValueError] of a failed unpacking, and only when ["://"] occurs in the
    address. *)
Theorem Address_parts_recompose addr :
  match Address_init addr with
  | Ret a =>
      address a = addr
      ∧ match protocol a with
        | Some proto =>
            ∃ host,
              ip a = Some host
              ∧ addr = proto +:+ "://" +:+ host +:+ "/" +:+ path a
              ∧ ip_path a = host +:+ "/" +:+ path a
              ∧ no_slash host = true
              ∧ contains (ip_path a) "://" = false
        | None =>
            ip a = None ∧ ip_path a = addr ∧ path a = addr
            ∧ contains addr "://" = false
        end
  | Raise e => e = ValueError ∧ contains addr "://" = true
  end.
Proof.
  unfold Address_init, contains.
  destruct (split_once "://" addr) as [[proto rest]|] eqn:E; [|done].
  destruct (split_once "://" rest) as [[? ?]|] eqn:E2; [done|].
  destruct (split_once "/" rest) as [[host p]|] eqn:E3; [|done].
  simpl. split; [done|]. exists host.
  apply split_once_Some in E as Haddr. apply split_once_Some in E3 as Hrest.
  split; [done|]. split; [by rewrite Haddr, Hrest|].
  split; [done|]. split; [by eapply split_once_slash_before|].
  by rewrite E2.
Qed.

End Addresses.

(** ** Frame numbers and their names *)

Module FrameNumbering.

Import Config Network Pika Pipeline Worker Vocabulary Notions FrameNames
  CacheChecker.

(** A number of at least [10 ^ k] has more than [k] digits, given the fuel
    for them. *)
Lemma str_digits_length_ge fuel n acc k :
  10 ^ Z.of_nat k ≤ n → (k ≤ fuel)%nat →
  (k + 1 + String.length acc ≤ String.length (str_digits fuel n acc))%nat.
Proof.
  revert fuel n acc. induction k as [|k IH]; intros fuel n acc Hn Hk.
  - destruct fuel; simpl; [lia|]. destruct (n <? 10); simpl; [lia|].
    pose proof (str_digits_length fuel (n / 10)
                  (String (digit_of_Z (n mod 10)) acc)
                  (S (Z.to_nat (n / 10)))) as H.
    assert (0 ≤ n / 10) by (apply Z.div_pos; simpl in Hn; lia).
    assert (n / 10 < 10 ^ Z.of_nat (S (Z.to_nat (n / 10)))).
    { replace (Z.of_nat (S (Z.to_nat (n / 10)))) with (Z.succ (n / 10)) by lia.
      pose proof (Z.pow_gt_lin_r 10 (Z.succ (n / 10)) ltac:(lia) ltac:(lia)).
      lia. }
    specialize (H ltac:(lia) ltac:(lia)). simpl in H. lia.
  - destruct fuel as [|fuel]; [lia|].
    replace (Z.of_nat (S k)) with (Z.succ (Z.of_nat k)) in Hn by lia.
    rewrite Z.pow_succ_r in Hn by lia.
    assert (0 < 10 ^ Z.of_nat k) by (apply Z.pow_pos_nonneg; lia).
    simpl. destruct (n <? 10) eqn:E; [apply Z.ltb_lt in E; lia|].
    specialize (IH fuel (n / 10) (String (digit_of_Z (n mod 10)) acc)).
    assert (10 ^ Z.of_nat k ≤ n / 10) by (apply Z.div_le_lower_bound; lia).
    specialize (IH ltac:(done) ltac:(lia)). simpl in IH. lia.
Qed.

Lemma str_long n : 1000000 ≤ n → (6 < String.length (str n))%nat.
Proof.
  intros Hn. rewrite str_nonneg by lia.
  pose proof (Z.log2_le_mono 1000000 n Hn) as Hlog.
  change (Z.log2 1000000) with 19 in Hlog.
  pose proof (str_digits_length_ge (Z.to_nat (Z.log2 n)) n "" 6
                ltac:(simpl; lia) ltac:(lia)) as H.
  simpl in H. lia.
Qed.

(** X2. Frame names and frame numbers round-trip: for every frame number
    from 0 on, [int] reads [get_frame_name] back as that number, so distinct
    frames have distinct names. The name has exactly six characters up to
    frame 999999; from frame 1000000 on it is the unpadded decimal and is
    longer. *)
Theorem frame_name_round_trip (n m : Z) :
  0 ≤ n → 0 ≤ m →
  int (get_frame_name n) = Ret n
  ∧ (get_frame_name n = get_frame_name m → n = m)
  ∧ (n < 1000000 → String.length (get_frame_name n) = 6%nat)
  ∧ (1000000 ≤ n →
     get_frame_name n = str n ∧ (6 < String.length (get_frame_name n))%nat).
Proof.
  intros Hn Hm. split; [by apply int_get_frame_name|].
  split; [by apply get_frame_name_inj|].
  split; [intros; apply get_frame_name_length; lia|].
  intros Hbig. pose proof (str_long n Hbig) as Hlen.
  rewrite get_frame_name_long by lia. done.
Qed.

(** X3. A range whose last frame precedes its first is empty, and a chunk
    with such endpoints holds no frame: the final loop of the cache check
    never reports it, whatever frames are missing. *)
Theorem reversed_chunk_is_never_missing st params chunks fr missing_frames
    (c : frame_chunk) (a b : Z) :
  getitem params "force_recompute" = Ret fr → truthy fr = false →
  is_Some (dict_get params "app") →
  missing_frames_of st params chunks = Ret (Some missing_frames) →
  (∀ c', c' ∈ chunks → ∃ a' b', int (first c') = Ret a' ∧ int (last c') = Ret b') →
  int (first c) = Ret a → int (last c) = Ret b → b < a →
  get_frame_range (VStr (first c)) (VStr (last c)) = Ret []
  ∧ has_missing_frame missing_frames c = Ret false
  ∧ ∃ result,
      _get_missing_chunks st params chunks = Ret result ∧ c ∉ result.
Proof.
  intros Hfr Hforce [app Happ] Hmf Hparse Ha Hb Hlt.
  assert (Hrange : get_frame_range (VStr (first c)) (VStr (last c)) = Ret []).
  { unfold get_frame_range. simpl. rewrite Ha, Hb. simpl.
    by rewrite seqZ_nil by lia. }
  split; [done|].
  split; [unfold has_missing_frame, chunk_frames; by rewrite Hrange|].
  unfold _get_missing_chunks. rewrite Hfr. simpl. rewrite Hforce.
  unfold getitem at 1. rewrite Happ. simpl. rewrite Hmf. simpl.
  destruct (bool_decide (size missing_frames = 0%nat)).
  - eexists. split; [done|]. apply not_elem_of_nil.
  - destruct (missing_frame_chunks_spec missing_frames chunks Hparse)
      as (result & Hres & Hiff).
    exists result. split; [done|].
    intros Hin. apply Hiff in Hin as (_ & a' & b' & k & Ha' & Hb' & Hk & _).
    rewrite Ha in Ha'. rewrite Hb in Hb'. simplify_eq. lia.
Qed.

End FrameNumbering.

(** ** The cache check, level by level *)

Module LevelCheck.

Import Config Network Pika Pipeline Worker Vocabulary Notions FrameNames
  CacheChecker FileNames Monotonicity.

Lemma returns_Ret {A} (m : result A) : returns m = true → ∃ a, m = Ret a.
Proof. destruct m; [by eexists|done]. Qed.

(** X4. What one level of the cache check reports. When the destination
    can be listed, a frame is reported missing at the level exactly when it
    lies in the requested range and one of the files [get_frame_fns] expects
    for that frame alone is not in the listing. *)
Theorem level_reports_frames_with_absent_files st params lvl chunks d fr u
    actual :
  plain_formats params = true →
  (∀ c, c ∈ chunks → well_formed c) →
  level_target params lvl chunks = Ret (d, fr, u) →
  returns (get_frame_fns st params fr u (Some d)) = true →
  listdir st d = Ret actual →
  ∃ ms,
    _get_missing_chunks_level st params lvl chunks = Ret (Some ms)
    ∧ ∀ f,
        f ∈ ms ↔
        f ∈ fr
        ∧ ∃ fns fn,
            get_frame_fns st params [f] u (Some d) = Ret fns
            ∧ fn ∈ fns ∧ fn ∉ actual.
Proof.
  intros Hplain Hwf Htarget Hexp Hlist.
  apply returns_Ret in Hexp as [expected Hexp].
  assert (Hexp' : expected_at st params lvl chunks = Ret expected).
  { unfold expected_at. by rewrite Htarget. }
  assert (Hlist' : listing_at st params lvl chunks = Ret actual).
  { unfold listing_at. by rewrite Htarget. }
  eexists. split; [by apply level_check_some|].
  destruct (get_frame_fns_elem _ _ _ _ _ _ Hexp) as (n & Hn & Hmem).
  pose proof (naming_plain _ _ _ _ _ Hplain Hn) as Hpn.
  assert (Hback : ∀ g fn, g ∈ fr → fn ∈ frame_fns_of n g → frame_of_fn fn = g).
  { intros g fn Hg Hfn.
    destruct (level_target_frames _ _ _ _ _ _ Htarget Hwf g Hg) as (k & Hk & ->).
    apply (frame_of_fn_naming n); [done| |by apply get_frame_name_plain|done].
    by apply get_frame_name_nonempty. }
  assert (Hone : ∀ f, ∃ fns,
             get_frame_fns st params [f] u (Some d) = Ret fns
             ∧ ∀ fn, fn ∈ fns ↔ fn ∈ frame_fns_of n f).
  { intros f. destruct (get_frame_fns_returns st params [f] u (Some d) n Hn)
      as [fns Hfns].
    exists fns. split; [done|].
    destruct (get_frame_fns_elem _ _ _ _ _ _ Hfns) as (n' & Hn' & Hmem').
    rewrite Hn in Hn'. injection Hn' as <-.
    intros fn. rewrite Hmem'. split.
    - by intros (g & ->%list_elem_of_singleton & ?).
    - intros ?. exists f. split; [by apply list_elem_of_singleton|done]. }
  intros f. rewrite list_elem_of_fmap. split.
  - intros (fn & -> & Hfn).
    apply elem_of_elements, elem_of_difference in Hfn as [Hfn Hnot].
    apply elem_of_list_to_set, Hmem in Hfn as (g & Hg & Hfn).
    rewrite (Hback g fn Hg Hfn). split; [done|].
    destruct (Hone g) as (fns & Hfns & Hiff).
    exists fns, fn. split; [done|]. split; [by apply Hiff|done].
  - intros (Hf & fns & fn & Hfns & Hfn & Hnot).
    destruct (Hone f) as (fns' & Hfns' & Hiff).
    rewrite Hfns in Hfns'. injection Hfns' as <-.
    apply Hiff in Hfn. exists fn. split; [by rewrite (Hback f fn Hf Hfn)|].
    apply elem_of_elements, elem_of_difference. split; [|done].
    apply elem_of_list_to_set, Hmem. by exists f.
Qed.

Lemma missing_frame_chunks_sublist mf chunks r :
  missing_frame_chunks mf chunks = Ret r → sublist r chunks.
Proof.
  revert r. induction chunks as [|c chunks IH]; intros r; simpl.
  - intros [= <-]. constructor.
  - destruct (has_missing_frame mf c) as [b|]; [|done]. simpl.
    destruct (missing_frame_chunks mf chunks) as [others|]; [|done]. simpl.
    intros [= <-]. specialize (IH others eq_refl).
    destruct b; by constructor.
Qed.

(** X5. Whatever the cache check returns is taken from the requested chunk
    list, in its order: the check only drops chunks, it never adds one and
    never reorders them. *)
Theorem missing_chunks_form_a_sublist st params chunks result :
  _get_missing_chunks st params chunks = Ret result → sublist result chunks.
Proof.
  unfold _get_missing_chunks.
  destruct (getitem params "force_recompute") as [fr|]; [|done]. simpl.
  destruct (truthy fr); [by intros [= <-]|].
  destruct (getitem params "app"); [|done]. simpl.
  destruct (missing_frames_of st params chunks) as [[mf|]|]; simpl;
    [|by intros [= <-]|done].
  destruct (bool_decide (size mf = 0%nat)).
  - intros [= <-]. apply sublist_nil_l.
  - apply missing_frame_chunks_sublist.
Qed.

Lemma missing_frames_of_raise st params chunks dl lvl e :
  getitem params "dst_level" = Ret dl →
  head (requested_levels dl) = Some lvl →
  level_target params lvl chunks = Raise e →
  missing_frames_of st params chunks = Raise e.
Proof.
  intros Hdl Hhead Htarget.
  rewrite (missing_frames_of_levels_eq _ _ _ _ Hdl).
  unfold requested_levels in Hhead.
  destruct (as_list dl) as [levels|].
  - destruct levels as [|l levels]; [done|]. injection Hhead as ->.
    simpl. by rewrite (level_check_raise _ _ _ _ _ Htarget).
  - injection Hhead as ->. by rewrite (level_check_raise _ _ _ _ _ Htarget).
Qed.

Lemma get_missing_chunks_raise st params chunks fr dl lvl e :
  getitem params "force_recompute" = Ret fr → truthy fr = false →
  is_Some (dict_get params "app") →
  getitem params "dst_level" = Ret dl →
  head (requested_levels dl) = Some lvl →
  level_target params lvl chunks = Raise e →
  _get_missing_chunks st params chunks = Raise e.
Proof.
  intros Hfr Hforce [app Happ] Hdl Hhead Htarget.
  unfold _get_missing_chunks. rewrite Hfr. simpl. rewrite Hforce.
  unfold getitem at 1. rewrite Happ. simpl.
  by rewrite (missing_frames_of_raise _ _ _ _ _ _ Hdl Hhead Htarget).
Qed.

(** X6. Only the listing itself is guarded. An exception raised while the
    first requested level works out its destination and frame range (an
    image type without a path, a missing root, an address that does not
    parse, a chunk endpoint that is not a number) is not turned into the
    dispatch-everything fallback: it leaves [_get_missing_chunks], and
    [run_halted_queue] stops after the purges with nothing published. *)
Theorem errors_before_the_listing_propagate dumps st initial_count ticks
    params chunks fr dl lvl e :
  getitem params "force_recompute" = Ret fr → truthy fr = false →
  is_Some (dict_get params "app") →
  getitem params "dst_level" = Ret dl →
  head (requested_levels dl) = Some lvl →
  level_target params lvl chunks = Raise e →
  _get_missing_chunks st params chunks = Raise e
  ∧ run_halted_queue dumps st initial_count ticks params chunks
    = {| ops := setup_ops; iterations := 0; outcome := Raise e |}.
Proof.
  intros Hfr Hforce Happ Hdl Hhead Htarget.
  pose proof (get_missing_chunks_raise st _ _ _ _ _ _ Hfr Hforce Happ Hdl Hhead
                Htarget) as H.
  split; [done|]. unfold run_halted_queue. by rewrite H.
Qed.

(** X7. An empty chunk list. With [force_recompute] set the stage returns
    at once without publishing. With the cache check on, and a destination
    that can be worked out, [frame_chunks[0]] raises [IndexError] outside the
    guarded listing, and the stage stops with that exception. *)
Theorem empty_chunk_list dumps st initial_count ticks params fr dl lvl t d :
  getitem params "force_recompute" = Ret fr →
  is_Some (dict_get params "app") →
  getitem params "dst_level" = Ret dl →
  head (requested_levels dl) = Some lvl →
  getitem params "dst_image_type" = Ret (VStr t) →
  remote_image_type_path params t lvl = Ret d →
  run_halted_queue dumps st initial_count ticks params []
  = {| ops := setup_ops;
       iterations := 0;
       outcome := if truthy fr then Ret Done else Raise IndexError |}.
Proof.
  intros Hfr Happ Hdl Hhead Ht Hd.
  destruct (truthy fr) eqn:Hforce.
  - unfold run_halted_queue, _get_missing_chunks.
    rewrite Hfr. simpl. by rewrite Hforce.
  - assert (Htarget : level_target params lvl [] = Raise IndexError).
    { unfold level_target. rewrite Ht. simpl. by rewrite Hd. }
    unfold run_halted_queue.
    by rewrite (get_missing_chunks_raise st _ _ _ _ _ _ Hfr Hforce Happ Hdl
                  Hhead Htarget).
Qed.

End LevelCheck.

(** ** The messages of a stage *)

Module Publishing.

Import Config Network Pika Pipeline Worker Vocabulary Notions FrameNames
  CacheChecker Liveness Dicts.

(** The keys a chunk writes into the message. *)
Lemma chunk_items_get c k :
  dict_get (reverse (chunk_items c)) k
  = match filter_span c with
    | Some (ff, fl) =>
        if String.eqb "filter_last" k then Some (VStr fl)
        else if String.eqb "filter_first" k then Some (VStr ff)
        else if String.eqb "last" k then Some (VStr (last c))
        else if String.eqb "first" k then Some (VStr (first c))
        else None
    | None =>
        if String.eqb "last" k then Some (VStr (last c))
        else if String.eqb "first" k then Some (VStr (first c))
        else None
    end.
Proof. unfold chunk_items. by destruct (filter_span c) as [[ff fl]|]. Qed.

Lemma update_chunk_first params c :
  dict_get (update params (chunk_items c)) "first" = Some (VStr (first c)).
Proof.
  rewrite dict_get_update, chunk_items_get.
  by destruct (filter_span c) as [[??]|].
Qed.

Lemma update_chunk_last params c :
  dict_get (update params (chunk_items c)) "last" = Some (VStr (last c)).
Proof.
  rewrite dict_get_update, chunk_items_get.
  by destruct (filter_span c) as [[??]|].
Qed.

Lemma update_chunk_filter params c ff fl :
  filter_span c = Some (ff, fl) →
  dict_get (update params (chunk_items c)) "filter_first" = Some (VStr ff)
  ∧ dict_get (update params (chunk_items c)) "filter_last" = Some (VStr fl).
Proof. intros H. rewrite !dict_get_update, !chunk_items_get, H. done. Qed.

Lemma update_chunk_other params c k :
  k ∉ ["first"; "last"; "filter_first"; "filter_last"] →
  dict_get (update params (chunk_items c)) k = dict_get params k.
Proof.
  intros Hk. rewrite dict_get_update, chunk_items_get.
  rewrite !not_elem_of_cons in Hk. destruct Hk as (H1 & H2 & H3 & H4 & _).
  destruct (String.eqb_spec "filter_last" k); [done|].
  destruct (String.eqb_spec "filter_first" k); [done|].
  destruct (String.eqb_spec "last" k); [done|].
  destruct (String.eqb_spec "first" k); [done|].
  by destruct (filter_span c) as [[??]|].
Qed.

Lemma publish_chunks_lookup dumps params cs i c :
  cs !! i = Some c →
  ∃ p,
    publish_chunks dumps params cs !! i
    = Some (basic_publish QUEUE_NAME (dumps (VDict p)) true)
    ∧ dict_get p "first" = Some (VStr (first c))
    ∧ dict_get p "last" = Some (VStr (last c))
    ∧ (∀ ff fl, filter_span c = Some (ff, fl) →
         dict_get p "filter_first" = Some (VStr ff)
         ∧ dict_get p "filter_last" = Some (VStr fl))
    ∧ ∀ k, k ∉ ["first"; "last"; "filter_first"; "filter_last"] →
           dict_get p k = dict_get params k.
Proof.
  revert params i. induction cs as [|c0 cs IH]; intros params i Hi; [done|].
  destruct i as [|i]; simpl in Hi |- *.
  - injection Hi as ->. eexists. split; [done|].
    split; [apply update_chunk_first|]. split; [apply update_chunk_last|].
    split; [apply update_chunk_filter|]. apply update_chunk_other.
  - destruct (IH (update params (chunk_items c0)) i Hi)
      as (p & Hp & Hfirst & Hlast & Hfilter & Hother).
    exists p. split; [done|]. split; [done|]. split; [done|]. split; [done|].
    intros k Hk. rewrite (Hother k Hk). by apply update_chunk_other.
Qed.

Lemma publish_chunks_length dumps params cs :
  length (publish_chunks dumps params cs) = length cs.
Proof.
  revert params. induction cs as [|c cs IH]; intros params; simpl; [done|].
  by rewrite IH.
Qed.

Lemma publish_chunks_all_publish dumps params cs :
  filter (λ op, is_publish op = true) (publish_chunks dumps params cs)
  = publish_chunks dumps params cs.
Proof.
  revert params. induction cs as [|c cs IH]; intros params; simpl; [done|].
  rewrite filter_cons_True by done. by rewrite IH.
Qed.

(** X8. [run_halted_queue] publishes one persistent message on the work
    queue per chunk the cache check returned, in their order and nothing
    else. The message of a chunk carries that chunk's [first] and [last]
    (and its filter range, if it has one); every other parameter is as the
    stage set it. *)
Theorem one_message_per_missing_chunk dumps st initial_count ticks params
    chunks missing :
  _get_missing_chunks st params chunks = Ret missing →
  filter (λ op, is_publish op = true)
    (ops (run_halted_queue dumps st initial_count ticks params chunks))
  = publish_chunks dumps params missing
  ∧ length (publish_chunks dumps params missing) = length missing
  ∧ ∀ i c,
      missing !! i = Some c →
      ∃ p,
        publish_chunks dumps params missing !! i
        = Some (basic_publish QUEUE_NAME (dumps (VDict p)) true)
        ∧ dict_get p "first" = Some (VStr (first c))
        ∧ dict_get p "last" = Some (VStr (last c))
        ∧ (∀ ff fl, filter_span c = Some (ff, fl) →
             dict_get p "filter_first" = Some (VStr ff)
             ∧ dict_get p "filter_last" = Some (VStr fl))
        ∧ ∀ k, k ∉ ["first"; "last"; "filter_first"; "filter_last"] →
               dict_get p k = dict_get params k.
Proof.
  intros Hmissing. split; [|split].
  - unfold run_halted_queue. rewrite Hmissing.
    destruct missing as [|c missing]; [done|].
    cbn [length Nat.eqb].
    destruct (wait_loop _ initial_count None ticks) as [n r]. cbn [ops].
    rewrite !filter_app, publish_chunks_all_publish. simpl.
    by rewrite app_nil_r.
  - apply publish_chunks_length.
  - intros i c Hi. by apply publish_chunks_lookup.
Qed.

End Publishing.

(** ** The end of the wait loop *)

Module Waiting.

Import Config Network Pika Pipeline Worker Vocabulary Notions FrameNames
  CacheChecker Liveness.

(** X9. The wait loop ends with the sample that shows as many completions
    as chunks were dispatched, and reads no sample after it. The no-worker
    test of that iteration still runs first: if the sample shows no consumer
    and the timer has run out, the loop raises although the work is done. *)
Theorem wait_loop_ends_on_last_completion dispatched qs nwp pre t rest n qs'
    nwp' :
  wait_loop dispatched qs nwp pre = (n, Ret (Waiting qs' nwp')) →
  message_count t = dispatched →
  (consumer_count t ≠ 0
   ∨ (time_checked t - default (time_started t) nwp' <= timeout)%Q →
   wait_loop dispatched qs nwp (pre ++ t :: rest) = ((n + 1)%nat, Ret Done))
  ∧ (consumer_count t = 0 →
     (timeout < time_checked t - default (time_started t) nwp')%Q →
     wait_loop dispatched qs nwp (pre ++ t :: rest)
     = ((n + 1)%nat, Raise no_workers_error)).
Proof.
  intros Hpre Hdone.
  rewrite (wait_loop_app _ _ _ _ _ _ _ _ Hpre).
  pose proof (waiting_outstanding _ _ _ _ _ _ _ Hpre) as Hqs'.
  rewrite (wait_loop_cons _ _ _ _ _ Hqs').
  assert (Hstop : ∀ nw, wait_loop dispatched (message_count t) nw rest
                        = (0%nat, Ret Done)).
  { intros nw. destruct rest; simpl; by rewrite Hdone, Z.eqb_refl. }
  split.
  - intros Hok. destruct (consumer_count t =? 0) eqn:Hc; simpl.
    + destruct (Qlt_le_dec timeout _) as [Hlt|Hle].
      * destruct Hok as [Hne|Hle]; [apply Z.eqb_eq in Hc; done|].
        by apply Qle_not_lt in Hle.
      * rewrite Hstop. by rewrite Nat.add_comm.
    + rewrite Hstop. by rewrite Nat.add_comm.
  - intros Hc Hlt. apply Z.eqb_eq in Hc. rewrite Hc. simpl.
    destruct (Qlt_le_dec timeout _) as [?|Hle].
    + by rewrite Nat.add_comm.
    + by apply Qle_not_lt in Hle.
Qed.



End Waiting.

(** ** The jobs of the depth stage *)

Module DepthStage.

Import Config Network Pika Pipeline Worker Vocabulary Notions FrameNames
  CacheChecker DepthEstimation Dicts.

(** X11. The range a chunk is filtered over is the chunk widened by the
    time radius on both sides and cut off at the ends of the run: it holds
    every frame of the chunk, never leaves the run and reaches at most
    [time_radius] frames beyond the chunk. *)
Theorem filter_range_is_the_clamped_window post c vf vl f l r a b :
  getitem post "first" = Ret vf → int_of vf = Ret f →
  getitem post "last" = Ret vl → int_of vl = Ret l →
  getitem post "time_radius" = Ret (VInt r) →
  int (first c) = Ret a → int (last c) = Ret b →
  0 ≤ f → f ≤ a → a ≤ b → b ≤ l → 0 ≤ r →
  ∃ ff fl,
    filter_range post c
    = Ret {| first := first c; last := last c; filter_span := Some (ff, fl) |}
    ∧ int ff = Ret (Z.max f (a - r))
    ∧ int fl = Ret (Z.min l (b + r))
    ∧ f ≤ Z.max f (a - r) ≤ a
    ∧ b ≤ Z.min l (b + r) ≤ l
    ∧ a - Z.max f (a - r) ≤ r
    ∧ Z.min l (b + r) - b ≤ r.
Proof.
  intros Hvf Hf Hvl Hl Hr Ha Hb H0 Hfa Hab Hbl Hr0.
  eexists _, _. split.
  - unfold filter_range. rewrite Hvf. simpl. rewrite Hf. simpl.
    rewrite Ha. simpl. rewrite Hr. simpl. rewrite Hvl. simpl. rewrite Hl.
    simpl. rewrite Hb. simpl. reflexivity.
  - split; [apply int_get_frame_name; lia|].
    split; [apply int_get_frame_name; lia|]. lia.
Qed.

Lemma index_WIDTHS_cases j w :
  index WIDTHS j = Ret w → 0 ≤ j →
  (j = 0 ∧ w = 2048) ∨ (j = 1 ∧ w = 1024) ∨ (j = 2 ∧ w = 512)
  ∨ (j = 3 ∧ w = 256) ∨ (j = 4 ∧ w = 200) ∨ (j = 5 ∧ w = 128)
  ∨ (j = 6 ∧ w = 100) ∨ (j = 7 ∧ w = 80) ∨ (j = 8 ∧ w = 60)
  ∨ (j = 9 ∧ w = 50).
Proof.
  intros H Hj. unfold index in H.
  destruct (j <? 0) eqn:E; [apply Z.ltb_lt in E; lia|]. rewrite E in H.
  destruct (Z.to_nat j) as [|[|[|[|[|[|[|[|[|[|k]]]]]]]]]] eqn:Ek;
    simpl in H; try discriminate; injection H as <-; lia.
Qed.

(** X12. Left to choose ([level_end = -1]), the stage ends at the finest
    level whose width the resolution reaches: the width of the end level is
    at most the resolution and every finer level is wider than it. A
    resolution under the smallest width, 50, leaves [end_level] unassigned
    and the stage stops with [UnboundLocalError] at its first use, before
    any job is sent.
    [level_start = -1] stands for the coarsest level, 9. *)
Theorem end_level_is_finest_within_resolution self post ls res fr :
  post_resize_params_of (base_params self) = Ret post →
  getitem post "level_start" = Ret (VInt ls) →
  getitem post "level_end" = Ret (VInt (-1)) →
  getitem post "resolution" = Ret (VInt res) →
  filter_ranges_of post (frame_chunks self) = Ret fr →
  (50 ≤ res →
   ∃ e w,
     depth_plan self = Ret (post, fr, (if ls =? -1 then 9 else ls), e)
     ∧ 0 ≤ e ∧ index WIDTHS e = Ret w ∧ w ≤ res
     ∧ ∀ j w', 0 ≤ j < e → index WIDTHS j = Ret w' → res < w')
  ∧ (res < 50 →
     depth_plan self = Raise UnboundLocalError
     ∧ ∀ cb, coarsest_batch_levels self = Ret cb →
             depth_estimation self = Raise UnboundLocalError).
Proof.
  intros Hpost Hls Hle Hres Hfr.
  assert (Hplan : depth_plan self
                  = end_level ← from_option Ret (Raise UnboundLocalError)
                                  (first_level_within res 0 WIDTHS);
                    Ret (post, fr, (if ls =? -1 then 9 else ls), end_level)).
  { unfold depth_plan. rewrite Hpost. simpl. rewrite Hls. simpl.
    rewrite Hle. simpl. rewrite Hres. simpl. rewrite Hfr. simpl.
    by destruct (ls =? -1). }
  split.
  - intros Hbig. rewrite Hplan. unfold WIDTHS at 1. cbn [first_level_within].
    repeat match goal with
    | |- context [?w <=? res] =>
        destruct (Z.leb_spec w res);
        [ eexists _, _; split; [reflexivity|]; split; [lia|];
          split; [reflexivity|]; split; [lia|];
          intros j w' Hj Hw';
          apply index_WIDTHS_cases in Hw'; [|lia]; lia
        | ]
    end.
    lia.
  - intros Hsmall.
    assert (depth_plan self = Raise UnboundLocalError) as Hraise.
    { rewrite Hplan. unfold WIDTHS. cbn [first_level_within].
      repeat match goal with
      | |- context [?w <=? res] => destruct (Z.leb_spec w res); [lia|]
      end.
      done. }
    split; [done|]. intros cb _.
    unfold depth_estimation, depth_estimation_parts. by rewrite Hraise.
Qed.

Lemma transfer_params_forced post level st chunks :
  _get_missing_chunks st
    (update post
       [ ("app", VStr "Transfer");
         ("src_level", VInt level);
         ("src_image_type", VStr "disparity_time_filtered");
         ("dst_level", VInt level);
         ("dst_image_type", VStr "disparity");
         ("force_recompute", VBool true) ]) chunks
  = Ret chunks.
Proof.
  unfold _get_missing_chunks, getitem. by rewrite !dict_get_update.
Qed.

(** X13. The transfer job that follows the temporal filter of a level is
    sent for every chunk, whatever the destination holds: it sets
    [force_recompute], so the cache check hands back the whole chunk list.
    With temporal filtering on, it is the last of the three jobs of the
    level and runs over the chunks of the run. *)
Theorem level_transfer_skips_the_cache self post filter_ranges end_level level
    ds :
  level_dispatches self post filter_ranges end_level level = Ret ds →
  (∀ d, d ∈ ds → dict_get d.1 "app" = Some (VStr "Transfer") →
     d.2 = frame_chunks self
     ∧ ∀ st chunks, _get_missing_chunks st d.1 chunks = Ret chunks)
  ∧ (∀ v, getitem post "do_temporal_filter" = Ret v → truthy v = true →
     ∃ depth filt transfer,
       ds = [depth; filt; transfer]
       ∧ dict_get transfer.1 "app" = Some (VStr "Transfer")
       ∧ dict_get filt.1 "app" = Some (VStr "TemporalBilateralFilter")
       ∧ filt.2 = filter_ranges)
  ∧ (∀ v, getitem post "do_temporal_filter" = Ret v → truthy v = false →
     length ds = 1%nat).
Proof.
  unfold level_dispatches.
  destruct (getitem _ "disparity_type") as [dt|]; [|done]. simpl.
  destruct (getitem post "do_temporal_filter") as [tf|]; [|done]. simpl.
  destruct (truthy tf) eqn:Htf.
  - destruct (getitem post "do_temporal_masking") as [tm|]; [|done]. simpl.
    intros [= <-]. split; [|split].
    + intros d Hd Happ.
      rewrite !elem_of_cons, elem_of_nil in Hd.
      destruct Hd as [-> | [-> | [-> | []]]]; cbn [fst snd] in Happ |- *.
      * repeat (rewrite dict_get_setitem in Happ; simpl in Happ). discriminate.
      * repeat (rewrite dict_get_setitem in Happ; simpl in Happ). discriminate.
      * split; [done|]. intros st chunks.
        exact (transfer_params_forced post level st chunks).
    + intros v [= <-] _. eexists _, _, _. split; [done|].
      cbn [fst snd]. by repeat (rewrite dict_get_setitem; simpl).
    + intros v [= <-] Hv. congruence.
  - intros [= <-]. split; [|split].
    + intros d ->%list_elem_of_singleton Happ. cbn [fst] in Happ.
      repeat (rewrite dict_get_setitem in Happ; simpl in Happ). discriminate.
    + intros v [= <-] Hv. congruence.
    + done.
Qed.


End DepthStage.

(** ** The handlers of the worker *)

Module Handlers.

Import Config Network Pika Pipeline Worker Vocabulary Notions FrameNames
  CacheChecker DepthEstimation Dicts Texts.

(** Two prefixes of one string: one is a prefix of the other. *)
Lemma startswith_comparable s a b :
  startswith s a = true → startswith s b = true →
  startswith a b = true ∨ startswith b a = true.
Proof.
  revert a b. induction s as [|c s IH]; intros a b Ha Hb.
  - destruct a; [|done]. right. apply startswith_nil.
  - destruct a as [|x a]; [right; apply startswith_nil|].
    destruct b as [|y b]; [left; apply startswith_nil|].
    simpl in Ha, Hb.
    apply andb_true_iff in Ha as [Hx Ha]. apply andb_true_iff in Hb as [Hy Hb].
    apply Ascii.eqb_eq in Hx as <-. apply Ascii.eqb_eq in Hy as <-.
    simpl. rewrite Ascii.eqb_refl. simpl. by apply IH.
Qed.

Lemma prefix_free_spec names n1 n2 :
  prefix_free names = true → n1 ∈ names → n2 ∈ names →
  startswith n1 n2 = true → n1 = n2.
Proof.
  unfold prefix_free. rewrite forallb_forall. intros H H1 H2 Hs.
  apply list_elem_of_In in H1, H2. specialize (H n1 H1).
  rewrite forallb_forall in H. specialize (H n2 H2).
  rewrite Hs in H. simpl in H. by apply String.eqb_eq.
Qed.

Section dispatch.

Variable run_callback : string → value → result unit.

Lemma run_first_match_among names l msg app name :
  prefix_free names = true →
  msg_app msg = Ret app →
  (∀ n, n ∈ l → n ∈ names) → name ∈ names →
  name ∈ l → startswith app name = true →
  run_first_match run_callback l msg = run_callback name msg.
Proof.
  intros Hfree Happ Hsub Hname' Hname Hstart.
  induction l as [|n l IH].
  - by apply elem_of_nil in Hname.
  - simpl. rewrite Happ. simpl.
    destruct (startswith app n) eqn:En.
    + assert (n = name) as ->; [|done].
      assert (Hn : n ∈ names) by (apply Hsub; left).
      destruct (startswith_comparable app n name En Hstart) as [H|H].
      * by apply (prefix_free_spec names).
      * symmetry. by apply (prefix_free_spec names).
    + apply elem_of_cons in Hname as [->|Hname]; [congruence|].
      apply IH; [|done]. intros n' Hn'. apply Hsub. by right.
Qed.

Lemma run_first_match_by_prefix names msg app name :
  prefix_free names = true →
  msg_app msg = Ret app →
  name ∈ names → startswith app name = true →
  run_first_match run_callback names msg = run_callback name msg.
Proof. intros. by apply (run_first_match_among names names msg app). Qed.

Lemma run_first_match_no_prefix names msg app :
  msg_app msg = Ret app →
  Forall (λ name, startswith app name = false) names →
  run_first_match run_callback names msg = Ret tt.
Proof.
  intros Happ Hall. induction Hall as [|n l Hn Hall IH]; [done|].
  simpl. rewrite Happ. simpl. by rewrite Hn.
Qed.

End dispatch.

Lemma app_names_prefix_free : prefix_free app_names = true.
Proof. vm_compute. reflexivity. Qed.

(** X15. The handler of a job is chosen by prefix and the choice does not
    depend on the order of the table: no handler name starts with another,
    so for a message whose [app] starts with a name of the table, the
    handler under that name is the one that runs, and the only one. *)
Theorem handler_is_chosen_by_prefix run_callback msg app name :
  msg_app msg = Ret app →
  name ∈ app_names → startswith app name = true →
  run_first_match run_callback app_names msg = run_callback name msg
  ∧ ∀ other, other ∈ app_names → startswith app other = true → other = name.
Proof.
  intros Happ Hname Hstart. split.
  - by apply (run_first_match_by_prefix run_callback app_names msg app).
  - intros other Hother Hstart'.
    destruct (startswith_comparable app other name Hstart' Hstart) as [H|H].
    + by apply (prefix_free_spec app_names).
    + symmetry. by apply (prefix_free_spec app_names).
Qed.

(** X16. Messages no handler runs for. A message whose [app] starts with
    none of the nine handler names runs nothing and is answered like a
    finished job: acknowledged, with one [Completed!] on the response queue.
    A message from which [app] cannot be read takes the failure path and is
    published again as it is. *)
Theorem messages_without_a_handler loads dumps run_callback is_open
    delivery_tag body msg :
  loads body = Ret msg →
  (∀ app,
     msg_app msg = Ret app →
     Forall (λ name, startswith app name = false) app_names →
     handle_message loads dumps run_callback is_open delivery_tag body
     = Ret (success is_open delivery_tag)
     ∧ success true delivery_tag
       = [ basic_ack delivery_tag; queue_declare RESPONSE_QUEUE_NAME;
           basic_publish RESPONSE_QUEUE_NAME "Completed!" false ])
  ∧ (∀ e,
       msg_app msg = Raise e →
       handle_message loads dumps run_callback is_open delivery_tag body
       = Ret (failure dumps is_open delivery_tag msg)
       ∧ republished (failure dumps true delivery_tag msg) = [dumps msg]).
Proof.
  intros Hloads. split.
  - intros app Happ Hnone. split; [|done].
    unfold handle_message. rewrite Hloads. cbv [mbind result_bind].
    by rewrite (run_first_match_no_prefix run_callback app_names msg app).
  - intros e He. split; [|done].
    unfold handle_message. rewrite Hloads. cbv [mbind result_bind].
    unfold app_names. cbn [run_first_match]. rewrite He. done.
Qed.

Lemma handled_app (p : dict) cs app name :
  dict_get p "app" = Some (VStr app) → name ∈ depth_handlers →
  startswith app name = true → handled (p, cs).
Proof. intros. by exists app, name. Qed.

Ltac dict_get_eval := repeat (rewrite dict_get_setitem; simpl).

Ltac in_handlers := unfold depth_handlers; rewrite !elem_of_cons; tauto.

Lemma level_dispatches_handled self post fr e level ds :
  level_dispatches self post fr e level = Ret ds → Forall handled ds.
Proof.
  unfold level_dispatches.
  destruct (getitem _ "disparity_type") as [dt|]; [|done]. simpl.
  destruct (getitem post "do_temporal_filter") as [tf|]; [|done]. simpl.
  destruct (truthy tf).
  - destruct (getitem post "do_temporal_masking") as [tm|]; [|done]. simpl.
    intros [= <-]. repeat constructor.
    + eapply (handled_app _ _ _ "DerpCLI"); [by dict_get_eval|in_handlers|done].
    + eapply (handled_app _ _ _ "TemporalBilateralFilter");
        [by dict_get_eval|in_handlers|done].
    + eapply (handled_app _ _ _ "Transfer"); [by dict_get_eval|in_handlers|done].
  - intros [= <-]. repeat constructor.
    eapply (handled_app _ _ _ "DerpCLI"); [by dict_get_eval|in_handlers|done].
Qed.

Lemma levels_dispatches_handled self post fr e levels ds :
  levels_dispatches self post fr e levels = Ret ds → Forall handled ds.
Proof.
  revert ds. induction levels as [|level levels IH]; intros ds; simpl.
  - intros [= <-]. constructor.
  - destruct (level_dispatches self post fr e level) as [d1|] eqn:E1; [|done].
    simpl.
    destruct (levels_dispatches self post fr e levels) as [d2|]; [|done].
    simpl. intros [= <-]. apply Forall_app. split.
    + by eapply level_dispatches_handled.
    + by apply IH.
Qed.

Lemma coarsest_batch_dispatch_handled self post s e batch s' :
  coarsest_batch_dispatch self post s e = Ret (batch, s') →
  Forall handled batch.
Proof.
  unfold coarsest_batch_dispatch.
  destruct (int_of _) as [cb|]; [|done]. simpl.
  destruct (0 <? cb); [|by intros [= <- <-]].
  destruct (_ <=? s); [|by intros [= <- <-]].
  destruct (getitem _ "disparity_type") as [dt|]; [|done]. simpl.
  intros [= <- <-]. repeat constructor.
  eapply (handled_app _ _ _ "DerpCLI"); [by dict_get_eval|in_handlers|done].
Qed.

Lemma level_pass_handled self post fr s e pass s' :
  level_pass self post fr s e = Ret (pass, s') → Forall handled pass.
Proof.
  unfold level_pass.
  destruct (coarsest_batch_dispatch self post s e) as [[batch s1]|] eqn:E1;
    [|done].
  simpl.
  destruct (levels_dispatches self post fr e _) as [ds|] eqn:E2; [|done].
  simpl. intros [= <- <-]. apply Forall_app. split.
  - by eapply coarsest_batch_dispatch_handled.
  - by eapply levels_dispatches_handled.
Qed.

Lemma final_dispatches_handled self post e final :
  final_dispatches self post e = Ret final → Forall handled final.
Proof.
  unfold final_dispatches.
  destruct (getitem post "resolution" ≫= as_int) as [res|]; [|done]. simpl.
  destruct (index WIDTHS e) as [w|]; [|done]. simpl.
  destruct (getitem post "disparity_type") as [dt|]; [|done]. simpl.
  destruct (w <? res).
  - simpl.
    destruct (if eq_str dt "background_disp" then _ else _) as [cs|]; [|done].
    simpl. intros [= <-]. repeat constructor.
    + eapply (handled_app _ _ _ "UpsampleDisparity");
        [by dict_get_eval|in_handlers|done].
    + eapply (handled_app _ _ _ "Transfer"); [by dict_get_eval|in_handlers|done].
  - intros [= <-]. repeat constructor.
    eapply (handled_app _ _ _ "Transfer"); [by dict_get_eval|in_handlers|done].
Qed.

(** X17. Every job the depth stage hands to [run_halted_queue] finds its
    handler in the worker: its [app] starts with one of [DerpCLI],
    [TemporalBilateralFilter], [Transfer] and [UpsampleDisparity], and on
    any message with that [app], as the ones published for its chunks are,
    [handle_message] runs the handler under that name. *)
Theorem depth_jobs_reach_their_handlers self ds :
  depth_estimation self = Ret ds →
  ∀ d, d ∈ ds →
    ∃ app name,
      dict_get d.1 "app" = Some (VStr app)
      ∧ name ∈ depth_handlers ∧ name ∈ app_names
      ∧ startswith app name = true
      ∧ ∀ run_callback msg,
          dict_get msg "app" = dict_get d.1 "app" →
          run_first_match run_callback app_names (VDict msg)
          = run_callback name (VDict msg).
Proof.
  intros Hds.
  assert (Hall : Forall handled ds).
  { revert Hds. unfold depth_estimation, depth_estimation_parts.
    destruct (depth_plan self) as [[[[post fr] s] e]|]; [|done]. simpl.
    destruct (level_pass self post fr s e) as [[pass1 s1]|] eqn:E1; [|done].
    simpl.
    destruct (level_pass self post fr s1 e) as [[pass2 s2]|] eqn:E2; [|done].
    simpl.
    destruct (final_dispatches self post e) as [final|] eqn:E3; [|done].
    simpl. intros [= <-]. rewrite !Forall_app.
    split; [by eapply level_pass_handled|].
    split; [by eapply level_pass_handled|].
    by eapply final_dispatches_handled. }
  intros d Hd. rewrite Forall_forall in Hall.
  destruct (Hall d Hd) as (app & name & Happ & Hname & Hstart).
  assert (Hname' : name ∈ app_names).
  { revert Hname. unfold depth_handlers, app_names. rewrite !elem_of_cons.
    tauto. }
  exists app, name. split; [done|]. split; [done|]. split; [done|].
  split; [done|]. intros run_callback msg Hmsg.
  apply (run_first_match_by_prefix run_callback app_names _ app);
    [apply app_names_prefix_free| |done|done].
  unfold msg_app, getitem. by rewrite Hmsg, Happ.
Qed.

End Handlers.

(** ** The chunks of a run *)

Module Chunking.

Import Config Network Pika Pipeline Worker Vocabulary Notions Render
  FrameNames CacheChecker Monotonicity.

Lemma chunks_from_fmap flag_last b size a (l : list Z) :
  int flag_last = Ret b →
  chunks_from flag_last size ((λ i, a + i * size) <$> l)
  = Ret (nth_chunk a b size <$> l).
Proof.
  intros Hb. induction l as [|i l IH]; [done|].
  rewrite !fmap_cons. cbn [chunks_from]. rewrite Hb, IH. done.
Qed.

Lemma frame_chunks_of_eq flag_first flag_last size a b :
  int flag_first = Ret a → int flag_last = Ret b → 0 < size →
  frame_chunks_of flag_first flag_last size
  = Ret (nth_chunk a b size <$> seqZ 0 ((b + 1 - a + size - 1) / size)).
Proof.
  intros Ha Hb Hsize. unfold frame_chunks_of, range.
  rewrite Ha. simpl. rewrite Hb. simpl.
  destruct (size =? 0) eqn:E0; [apply Z.eqb_eq in E0; lia|].
  destruct (0 <? size) eqn:E1; [|apply Z.ltb_ge in E1; lia].
  simpl. by apply chunks_from_fmap.
Qed.

Lemma nth_chunk_in_range a b size i k :
  0 ≤ a → 0 ≤ i → 0 < size → a + i * size ≤ b →
  in_range (nth_chunk a b size i) k
  ↔ a + i * size ≤ k ≤ Z.min b (a + i * size + size - 1).
Proof.
  intros Ha Hi Hsize Hb. unfold in_range, nth_chunk. simpl.
  rewrite !int_get_frame_name by nia. split.
  - intros (a' & b' & [= <-] & [= <-] & Hk). done.
  - intros Hk. by eexists _, _.
Qed.

(** X18. The chunks [main] cuts a run into tile it: for a positive chunk
    size and frames [first ≤ last] from 0 on there are
    [(last - first) / chunk_size + 1] chunks, the [i]-th from frame
    [first + i * chunk_size] to the frame before the next chunk or to
    [last]; every frame of the run lies in one chunk and in one only, and
    no chunk holds a frame outside the run. *)
Theorem frame_chunks_tile_the_run flag_first flag_last chunk_size a b :
  int flag_first = Ret a → int flag_last = Ret b →
  0 ≤ a → a ≤ b → 0 < chunk_size →
  ∃ chunks,
    frame_chunks_of flag_first flag_last chunk_size = Ret chunks
    ∧ Z.of_nat (length chunks) = (b - a) / chunk_size + 1
    ∧ (∀ i c,
         chunks !! i = Some c →
         c = {| first := get_frame_name (a + Z.of_nat i * chunk_size);
                last := get_frame_name
                          (Z.min b (a + Z.of_nat i * chunk_size + chunk_size - 1));
                filter_span := None |})
    ∧ (∀ c, c ∈ chunks → well_formed c)
    ∧ pairwise_disjoint chunks
    ∧ ∀ k, a ≤ k ≤ b ↔ ∃ c, c ∈ chunks ∧ in_range c k.
Proof.
  intros Ha Hb Ha0 Hab Hsize.
  set (n := (b - a) / chunk_size + 1).
  assert (Hn : (b + 1 - a + chunk_size - 1) / chunk_size = n).
  { unfold n. replace (b + 1 - a + chunk_size - 1)
      with ((b - a) + 1 * chunk_size) by lia.
    by rewrite Z.div_add by lia. }
  assert (Hdiv : 0 ≤ (b - a) / chunk_size) by (apply Z.div_pos; lia).
  assert (Hmul : chunk_size * ((b - a) / chunk_size) ≤ b - a)
    by (apply Z.mul_div_le; lia).
  assert (Hlook : ∀ i c,
            (nth_chunk a b chunk_size <$> seqZ 0 n) !! i = Some c →
            c = nth_chunk a b chunk_size (Z.of_nat i) ∧ Z.of_nat i < n).
  { intros i c Hi. rewrite list_lookup_fmap in Hi.
    destruct (seqZ 0 n !! i) as [j|] eqn:Ej; [|done].
    apply lookup_seqZ in Ej as [-> Hlt]. injection Hi as <-.
    split; [f_equal; lia|lia]. }
  exists (nth_chunk a b chunk_size <$> seqZ 0 n).
  split; [rewrite (frame_chunks_of_eq _ _ _ a b Ha Hb Hsize); by rewrite Hn|].
  split; [rewrite length_fmap, length_seqZ; lia|].
  split; [intros i c Hi; by destruct (Hlook i c Hi) as [-> _]|].
  split; [|split].
  - intros c Hc. apply list_elem_of_lookup in Hc as [i Hi].
    destruct (Hlook i c Hi) as [-> Hlt].
    unfold well_formed, nth_chunk. simpl.
    rewrite !int_get_frame_name by nia. eexists _, _.
    split; [done|]. split; [done|]. nia.
  - intros i j ci cj k Hij Hi Hj Hki Hkj.
    destruct (Hlook i ci Hi) as [-> Hlti]. destruct (Hlook j cj Hj) as [-> Hltj].
    apply nth_chunk_in_range in Hki; [|lia|lia|lia|nia].
    apply nth_chunk_in_range in Hkj; [|lia|lia|lia|nia].
    assert (Z.of_nat i ≠ Z.of_nat j) by lia. nia.
  - intros k. split.
    + intros Hk. set (i := (k - a) / chunk_size).
      assert (0 ≤ i) by (apply Z.div_pos; lia).
      assert (chunk_size * i ≤ k - a) by (apply Z.mul_div_le; lia).
      assert (k - a < chunk_size * i + chunk_size).
      { pose proof (Z.mul_succ_div_gt (k - a) chunk_size Hsize). unfold i. lia. }
      assert (i ≤ (b - a) / chunk_size) by (apply Z.div_le_mono; lia).
      exists (nth_chunk a b chunk_size i). split.
      * apply list_elem_of_fmap. exists i. split; [done|].
        apply elem_of_seqZ. lia.
      * apply nth_chunk_in_range; [lia|lia|lia|nia|lia].
    + intros (c & Hc & Hk). apply list_elem_of_lookup in Hc as [i Hi].
      destruct (Hlook i c Hi) as [-> Hlt].
      apply nth_chunk_in_range in Hk; [|lia|lia|lia|nia]. nia.
Qed.

(** X19. A run that cannot be cut. A chunk size of 0 stops [main] with the
    [ValueError] of [range]; a negative chunk size, or a last frame before
    the first, gives an empty chunk list without complaint. *)
Theorem degenerate_runs_have_no_chunks flag_first flag_last chunk_size a b :
  int flag_first = Ret a → int flag_last = Ret b →
  (chunk_size = 0 →
   frame_chunks_of flag_first flag_last chunk_size = Raise ValueError)
  ∧ (chunk_size < 0 → a ≤ b →
     frame_chunks_of flag_first flag_last chunk_size = Ret [])
  ∧ (0 < chunk_size → b < a →
     frame_chunks_of flag_first flag_last chunk_size = Ret []).
Proof.
  intros Ha Hb. unfold frame_chunks_of, range. rewrite Ha. simpl.
  rewrite Hb. simpl. split; [|split].
  - by intros ->.
  - intros Hneg Hab.
    destruct (chunk_size =? 0) eqn:E0; [apply Z.eqb_eq in E0; lia|].
    destruct (0 <? chunk_size) eqn:E1; [apply Z.ltb_lt in E1; lia|].
    simpl. rewrite seqZ_nil; [done|].
    enough ((a - (b + 1) - chunk_size - 1) / - chunk_size < 1) by lia.
    apply Z.div_lt_upper_bound; lia.
  - intros Hpos Hba.
    destruct (chunk_size =? 0) eqn:E0; [apply Z.eqb_eq in E0; lia|].
    destruct (0 <? chunk_size) eqn:E1; [|apply Z.ltb_ge in E1; lia].
    simpl. rewrite seqZ_nil; [done|].
    enough ((b + 1 - a + chunk_size - 1) / chunk_size < 1) by lia.
    apply Z.div_lt_upper_bound; lia.
Qed.

End Chunking.

(** ** The striping job *)

Module Fusion.

Import Config Network Pika Pipeline Worker Vocabulary Notions Render Stages
  FrameNames CacheChecker Monotonicity Dicts Chunking.

Lemma index_from_start {A} (l : list A) i x :
  0 ≤ i → l !! Z.to_nat i = Some x → index l i = Ret x.
Proof.
  intros Hi Hx. unfold index.
  destruct (i <? 0) eqn:E; [apply Z.ltb_lt in E; lia|]. rewrite E.
  by rewrite Hx.
Qed.

Lemma index_from_end {A} (l : list A) i x :
  i < 0 → 0 ≤ Z.of_nat (length l) + i →
  l !! Z.to_nat (Z.of_nat (length l) + i) = Some x → index l i = Ret x.
Proof.
  intros Hi Hlen Hx. unfold index.
  destruct (i <? 0) eqn:E; [|apply Z.ltb_ge in E; lia].
  destruct (Z.of_nat (length l) + i <? 0) eqn:E'; [apply Z.ltb_lt in E'; lia|].
  by rewrite Hx.
Qed.

(** X20. Striping runs as one job over the whole run. With the chunks
    [main] builds, the single chunk of [fusion] goes from the first frame of
    the run to its last, whatever the chunk size, and its frame range is
    every frame of the run; the job is for the [ConvertToBinary] handler
    with conversion switched off. *)
Theorem fusion_covers_the_whole_run self flag_first flag_last chunk_size a b :
  int flag_first = Ret a → int flag_last = Ret b →
  0 ≤ a → a ≤ b → 0 < chunk_size →
  frame_chunks_of flag_first flag_last chunk_size = Ret (frame_chunks self) →
  ∃ p,
    fusion self
    = Ret (p, [ {| first := get_frame_name a; last := get_frame_name b;
                   filter_span := None |} ])
    ∧ dict_get p "app" = Some (VStr "ConvertToBinary: Striping")
    ∧ dict_get p "run_conversion" = Some (VBool false)
    ∧ dict_get p "dst_image_type" = Some (VStr "fused")
    ∧ get_frame_range (VStr (get_frame_name a)) (VStr (get_frame_name b))
      = Ret (get_frame_name <$> seqZ a (b - a + 1)).
Proof.
  intros Ha Hb Ha0 Hab Hsize Hchunks.
  rewrite (frame_chunks_of_eq _ _ _ a b Ha Hb Hsize) in Hchunks.
  injection Hchunks as Hchunks.
  set (n := (b - a) / chunk_size + 1).
  assert (Hn : (b + 1 - a + chunk_size - 1) / chunk_size = n).
  { unfold n. replace (b + 1 - a + chunk_size - 1)
      with ((b - a) + 1 * chunk_size) by lia.
    by rewrite Z.div_add by lia. }
  rewrite Hn in Hchunks.
  assert (Hdiv : 0 ≤ (b - a) / chunk_size) by (apply Z.div_pos; lia).
  assert (Hlt : b - a < chunk_size * ((b - a) / chunk_size) + chunk_size).
  { pose proof (Z.mul_succ_div_gt (b - a) chunk_size Hsize). lia. }
  assert (H0 : index (frame_chunks self) 0 = Ret (nth_chunk a b chunk_size 0)).
  { apply index_from_start; [lia|].
    rewrite <- Hchunks, list_lookup_fmap.
    rewrite (proj2 (lookup_seqZ 0 n (Z.to_nat 0) 0)); [done|]. lia. }
  assert (HN : index (frame_chunks self) (-1)
               = Ret (nth_chunk a b chunk_size (n - 1))).
  { rewrite <- Hchunks.
    apply index_from_end; rewrite ?length_fmap, ?length_seqZ; [lia|lia|].
    rewrite list_lookup_fmap.
    rewrite (proj2 (lookup_seqZ 0 n _ (n - 1))); [done|]. lia. }
  eexists. split.
  - unfold fusion. rewrite H0, HN. simpl.
    do 3 f_equal. f_equal.
    + f_equal. lia.
    + f_equal. unfold n. lia.
  - repeat (rewrite dict_get_setitem; simpl).
    split; [done|]. split; [done|]. split; [done|].
    unfold get_frame_range. simpl.
    rewrite !int_get_frame_name by lia. simpl.
    do 3 f_equal. lia.
Qed.

End Fusion.

(** ** Listing the object store *)

Module ListingFacts.

Import Config Network Pika Pipeline Worker Vocabulary Notions Listing
  FrameNames CacheChecker FileNames Monotonicity Addresses Texts.

Lemma split_char_nonempty sep s : split_char sep s ≠ [].
Proof.
  induction s as [|c s IH]; simpl; [done|].
  destruct (Ascii.eqb c sep); [done|]. by destruct (split_char sep s).
Qed.

Lemma split_char_all p sep s :
  all_chars p s = true → Forall (λ w, all_chars p w = true) (split_char sep s).
Proof.
  induction s as [|c s IH]; simpl; intros H.
  - by repeat constructor.
  - apply andb_true_iff in H as [Hc Hs]. specialize (IH Hs).
    destruct (Ascii.eqb c sep).
    + by constructor.
    + destruct (split_char sep s) as [|h t]; [by repeat constructor; simpl; rewrite Hc|].
      inversion IH; subst. constructor; [|done]. simpl. by rewrite Hc.
Qed.

Lemma split_char_no_sep sep s :
  Forall (λ w, all_chars (λ c, negb (Ascii.eqb c sep)) w = true)
    (split_char sep s).
Proof.
  induction s as [|c s IH]; simpl.
  - by repeat constructor.
  - destruct (Ascii.eqb c sep) eqn:E.
    + by constructor.
    + destruct (split_char sep s) as [|h t]; [by repeat constructor; simpl; rewrite E|].
      inversion IH; subst. constructor; [|done]. simpl. by rewrite E.
Qed.

Lemma split_char_whole sep s :
  all_chars (λ c, negb (Ascii.eqb c sep)) s = true → split_char sep s = [s].
Proof.
  induction s as [|c s IH]; simpl; [done|].
  intros [Hc Hs]%andb_true_iff. apply negb_true_iff in Hc. rewrite Hc.
  by rewrite (IH Hs).
Qed.

Lemma split_char_app sep a b :
  all_chars (λ c, negb (Ascii.eqb c sep)) a = true →
  split_char sep (a +:+ String sep b) = a :: split_char sep b.
Proof.
  induction a as [|c a IH]; simpl.
  - intros _. by rewrite Ascii.eqb_refl.
  - intros [Hc Ha]%andb_true_iff. apply negb_true_iff in Hc. rewrite Hc.
    by rewrite (IH Ha).
Qed.

Lemma last_Forall {A} (P : A → Prop) (l : list A) x :
  Forall P l → list.last l = Some x → P x.
Proof.
  intros Hall Hlast. rewrite Forall_forall in Hall. apply Hall.
  apply last_Some in Hlast as [l' ->]. apply elem_of_app. right. by left.
Qed.

(** A word of a line has no blank and inherits what holds of the line's
    characters. *)
Lemma last_word_chars p line :
  all_chars p line = true →
  all_chars (λ c, negb (Ascii.eqb c " ") && p c) (last_word line) = true.
Proof.
  intros Hp. unfold last_word.
  destruct (list.last (split_char " " line)) as [w|] eqn:E; [|done]. simpl.
  pose proof (last_Forall _ _ _ (split_char_all p " " line Hp) E) as H1.
  pose proof (last_Forall _ _ _ (split_char_no_sep " " line) E) as H2.
  simpl in H1, H2. clear E. induction w as [|c w IH]; [done|].
  simpl in *. apply andb_true_iff in H1 as [? ?].
  apply andb_true_iff in H2 as [? ?]. rewrite IH by done.
  by repeat (apply andb_true_iff; split).
Qed.

(** X21. On the object store [listdir] never raises: a failed command gives
    the empty set. Otherwise it gives the last word of each line of the
    output, so no name in the result is empty or holds a blank or a line
    break, and every name is the last word of some line. *)
Theorem s3_listing_never_raises run_command local_listing src recursive remote :
  Address_init src = Ret remote → is_s3 remote = true →
  ∃ files,
    listdir run_command local_listing src recursive = Ret files
    ∧ ("" ∉ files)
    ∧ (∀ f, f ∈ files → all_chars visible f = true)
    ∧ (∀ e, run_command (listdir_cmd src recursive) = Raise e → files = ∅)
    ∧ (∀ raw_output,
         run_command (listdir_cmd src recursive) = Ret raw_output →
         ∀ f, f ∈ files ↔
              f ≠ "" ∧ ∃ line, line ∈ split_char newline raw_output
                               ∧ f = last_word line).
Proof.
  intros Hremote Hs3. unfold listdir. rewrite Hremote. simpl. rewrite Hs3.
  destruct (run_command (listdir_cmd src recursive)) as [raw|e] eqn:Erun.
  - eexists. split; [done|].
    assert (Hmem : ∀ f, f ∈ filter (λ f, f ≠ "")
                          (list_to_set (C := gset string)
                             (last_word <$> split_char newline raw))
                        ↔ f ≠ "" ∧ ∃ line, line ∈ split_char newline raw
                                           ∧ f = last_word line).
    { intros f. rewrite elem_of_filter, elem_of_list_to_set, list_elem_of_fmap.
      split; intros [? (line & ? & ?)]; (split; [done|]); by exists line. }
    split; [|split; [|split]].
    + intros [H _]%Hmem. done.
    + intros f [_ (line & Hline & ->)]%Hmem.
      pose proof (split_char_no_sep newline raw) as Hall.
      rewrite Forall_forall in Hall. specialize (Hall line Hline).
      simpl in Hall. by apply last_word_chars in Hall.
    + intros e' [=].
    + intros raw' [= <-]. exact Hmem.
  - eexists. split; [done|]. split; [set_solver|]. split; [set_solver|].
    split; [done|]. intros raw' [=].
Qed.

(** X22. A recursive listing of the object store is asked for with the
    option glued to the path: for a path without blanks the command has
    four words, [aws], [s3], [ls] and the path followed by a slash (if it
    had none) and by [--recursive]; no word of it is the option. *)
Theorem recursive_option_is_glued_to_the_path src :
  all_chars (λ c, negb (Ascii.eqb c " ")) src = true →
  split_char " " (listdir_cmd src true)
  = [ "aws"; "s3"; "ls";
      (if endswith_slash src then src else src +:+ "/") +:+ "--recursive" ]
  ∧ ("--recursive" ∉ split_char " " (listdir_cmd src true))
  ∧ split_char " " (listdir_cmd src false)
    = [ "aws"; "s3"; "ls"; if endswith_slash src then src else src +:+ "/" ].
Proof.
  intros Hsrc.
  set (dir := if endswith_slash src then src else src +:+ "/").
  assert (Hdir : all_chars (λ c, negb (Ascii.eqb c " ")) dir = true).
  { unfold dir. destruct (endswith_slash src); [done|].
    rewrite all_chars_app, Hsrc. done. }
  assert (Hcmd : ∀ tail,
            all_chars (λ c, negb (Ascii.eqb c " ")) tail = true →
            split_char " " ("aws s3 ls " +:+ dir +:+ tail)
            = ["aws"; "s3"; "ls"; dir +:+ tail]).
  { intros tail Htail.
    change ("aws s3 ls " +:+ dir +:+ tail)
      with ("aws" +:+ String " " ("s3" +:+ String " " ("ls" +:+ String " " (dir +:+ tail)))).
    rewrite !split_char_app by done.
    rewrite split_char_whole; [done|]. by rewrite all_chars_app, Hdir, Htail. }
  assert (H1 : listdir_cmd src true = "aws s3 ls " +:+ dir +:+ "--recursive").
  { unfold listdir_cmd, dir. destruct (endswith_slash src); simpl;
      by rewrite ?append_assoc. }
  assert (H2 : listdir_cmd src false = "aws s3 ls " +:+ dir +:+ "").
  { unfold listdir_cmd, dir. destruct (endswith_slash src); simpl;
      by rewrite ?append_nil_r. }
  rewrite H1, H2, !Hcmd by done. rewrite append_nil_r.
  split; [done|]. split; [|done].
  rewrite !not_elem_of_cons. repeat split; try done.
  - intros Heq. apply (f_equal String.length) in Heq.
    rewrite length_append in Heq. simpl in Heq.
    assert (String.length dir ≠ 0%nat); [|lia].
    unfold dir. destruct (endswith_slash src) eqn:E.
    + destruct src; [done|]. simpl. lia.
    + rewrite length_append. simpl. lia.
  - apply not_elem_of_nil.
Qed.

End ListingFacts.

(** ** Downloads from the object store *)

Module Transfers.

Import Config Network Pika Pipeline Worker Vocabulary Notions FrameNames
  CacheChecker FileNames Monotonicity Downloads Addresses ListingFacts Texts.

Lemma netop_helper_all netop src dst fns oks completed :
  Forall2 (λ fn ok, (netop (path_join src fn) (path_join dst fn)).2 = Ret ok)
    fns oks →
  _netop_helper netop src dst fns completed
  = (mjoin ((λ fn, (netop (path_join src fn) (path_join dst fn)).1) <$> fns),
     Ret (completed && forallb id oks)).
Proof.
  intros Hall. revert completed.
  induction Hall as [|fn ok fns oks Hfn Hall IH]; intros completed.
  - simpl. by rewrite andb_true_r.
  - cbn [_netop_helper]. rewrite (io_bind_ret _ _ _ Hfn), IH. simpl.
    by rewrite andb_assoc.
Qed.

(** X23. [_netop_helper] tries every file: a transfer that reports failure
    does not keep the later ones from being made. Its events are those of
    all the transfers in order, and its result is the conjunction of
    theirs. *)
Theorem netop_helper_tries_every_file netop src dst fns oks :
  Forall2 (λ fn ok, (netop (path_join src fn) (path_join dst fn)).2 = Ret ok)
    fns oks →
  _netop_helper netop src dst fns true
  = (mjoin ((λ fn, (netop (path_join src fn) (path_join dst fn)).1) <$> fns),
     Ret (forallb id oks)).
Proof. intros Hall. by rewrite (netop_helper_all _ _ _ _ oks). Qed.

(** *** Addresses of the files below a directory *)

Lemma strip_prefix_app sep s r x :
  strip_prefix sep s = Some r → strip_prefix sep (s +:+ x) = Some (r +:+ x).
Proof.
  revert s. induction sep as [|c sep IH]; intros s; simpl.
  - by intros [= ->].
  - destruct s as [|d s]; [done|]. simpl.
    destruct (Ascii.eqb d c); [apply IH|done].
Qed.

Lemma strip_prefix_None_app sep s x :
  strip_prefix sep s = None → (String.length sep ≤ String.length s)%nat →
  strip_prefix sep (s +:+ x) = None.
Proof.
  revert s. induction sep as [|c sep IH]; intros s; simpl; [done|].
  destruct s as [|d s]; simpl; [lia|].
  destruct (Ascii.eqb d c); [|done]. intros H Hlen. apply IH; [done|lia].
Qed.

Lemma split_once_app sep s x b a :
  split_once sep s = Some (b, a) →
  split_once sep (s +:+ x) = Some (b, a +:+ x).
Proof.
  revert b. induction s as [|c s IH]; intros b.
  - simpl. destruct (strip_prefix sep "") as [r|] eqn:E; [|done].
    intros [= <- <-]. destruct sep; [|done]. injection E as <-.
    simpl. by destruct x.
  - cbn [split_once]. destruct (strip_prefix sep (String c s)) as [r|] eqn:E.
    + intros [= <- <-]. rewrite append_cons.
      cbn [split_once]. rewrite <- append_cons.
      by rewrite (strip_prefix_app _ _ _ x E).
    + destruct (split_once sep s) as [[b' a']|] eqn:E'; [|done].
      intros [= <- <-]. rewrite append_cons. cbn [split_once].
      rewrite <- append_cons. rewrite strip_prefix_None_app; [|done|].
      * by rewrite (IH _ eq_refl).
      * apply split_once_Some in E'. rewrite E'. cbn [String.length].
        rewrite !length_append. lia.
Qed.

(** A text without the separator's first character does not hold it. *)
Lemma split_once_no_colon x :
  all_chars (λ c, negb (Ascii.eqb c ":")) x = true →
  split_once "://" x = None.
Proof.
  induction x as [|c x IH]; [done|].
  simpl. intros [Hc Hx]%andb_true_iff. apply negb_true_iff in Hc.
  rewrite Hc. by rewrite (IH Hx).
Qed.

Lemma endswith_slash_cons c s :
  s ≠ "" → endswith_slash (String c s) = endswith_slash s.
Proof. by destruct s. Qed.

(** Appending a text without [":"] to one without ["://"] gives none,
    unless the two meet in one. *)
Lemma split_once_none_app rest x :
  split_once "://" rest = None →
  all_chars (λ c, negb (Ascii.eqb c ":")) x = true →
  startswith x "/" = false
  ∨ (startswith x "//" = false ∧ endswith_slash rest = false) →
  split_once "://" (rest +:+ x) = None.
Proof.
  intros Hrest Hx Hmeet. induction rest as [|c r IH].
  - by apply split_once_no_colon.
  - cbn [split_once] in Hrest.
    destruct (strip_prefix "://" (String c r)) as [?|] eqn:E; [done|].
    destruct (split_once "://" r) as [[??]|] eqn:E'; [done|].
    assert (Hstart2 : startswith x "//" = false).
    { destruct Hmeet as [H|[H _]]; [|done].
      destruct x as [|d x]; [done|]. simpl in H |- *.
      destruct (Ascii.eqb d "/"); [|done].
      by rewrite startswith_nil in H. }
    assert (Hr : split_once "://" (r +:+ x) = None).
    { destruct r as [|d r'] eqn:Er; [by apply split_once_no_colon|].
      rewrite <- Er in *. apply IH; [done|].
      destruct Hmeet as [H|[H1 H2]]; [by left|]. right. split; [done|].
      rewrite endswith_slash_cons in H2; [done|by rewrite Er]. }
    rewrite append_cons. cbn [split_once]. rewrite Hr.
    assert (Hstrip : strip_prefix "://" (String c (r +:+ x)) = None).
    { simpl in E |- *. destruct (Ascii.eqb c ":") eqn:Ec; [|done].
      destruct r as [|d r'].
      - simpl. destruct x as [|x1 x']; [done|].
        simpl in Hstart2 |- *. destruct (Ascii.eqb x1 "/"); [|done].
        destruct x' as [|x2 x'']; [done|]. simpl in Hstart2 |- *.
        destruct (Ascii.eqb x2 "/"); [|done].
        by rewrite startswith_nil in Hstart2.
      - simpl in E |- *. destruct (Ascii.eqb d "/") eqn:Ed; [|done].
        destruct r' as [|e r''].
        + simpl. destruct Hmeet as [H|[_ H]].
          * destruct x as [|x1 x']; [done|]. simpl in H |- *.
            destruct (Ascii.eqb x1 "/"); [|done].
            by rewrite startswith_nil in H.
          * simpl in H. by rewrite Ed in H.
        + simpl in E |- *. by destruct (Ascii.eqb e "/"). }
    by rewrite Hstrip.
Qed.

Lemma split_once_occurs sep b a : split_once sep (b +:+ sep +:+ a) ≠ None.
Proof.
  induction b as [|c b IH].
  - simpl. assert (strip_prefix sep (sep +:+ a) = Some a) as H.
    { induction sep as [|d sep IHs]; [done|]. simpl.
      by rewrite Ascii.eqb_refl. }
    destruct (sep +:+ a); simpl in *; by rewrite H.
  - rewrite append_cons. cbn [split_once].
    destruct (strip_prefix sep _); [done|].
    by destruct (split_once sep (b +:+ sep +:+ a)) as [[??]|].
Qed.

Lemma contains_dot frame ext : contains (frame +:+ String "." ext) "." = true.
Proof.
  unfold contains.
  pose proof (split_once_occurs "." frame ext) as H.
  destruct (split_once "." (frame +:+ String "." ext)) eqn:E; [done|].
  exfalso. exact (H E).
Qed.

Lemma endswith_slash_append a p :
  p ≠ "" → endswith_slash (a +:+ p) = endswith_slash p.
Proof.
  intros Hp. induction a as [|c a IH]; [done|].
  rewrite append_cons, endswith_slash_cons; [done|].
  destruct a; [done|done].
Qed.

Lemma file_name_no_slash fn : file_name fn = true → no_slash fn = true.
Proof.
  unfold file_name, no_slash. induction fn as [|c fn IH]; [done|]. simpl.
  intros [[H1 H2]%andb_true_iff H]%andb_true_iff. by rewrite H1, IH.
Qed.

Lemma file_name_no_colon fn :
  file_name fn = true → all_chars (λ c, negb (Ascii.eqb c ":")) fn = true.
Proof.
  unfold file_name. induction fn as [|c fn IH]; [done|]. simpl.
  intros [[H1 H2]%andb_true_iff H]%andb_true_iff. by rewrite H2, IH.
Qed.

Lemma path_join_joined a fn :
  file_name fn = true → path_join a fn = a +:+ joined a fn.
Proof.
  intros Hfn. unfold path_join, joined.
  rewrite (startswith_slash_no_slash fn) by by apply file_name_no_slash.
  by destruct (String.eqb a "" || endswith_slash a).
Qed.

(** The address of a file below an object-store directory: the protocol and
    the host of the directory, and the file name as the base name of the
    path. *)
Lemma Address_init_file src remote fn :
  Address_init src = Ret remote → is_s3 remote = true →
  file_name fn = true →
  ∃ remote',
    Address_init (path_join src fn) = Ret remote'
    ∧ is_s3 remote' = true
    ∧ address remote' = path_join src fn
    ∧ basename (path remote') = fn.
Proof.
  intros Hremote Hs3 Hfn.
  rewrite (path_join_joined _ _ Hfn).
  unfold Address_init, contains in Hremote.
  destruct (split_once "://" src) as [[proto rest]|] eqn:E;
    [|injection Hremote as <-; done].
  destruct (split_once "://" rest) as [[??]|] eqn:E2; [done|].
  destruct (split_once "/" rest) as [[host p]|] eqn:E3; [|done].
  injection Hremote as <-. simpl in Hs3.
  apply split_once_Some in E as Hsrc. apply split_once_Some in E3 as Hrest.
  assert (Hrest_ne : rest ≠ "") by (rewrite Hrest; by destruct host).
  assert (Hends : endswith_slash src = endswith_slash rest).
  { rewrite Hsrc, <- append_assoc. by apply endswith_slash_append. }
  assert (Hsrc_ne : String.eqb src "" = false).
  { apply String.eqb_neq. rewrite Hsrc. destruct proto; done. }
  assert (Hnone : split_once "://" (rest +:+ joined src fn) = None).
  { apply split_once_none_app; [done| |].
    - unfold joined. destruct (_ || _); simpl; by apply file_name_no_colon.
    - unfold joined. rewrite Hsrc_ne. simpl.
      destruct (endswith_slash src) eqn:Es.
      + left. by apply startswith_slash_no_slash, file_name_no_slash.
      + right. split; [|by rewrite <- Hends].
        simpl. pose proof (startswith_slash_no_slash fn
                             (file_name_no_slash _ Hfn)) as H.
        destruct fn as [|c fn']; [done|]. simpl in H |- *.
        by destruct (Ascii.eqb c "/"). }
  unfold Address_init, contains.
  rewrite (split_once_app _ _ (joined src fn) _ _ E), Hnone.
  rewrite (split_once_app _ _ (joined src fn) _ _ E3).
  eexists. split; [done|]. simpl. split; [done|]. split; [done|].
  unfold joined. rewrite Hsrc_ne. simpl.
  destruct (endswith_slash src) eqn:Es.
  - unfold basename. rewrite rsplit_slash_prefix; [done| |by apply file_name_no_slash].
    destruct (decide (p = "")) as [|Hne]; [by left|]. right.
    rewrite Hends, Hrest.
    rewrite endswith_slash_append by done.
    change ("/" +:+ p) with (String "/" p).
    by rewrite endswith_slash_cons.
  - unfold basename. rewrite <- append_assoc.
    rewrite rsplit_slash_prefix; [done| |by apply file_name_no_slash].
    right. apply endswith_slash_app.
Qed.

Lemma download_file st src remote dst fn frame ext :
  Address_init src = Ret remote → is_s3 remote = true →
  fn = frame +:+ String "." ext → file_name fn = true →
  run_command_ok st ("aws s3 cp " +:+ path_join src fn +:+ " " +:+ path_join dst fn)
  = true →
  download st (path_join src fn) (path_join dst fn) []
  = ([RunCommand
        ("aws s3 cp " +:+ path_join src fn +:+ " " +:+ path_join dst fn)],
     Ret true).
Proof.
  intros Hremote Hs3 Hext Hfn Hok.
  destruct (Address_init_file src remote fn Hremote Hs3 Hfn)
    as (remote' & Hinit & Hs3' & Haddr & Hbase).
  unfold download. rewrite Hinit, io_bind_lift, Hs3', Hbase, Haddr.
  rewrite Hext at 1. rewrite contains_dot.
  unfold run_command. rewrite Hok. done.
Qed.

Lemma extract_frames_all st dst fns :
  (∀ f, tarfile_ok st f = true) →
  extract_frames st dst fns
  = ((λ fn, TarExtractAll (path_join dst fn) dst) <$> fns, Ret tt).
Proof.
  intros Hok. induction fns as [|fn fns IH]; [done|].
  cbn [extract_frames]. unfold tar_extractall at 1. rewrite Hok.
  unfold mbind at 1, io_bind at 1. simpl. by rewrite IH.
Qed.

Lemma digits_file_name s : all_chars is_digit s = true → file_name s = true.
Proof.
  unfold file_name. induction s as [|c s IH]; [done|]. simpl.
  intros [Hc Hs]%andb_true_iff. rewrite (IH Hs), andb_true_r.
  rewrite (is_digit_neq c "/" Hc eq_refl), (is_digit_neq c ":" Hc eq_refl).
  done.
Qed.

Lemma file_name_app s t :
  file_name (s +:+ t) = file_name s && file_name t.
Proof. apply all_chars_app. Qed.

Lemma netop_download_all st src remote dst l completed :
  Address_init src = Ret remote → is_s3 remote = true →
  (∀ cmd, run_command_ok st cmd = true) →
  (∀ fn, fn ∈ l → ∃ frame, fn = frame +:+ ".tar" ∧ file_name fn = true) →
  _netop_helper (λ s d, download st s d []) src dst l completed
  = ((λ fn, RunCommand ("aws s3 cp " +:+ path_join src fn +:+ " "
                        +:+ path_join dst fn)) <$> l,
     Ret completed).
Proof.
  intros Hremote Hs3 Hcmd Hl. revert completed.
  induction l as [|fn l IH]; intros completed; [done|].
  destruct (Hl fn ltac:(left)) as (frame & Hfn & Hname).
  cbn [_netop_helper].
  rewrite (io_bind_ret _ _ true);
    [|by rewrite (download_file st src remote dst fn frame "tar")].
  rewrite (download_file st src remote dst fn frame "tar") by done.
  rewrite IH by (intros fn' Hfn'; apply Hl; by right).
  rewrite fmap_cons. simpl. by rewrite andb_true_r.
Qed.

(** X24. What a download from the object store does. For frames named by
    digits, when every command and every archive goes through,
    [download_image_type] fetches the archive of each distinct frame with
    one [aws s3 cp] of that file, never a recursive copy, then unpacks each
    of them into the local directory of the image type, and returns
    [False]. *)
Theorem s3_download_fetches_then_unpacks st msg image_type frames level src
    remote dst :
  remote_image_type_path msg image_type level = Ret src →
  Address_init src = Ret remote → is_s3 remote = true →
  local_image_type_path msg image_type level = Ret dst →
  Forall (λ frame, all_chars is_digit frame = true) frames →
  (∀ cmd, run_command_ok st cmd = true) →
  (∀ f, tarfile_ok st f = true) →
  ∃ fns,
    get_frame_fns st msg frames false None = Ret fns
    ∧ (∀ fn, fn ∈ fns ↔ ∃ frame, frame ∈ frames ∧ fn = frame +:+ ".tar")
    ∧ NoDup fns
    ∧ download_image_type st msg image_type frames level
      = (((λ fn, RunCommand ("aws s3 cp " +:+ path_join src fn +:+ " "
                             +:+ path_join dst fn)) <$> fns)
         ++ ((λ fn, TarExtractAll (path_join dst fn) dst) <$> fns),
         Ret false).
Proof.
  intros Hsrc Hremote Hs3 Hdst Hframes Hcmd Htar.
  set (fns := elements (list_to_set (C := gset string)
                          ((λ frame, frame +:+ ".tar") <$> frames))).
  assert (Hmem : ∀ fn, fn ∈ fns ↔ ∃ frame, frame ∈ frames ∧ fn = frame +:+ ".tar").
  { intros fn. unfold fns.
    rewrite elem_of_elements, elem_of_list_to_set, list_elem_of_fmap.
    split; intros (frame & ? & ?); by exists frame. }
  exists fns. split; [done|]. split; [done|].
  split; [apply NoDup_elements|].
  assert (Hdown : _netop_helper (λ s d, download st s d []) src dst fns true
                  = ((λ fn, RunCommand ("aws s3 cp " +:+ path_join src fn +:+ " "
                                        +:+ path_join dst fn)) <$> fns,
                     Ret true)).
  { apply (netop_download_all st src remote dst); [done|done|done|].
    intros fn (frame & Hfr & ->)%Hmem. exists frame. split; [done|].
    rewrite Forall_forall in Hframes.
    by rewrite file_name_app, digits_file_name by by apply Hframes. }
  rewrite (download_image_type_s3 st msg image_type frames level src remote dst
             fns Hsrc Hremote Hs3 Hdst eq_refl).
  - rewrite Hdown, (extract_frames_all st dst fns Htar). done.
  - by rewrite Hdown.
  - by rewrite (extract_frames_all st dst fns Htar).
Qed.

End Transfers.

(** ** The cache check on the object store *)

Module RemoteCheck.

Import Config Network Pika Pipeline Worker Vocabulary Notions FrameNames
  CacheChecker FileNames Monotonicity Addresses Texts.

Lemma tar_plain_ext : plain_ext ".tar" = true.
Proof. reflexivity. Qed.

(** X25. On an object-store destination a listing that fails is taken for
    an empty directory: [listdir] swallows the failure, so the level is not
    given up as unknown; it reports every frame of the requested range as
    missing. *)
Theorem s3_listing_failure_reports_every_frame st run_command local_listing
    params lvl chunks d fr e :
  (∀ src, listdir st src = Listing.listdir run_command local_listing src true) →
  (∀ c, c ∈ chunks → well_formed c) →
  level_target params lvl chunks = Ret (d, fr, false) →
  run_command (Listing.listdir_cmd d true) = Raise e →
  ∃ ms,
    _get_missing_chunks_level st params lvl chunks = Ret (Some ms)
    ∧ ∀ f, f ∈ ms ↔ f ∈ fr.
Proof.
  intros Hlistdir Hwf Htarget Hrun.
  assert (Hs3 : ∃ remote, Address_init d = Ret remote ∧ is_s3 remote = true).
  { revert Htarget. unfold level_target.
    destruct (getitem params "dst_image_type" ≫= as_str) as [t|]; [|done]. simpl.
    destruct (remote_image_type_path params t lvl) as [d'|]; [|done]. simpl.
    destruct (index chunks 0) as [c0|]; [|done]. simpl.
    destruct (index chunks (-1)) as [cN|]; [|done]. simpl.
    destruct (get_frame_range _ _) as [fr'|]; [|done]. simpl.
    destruct (Address_init d') as [remote|] eqn:E; [|done]. simpl.
    intros [= -> -> Hu]. exists remote. split; [done|].
    by apply negb_false_iff. }
  destruct Hs3 as (remote & Hremote & Hs3).
  assert (Hlist : listing_at st params lvl chunks = Ret ∅).
  { unfold listing_at. rewrite Htarget. simpl. rewrite Hlistdir.
    unfold Listing.listdir. rewrite Hremote. cbv [mbind result_bind].
    by rewrite Hs3, Hrun. }
  assert (Hexp : expected_at st params lvl chunks
                 = Ret (elements (list_to_set (C := gset string)
                                    ((λ frame, frame +:+ ".tar") <$> fr)))).
  { unfold expected_at. by rewrite Htarget. }
  eexists. split; [by apply level_check_some|].
  intros f. rewrite list_elem_of_fmap. split.
  - intros (fn & -> & Hfn).
    apply elem_of_elements, elem_of_difference in Hfn as [Hfn _].
    apply elem_of_list_to_set, elem_of_elements, elem_of_list_to_set in Hfn.
    apply list_elem_of_fmap in Hfn as (g & -> & Hg).
    destruct (level_target_frames _ _ _ _ _ _ Htarget Hwf g Hg) as (k & Hk & ->).
    rewrite frame_of_fn_plain;
      [done|by apply get_frame_name_nonempty|by apply get_frame_name_plain
      |apply tar_plain_ext].
  - intros Hf. exists (f +:+ ".tar").
    destruct (level_target_frames _ _ _ _ _ _ Htarget Hwf f Hf) as (k & Hk & ->).
    split.
    + rewrite frame_of_fn_plain;
        [done|by apply get_frame_name_nonempty|by apply get_frame_name_plain
        |apply tar_plain_ext].
    + apply elem_of_elements, elem_of_difference. split; [|set_solver].
      apply elem_of_list_to_set, elem_of_elements, elem_of_list_to_set.
      apply list_elem_of_fmap. by eexists.
Qed.

End RemoteCheck.

(** ** These properties on concrete runs *)

Module MoreRuns.

Import Config Network Pika Pipeline Worker Vocabulary Notions Scenario
  Render Stages Cases FrameNames CacheChecker Liveness Downloads Retry
  DepthEstimation FileNames Monotonicity Runs Addresses FrameNumbering
  LevelCheck Publishing Waiting DepthStage Handlers Chunking Fusion
  ListingFacts Transfers RemoteCheck.

(** [Address] on an object-store address, on a local path and on an address
    it refuses. *)
Example Address_examples :
  Address_init "s3://bucket/example/endpoint"
  = Ret {| address := "s3://bucket/example/endpoint";
           ip := Some "bucket";
           ip_path := "bucket/example/endpoint";
           path := "example/endpoint";
           protocol := Some "s3" |}
  ∧ Address_init "/data/out"
    = Ret {| address := "/data/out"; ip := None; ip_path := "/data/out";
             path := "/data/out"; protocol := None |}
  ∧ Address_init "s3://bucket" = Raise ValueError.
Proof. repeat split; vm_compute; reflexivity. Qed.

Lemma frame_name_round_trip_witness :
  int (get_frame_name 7) = Ret 7
  ∧ (get_frame_name 7 = get_frame_name 1000000 → 7 = 1000000)
  ∧ (7 < 1000000 → String.length (get_frame_name 7) = 6%nat)
  ∧ (1000000 ≤ 7 →
     get_frame_name 7 = str 7 ∧ (6 < String.length (get_frame_name 7))%nat).
Proof. apply (frame_name_round_trip 7 1000000); lia. Defined.

Lemma chunks_with_reversed_parse (c : frame_chunk) :
  c ∈ chunks_with_reversed →
  ∃ a b, int (first c) = Ret a ∧ int (last c) = Ret b.
Proof.
  unfold chunks_with_reversed, chunks. rewrite elem_of_app, !elem_of_cons, !elem_of_nil.
  intros [[-> | [-> | [-> | []]]] | [-> | []]]; eexists _, _;
    split; vm_compute; reflexivity.
Qed.

Lemma reversed_chunk_is_never_missing_witness :
  get_frame_range (VStr "000009") (VStr "000007") = Ret []
  ∧ has_missing_frame
      (list_to_set ["000002"; "000005"; "000006"; "000007"])
      (chunk "000009" "000007") = Ret false
  ∧ ∃ result,
      _get_missing_chunks (local_store two_levels) (depth_params false (VInt 2))
        chunks_with_reversed = Ret result
      ∧ chunk "000009" "000007" ∉ result.
Proof.
  apply (reversed_chunk_is_never_missing (local_store two_levels)
           (depth_params false (VInt 2)) chunks_with_reversed (VBool false)
           (list_to_set ["000002"; "000005"; "000006"; "000007"])
           (chunk "000009" "000007") 9 7).
  - reflexivity.
  - reflexivity.
  - by eexists.
  - vm_compute. reflexivity.
  - apply chunks_with_reversed_parse.
  - vm_compute. reflexivity.
  - vm_compute. reflexivity.
  - lia.
Defined.

Lemma level_reports_frames_with_absent_files_witness :
  ∃ ms,
    _get_missing_chunks_level (local_store two_levels)
      (depth_params false (VInt 2)) (VInt 2) chunks = Ret (Some ms)
    ∧ ∀ f,
        f ∈ ms ↔
        f ∈ frames [0; 1; 2; 3; 4]
        ∧ ∃ fns fn,
            get_frame_fns (local_store two_levels)
              (depth_params false (VInt 2)) [f] true (Some level_2) = Ret fns
            ∧ fn ∈ fns ∧ fn ∉ frame_files [0; 1; 3; 4].
Proof.
  apply (level_reports_frames_with_absent_files (local_store two_levels)
           (depth_params false (VInt 2)) (VInt 2) chunks level_2
           (frames [0; 1; 2; 3; 4]) true (frame_files [0; 1; 3; 4])).
  - reflexivity.
  - apply chunks_are_frame_numbers.
  - vm_compute. reflexivity.
  - vm_compute. reflexivity.
  - reflexivity.
Defined.

Lemma missing_chunks_form_a_sublist_witness :
  sublist [chunk "000002" "000003"] chunks.
Proof.
  apply (missing_chunks_form_a_sublist (local_store two_levels)
           (depth_params false (VInt 2)) chunks [chunk "000002" "000003"]).
  vm_compute. reflexivity.
Defined.

Lemma errors_before_the_listing_propagate_witness :
  _get_missing_chunks absent_store unknown_type_params chunks
  = Raise (KeyError "nonsense")
  ∧ run_halted_queue json_dumps absent_store 0 [] unknown_type_params chunks
    = {| ops := setup_ops; iterations := 0;
         outcome := Raise (KeyError "nonsense") |}.
Proof.
  apply (errors_before_the_listing_propagate json_dumps absent_store 0 []
           unknown_type_params chunks (VBool false) (VInt 3) (VInt 3)
           (KeyError "nonsense")).
  - reflexivity.
  - reflexivity.
  - by eexists.
  - reflexivity.
  - reflexivity.
  - vm_compute. reflexivity.
Defined.

Lemma empty_chunk_list_witness :
  run_halted_queue json_dumps absent_store 0 [] (depth_params false (VInt 3)) []
  = {| ops := setup_ops; iterations := 0; outcome := Raise IndexError |}.
Proof.
  apply (empty_chunk_list json_dumps absent_store 0 []
           (depth_params false (VInt 3)) (VBool false) (VInt 3) (VInt 3)
           "disparity" level_3).
  - reflexivity.
  - by eexists.
  - reflexivity.
  - reflexivity.
  - reflexivity.
  - vm_compute. reflexivity.
Defined.

Lemma one_message_per_missing_chunk_witness :
  filter (λ op, is_publish op = true)
    (ops (run_halted_queue json_dumps absent_store 0 []
            (depth_params false (VInt 3)) chunks))
  = publish_chunks json_dumps (depth_params false (VInt 3)) chunks
  ∧ length (publish_chunks json_dumps (depth_params false (VInt 3)) chunks)
    = 3%nat.
Proof.
  destruct (one_message_per_missing_chunk json_dumps absent_store 0 []
              (depth_params false (VInt 3)) chunks chunks)
    as (Hops & Hlen & _).
  - vm_compute. reflexivity.
  - split; [exact Hops | exact Hlen].
Defined.

Lemma wait_loop_ends_on_last_completion_witness :
  wait_loop 3 0 None (busy_then ++ sample 3 1 100 :: idle_run)
  = (2%nat, Ret Done).
Proof.
  apply (wait_loop_ends_on_last_completion 3 0 None busy_then (sample 3 1 100)
           idle_run 1 0 None).
  - vm_compute. reflexivity.
  - reflexivity.
  - left. discriminate.
Defined.


Lemma filter_range_is_the_clamped_window_witness :
  ∃ ff fl,
    filter_range (depth_base []) (chunk "000002" "000003")
    = Ret {| first := "000002"; last := "000003";
             filter_span := Some (ff, fl) |}
    ∧ int ff = Ret (Z.max 0 (2 - 1))
    ∧ int fl = Ret (Z.min 4 (3 + 1))
    ∧ 0 ≤ Z.max 0 (2 - 1) ≤ 2
    ∧ 3 ≤ Z.min 4 (3 + 1) ≤ 4
    ∧ 2 - Z.max 0 (2 - 1) ≤ 1
    ∧ Z.min 4 (3 + 1) - 3 ≤ 1.
Proof.
  apply (filter_range_is_the_clamped_window (depth_base [])
           (chunk "000002" "000003") (VStr "000000") (VStr "000004")
           0 4 1 2 3);
    first [lia | vm_compute; reflexivity].
Defined.

Lemma end_level_is_finest_within_resolution_witness :
  ∃ post fr w,
    depth_plan auto_pipeline = Ret (post, fr, 9, 3)
    ∧ index WIDTHS 3 = Ret w ∧ w ≤ 300
    ∧ ∀ j w', 0 ≤ j < 3 → index WIDTHS j = Ret w' → 300 < w'.
Proof.
  edestruct (end_level_is_finest_within_resolution auto_pipeline)
    as [Hbig _];
    [ vm_compute; reflexivity
    | vm_compute; reflexivity
    | vm_compute; reflexivity
    | vm_compute; reflexivity
    | vm_compute; reflexivity
    | ].
  destruct (Hbig ltac:(lia)) as (e & w & Hplan & He & Hw & Hle & Hfiner).
  assert (e = 3) as ->.
  { apply index_WIDTHS_cases in Hw as Hcases; [|done].
    destruct (Z.lt_trichotomy e 3) as [Hlt|[->|Hgt]]; [|done|].
    - exfalso.
      destruct Hcases
        as [[-> ->]|[[-> ->]|[[-> ->]|[[-> ->]|[[-> ->]|[[-> ->]|[[-> ->]
           |[[-> ->]|[[-> ->]|[-> ->]]]]]]]]]]; lia.
    - exfalso. specialize (Hfiner 3 256 ltac:(lia) eq_refl). lia. }
  eexists _, _, w. split; [exact Hplan|]. split; [exact Hw|].
  split; [exact Hle|]. exact Hfiner.
Defined.

Lemma level_transfer_skips_the_cache_witness :
  ∃ ds,
    level_dispatches plain_pipeline (depth_base []) chunks 0 3 = Ret ds
    ∧ job_names ds = ["DerpCLI: Level 3"; "TemporalBilateralFilter"; "Transfer"]
    ∧ ∀ d, d ∈ ds → dict_get d.1 "app" = Some (VStr "Transfer") →
        d.2 = frame_chunks plain_pipeline
        ∧ ∀ st chunks', _get_missing_chunks st d.1 chunks' = Ret chunks'.
Proof.
  eexists. split; [vm_compute; reflexivity|].
  split; [vm_compute; reflexivity|].
  apply (level_transfer_skips_the_cache plain_pipeline (depth_base []) chunks
           0 3).
  vm_compute. reflexivity.
Defined.


Lemma handler_is_chosen_by_prefix_witness :
  run_first_match failing_transfer app_names transfer_msg
  = failing_transfer "Transfer" transfer_msg
  ∧ ∀ other, other ∈ app_names → startswith "Transfer" other = true →
             other = "Transfer".
Proof.
  apply (handler_is_chosen_by_prefix failing_transfer transfer_msg "Transfer"
           "Transfer").
  - reflexivity.
  - unfold app_names. rewrite !elem_of_cons. tauto.
  - reflexivity.
Defined.

Lemma messages_without_a_handler_witness :
  handle_message json_loads json_dumps failing_transfer true 7
    (json_dumps unknown_msg)
  = Ret [ basic_ack 7; queue_declare RESPONSE_QUEUE_NAME;
          basic_publish RESPONSE_QUEUE_NAME "Completed!" false ].
Proof.
  destruct (messages_without_a_handler json_loads json_dumps failing_transfer
              true 7 (json_dumps unknown_msg) unknown_msg)
    as [Hunknown _].
  - vm_compute. reflexivity.
  - destruct (Hunknown "Calibration") as [H _].
    + reflexivity.
    + repeat constructor.
    + exact H.
Defined.

(** A message without [app] is published again. *)
Example anonymous_message_is_republished :
  handle_message json_loads json_dumps failing_transfer true 7
    (json_dumps anonymous_msg)
  = Ret [ basic_reject 7; queue_declare QUEUE_NAME;
          basic_publish QUEUE_NAME (json_dumps anonymous_msg) true ].
Proof. vm_compute. reflexivity. Qed.

Lemma depth_jobs_reach_their_handlers_witness :
  ∃ ds,
    depth_estimation plain_pipeline = Ret ds
    ∧ length ds = 37%nat
    ∧ ∀ d, d ∈ ds →
        ∃ app name,
          dict_get d.1 "app" = Some (VStr app)
          ∧ name ∈ depth_handlers ∧ name ∈ app_names
          ∧ startswith app name = true
          ∧ ∀ run_callback msg,
              dict_get msg "app" = dict_get d.1 "app" →
              run_first_match run_callback app_names (VDict msg)
              = run_callback name (VDict msg).
Proof.
  eexists. split; [vm_compute; reflexivity|].
  split; [vm_compute; reflexivity|].
  apply (depth_jobs_reach_their_handlers plain_pipeline).
  vm_compute. reflexivity.
Defined.

Lemma frame_chunks_tile_the_run_witness :
  ∃ chunks',
    frame_chunks_of "000000" "000004" 2 = Ret chunks'
    ∧ Z.of_nat (length chunks') = (4 - 0) / 2 + 1
    ∧ (∀ i c,
         chunks' !! i = Some c →
         c = {| first := get_frame_name (0 + Z.of_nat i * 2);
                last := get_frame_name (Z.min 4 (0 + Z.of_nat i * 2 + 2 - 1));
                filter_span := None |})
    ∧ (∀ c, c ∈ chunks' → well_formed c)
    ∧ pairwise_disjoint chunks'
    ∧ ∀ k, 0 ≤ k ≤ 4 ↔ ∃ c, c ∈ chunks' ∧ in_range c k.
Proof.
  apply (frame_chunks_tile_the_run "000000" "000004" 2 0 4);
    first [lia | vm_compute; reflexivity].
Defined.

(** The chunks of the scenario are the ones [main] builds. *)
Example scenario_chunks_are_built :
  frame_chunks_of "000000" "000004" 2 = Ret chunks.
Proof. vm_compute. reflexivity. Qed.

Lemma degenerate_runs_have_no_chunks_witness :
  (0 = 0 → frame_chunks_of "000001" "000003" 0 = Raise ValueError)
  ∧ (0 < 0 → 1 ≤ 3 → frame_chunks_of "000001" "000003" 0 = Ret [])
  ∧ (0 < 0 → 3 < 1 → frame_chunks_of "000001" "000003" 0 = Ret []).
Proof.
  apply (degenerate_runs_have_no_chunks "000001" "000003" 0 1 3);
    vm_compute; reflexivity.
Defined.

Lemma fusion_covers_the_whole_run_witness :
  ∃ p,
    fusion plain_pipeline
    = Ret (p, [ {| first := get_frame_name 0; last := get_frame_name 4;
                   filter_span := None |} ])
    ∧ dict_get p "app" = Some (VStr "ConvertToBinary: Striping")
    ∧ dict_get p "run_conversion" = Some (VBool false)
    ∧ dict_get p "dst_image_type" = Some (VStr "fused")
    ∧ get_frame_range (VStr (get_frame_name 0)) (VStr (get_frame_name 4))
      = Ret (get_frame_name <$> seqZ 0 (4 - 0 + 1)).
Proof.
  apply (fusion_covers_the_whole_run plain_pipeline "000000" "000004" 2 0 4);
    first [lia | vm_compute; reflexivity].
Defined.

Lemma s3_listing_never_raises_witness :
  ∃ files,
    Listing.listdir listing_ok no_local_listing s3_level_3 true = Ret files
    ∧ ("" ∉ files)
    ∧ (∀ f, f ∈ files → all_chars visible f = true)
    ∧ (∀ e, listing_ok (Listing.listdir_cmd s3_level_3 true) = Raise e →
            files = ∅)
    ∧ (∀ raw_output,
         listing_ok (Listing.listdir_cmd s3_level_3 true) = Ret raw_output →
         ∀ f, f ∈ files ↔
              (f ≠ "" ∧ ∃ line, line ∈ split_char Listing.newline raw_output
                                ∧ f = Listing.last_word line)).
Proof.
  eapply (s3_listing_never_raises listing_ok no_local_listing s3_level_3 true).
  - vm_compute. reflexivity.
  - reflexivity.
Defined.

(** The listing of the two archives. *)
Example s3_listing_of_two_archives :
  Listing.listdir listing_ok no_local_listing s3_level_3 true
  = Ret (list_to_set ["000000.tar"; "000001.tar"])
  ∧ Listing.listdir listing_fails no_local_listing s3_level_3 true = Ret ∅.
Proof. split; vm_compute; reflexivity. Qed.

Lemma recursive_option_is_glued_to_the_path_witness :
  split_char " " (Listing.listdir_cmd s3_level_3 true)
  = [ "aws"; "s3"; "ls";
      "s3://bucket/out/disparity_levels/level_3/--recursive" ].
Proof.
  destruct (recursive_option_is_glued_to_the_path s3_level_3) as (H & _ & _).
  - reflexivity.
  - exact H.
Defined.

Lemma s3_chunks_well_formed (c : frame_chunk) : c ∈ chunks → well_formed c.
Proof. apply chunks_are_frame_numbers. Qed.

Lemma s3_listing_failure_reports_every_frame_witness :
  ∃ ms,
    _get_missing_chunks_level s3_store_down s3_depth_params (VInt 3) chunks
    = Ret (Some ms)
    ∧ ∀ f, f ∈ ms ↔ f ∈ frames [0; 1; 2; 3; 4].
Proof.
  apply (s3_listing_failure_reports_every_frame s3_store_down listing_fails
           no_local_listing s3_depth_params (VInt 3) chunks s3_level_3
           (frames [0; 1; 2; 3; 4]) CommandFailed).
  - reflexivity.
  - apply s3_chunks_well_formed.
  - vm_compute. reflexivity.
  - reflexivity.
Defined.

Lemma netop_helper_tries_every_file_witness :
  _netop_helper (λ s d, download absent_store s d []) s3_color local_color
    ["000000.tar"; "/000001.tar"; "000002.tar"] true
  = ([ RunCommand
         ("aws s3 cp s3://bucket/in/video/color/000000.tar "
          +:+ "/app/facebook360_dep/project/video/color/000000.tar");
       RunCommand
         ("aws s3 cp s3://bucket/in/video/color/000002.tar "
          +:+ "/app/facebook360_dep/project/video/color/000002.tar") ],
     Ret false).
Proof.
  apply (netop_helper_tries_every_file (λ s d, download absent_store s d [])
           s3_color local_color ["000000.tar"; "/000001.tar"; "000002.tar"]
           [true; false; true]).
  repeat constructor.
Defined.

Lemma s3_download_fetches_then_unpacks_witness :
  ∃ fns,
    get_frame_fns absent_store s3_params ["000000"; "000001"] false None
    = Ret fns
    ∧ (∀ fn, fn ∈ fns ↔
             ∃ frame, frame ∈ ["000000"; "000001"] ∧ fn = frame +:+ ".tar")
    ∧ NoDup fns
    ∧ download_image_type absent_store s3_params "color"
        ["000000"; "000001"] VNone
      = (((λ fn, RunCommand ("aws s3 cp " +:+ path_join s3_color fn +:+ " "
                             +:+ path_join local_color fn)) <$> fns)
         ++ ((λ fn, TarExtractAll (path_join local_color fn) local_color)
               <$> fns),
         Ret false).
Proof.
  eapply (s3_download_fetches_then_unpacks absent_store s3_params "color"
            ["000000"; "000001"] VNone s3_color _ local_color).
  - reflexivity.
  - vm_compute. reflexivity.
  - reflexivity.
  - reflexivity.
  - repeat constructor.
  - done.
  - done.
Defined.

End MoreRuns.
